(** * Parts-shortage schedule: a shallow embedding of the netting engine

    The development follows [src/61_kikaikaSchedule/master_kikaika.py] and
    [src/61_kikaikaSchedule/child_requirements.py].

    Modelling conventions.
    - A [datetime.date] is its proleptic ordinal, an integer ([Z]); date
      comparison and subtraction are integer comparison and subtraction.
    - A quantity is an exact integer ([Z]); the rounding of binary floating
      point is outside the model.
    - A [DataFrame] is the list of its rows, a record per row, in row order;
      a null cell ([None], [NaN], [NA]) is the [None] of an [option] field.
    - A Python [dict] is a finite map ([gmap]).
    - A Python exception is the [None] of an [option] result. *)

From Stdlib Require Import ZArith QArith Qround Ascii String DecimalString
  DecimalPos Lia.
From stdpp Require Import gmap strings list sorting.
From Equations Require Import Equations.

Local Open Scope Z_scope.

(** ** Python list indexing *)

Module Py.

(** [l[i]]: a negative index counts from the end, an index out of range
    raises [IndexError]. *)
Definition getitem {A} (l : list A) (i : Z) : option A :=
  let n := Z.of_nat (length l) in
  if decide (0 <= i < n) then l !! Z.to_nat i
  else if decide (- n <= i < 0) then l !! Z.to_nat (n + i)
  else None.

(** Sum of a list of quantities ([Series.sum()]). *)
Definition Zsum (l : list Z) : Z := foldr Z.add 0 l.

End Py.

(** ** Calendar service: [nearest_workday], [delivery_date_from_shortage] *)

Module Calendar.

(** The loop of [bisect.bisect_left(a, x)]:
    [while lo < hi: mid = (lo + hi) // 2;
       if a[mid] < x: lo = mid + 1 else: hi = mid]. The probe [a[mid]] is
    always inside the list because [mid < hi <= len(a)]. *)
Equations? bisect_loop (a : list Z) (x : Z) (lo hi : nat) : nat
  by wf (hi - lo)%nat lt :=
  bisect_loop a x lo hi with decide (lo < hi)%nat => {
    | left _ with decide (a !!! ((lo + hi) / 2)%nat < x) => {
        | left _ := bisect_loop a x (S ((lo + hi) / 2)%nat) hi
        | right _ := bisect_loop a x lo ((lo + hi) / 2)%nat }
    | right _ := lo }.
Proof.
  all: change (Nat.divmod (lo + hi) 1 0 1).1 with ((lo + hi) / 2)%nat in *;
       pose proof (Nat.div_mod_eq (lo + hi) 2);
       pose proof (Nat.mod_upper_bound (lo + hi) 2 ltac:(lia)); lia.
Qed.

Definition bisect_left (a : list Z) (x : Z) : nat :=
  bisect_loop a x 0 (length a).

(** [np.searchsorted(wd, v, side="left")] runs the same halving loop over the
    array built from the list. *)
Definition searchsorted_left (a : list Z) (x : Z) : nat :=
  bisect_loop a x 0 (length a).

Definition nearest_workday (workdays : list Z) (target : Z) : option Z :=
  match workdays with
  | [] => Some target
  | _ :: _ =>
    first ← Py.getitem workdays 0;
    if decide (target <= first) then Some first
    else
      lst ← Py.getitem workdays (-1);
      if decide (target >= lst) then Some lst
      else
        let i := Z.of_nat (bisect_left workdays target) in
        before ← Py.getitem workdays (i - 1);
        after ← Py.getitem workdays i;
        if decide (target - before <= after - target) then Some before
        else Some after
  end.

Definition delivery_date_from_shortage
    (workdays : list Z) (shortage : Z) (back_days : Z) : option Z :=
  s ← nearest_workday workdays shortage;
  let idx := Z.of_nat (searchsorted_left workdays s) in
  let due_idx := Z.max 0 (idx - back_days) in
  Py.getitem workdays due_idx.

(** The spec's words for the nearest workday of a date. *)
Definition is_before (ws : list Z) (d b : Z) : Prop :=
  b ∈ ws ∧ b < d ∧ ∀ w, w ∈ ws → w < d → w <= b.

Definition is_after (ws : list Z) (d a : Z) : Prop :=
  a ∈ ws ∧ d <= a ∧ ∀ w, w ∈ ws → d <= w → a <= w.

Inductive nearest_spec (ws : list Z) (d : Z) : Z → Prop :=
| nearest_first f :
    head ws = Some f → d <= f → nearest_spec ws d f
| nearest_last l :
    last ws = Some l → l <= d → nearest_spec ws d l
| nearest_before f l b a :
    head ws = Some f → last ws = Some l → f < d < l →
    is_before ws d b → is_after ws d a → d - b <= a - d →
    nearest_spec ws d b
| nearest_after f l b a :
    head ws = Some f → last ws = Some l → f < d < l →
    is_before ws d b → is_after ws d a → a - d < d - b →
    nearest_spec ws d a.

(** [i] is the index of [w]: the first position holding it. *)
Definition index_of (ws : list Z) (w : Z) (i : nat) : Prop :=
  ws !! i = Some w ∧ ∀ j, ws !! j = Some w → (i <= j)%nat.

(** The spec's [backOffset]: the workday at index [max 0 (i - n)]. *)
Definition back_offset_spec (ws : list Z) (d n : Z) (r : Z) : Prop :=
  ∃ w i, nearest_spec ws d w ∧ index_of ws w i ∧
         ws !! Z.to_nat (Z.max 0 (Z.of_nat i - n)) = Some r.

End Calendar.

(** ** Shortage detector and inventory aggregation *)

Module Shortage.

(** One turn of the loop of [compute_shortage]: the state is
    [(cum, shortage_date)], the item is [(d, col)]. *)
Definition shortage_step (req_row : gmap string Z) (inv_total : Z)
    (st : Z * option Z) (dc : Z * string) : Z * option Z :=
  let cum := st.1 + default 0 (req_row !! dc.2) in
  (cum,
   match st.2 with
   | None => if decide (inv_total - cum <= 0) then Some dc.1 else None
   | Some d0 => Some d0
   end).

Definition compute_shortage (req_row : gmap string Z) (inv_total : Z)
    (date_colnames : list string) (date_cols : list Z) : option Z * Z :=
  let st := foldl (shortage_step req_row inv_total) (0, None)
                  (zip date_cols date_colnames) in
  (st.2, inv_total - st.1).

(** A row of [base] in [main]: the part with its three inventory columns and
    the derived column 在庫合計. *)
Record base_row := {
  MITM_N : string;
  STOC : Z;
  棚理論 : Z;
  外部 : Z;
  在庫合計 : Z
}.

(** Step 2 of [main]: three left merges on the part key, each followed by
    [fillna(0)], then [base["在庫合計"] = base["棚理論"] + base["外部"]]. The
    three frames hold one row per part key (they come out of a [groupby], or
    of a merge onto the grouped part list), so they are lookups. *)
Definition make_base_row (stoc theory external : gmap string Z)
    (part : string) : base_row :=
  let s := default 0 (stoc !! part) in
  let t := default 0 (theory !! part) in
  let e := default 0 (external !! part) in
  {| MITM_N := part; STOC := s; 棚理論 := t; 外部 := e; 在庫合計 := t + e |}.

(** Step 7 of [main], the body of the loop over the rows of [out]:
    [inv_total = float(r["STOC"])]. *)
Definition inv_total (r : base_row) : Z := STOC r.

Definition shortage_of_row (r : base_row) (req_row : gmap string Z)
    (date_colnames : list string) (date_cols : list Z) : option Z * Z :=
  compute_shortage req_row (inv_total r) date_colnames date_cols.

(** The spec's words for the shortage detector: the ordered daily demand
    [(date, qty)] read off a row. *)
Definition dem_of (req_row : gmap string Z) (l : list (Z * string))
  : list (Z * Z) :=
  (λ dc : Z * string, (dc.1, default 0 (req_row !! dc.2))) <$> l.

Definition daily_demand (req_row : gmap string Z)
    (date_colnames : list string) (date_cols : list Z) : list (Z * Z) :=
  dem_of req_row (zip date_cols date_colnames).

(** Cumulative demand through day [k] (counted from 0). *)
Definition cum_through (demand : list (Z * Z)) (k : nat) : Z :=
  Py.Zsum (snd <$> take (S k) demand).

Definition first_shortfall (avail : Z) (demand : list (Z * Z)) (k : nat) : Prop :=
  (k < length demand)%nat ∧ avail - cum_through demand k <= 0 ∧
  ∀ j, (j < k)%nat → 0 < avail - cum_through demand j.

End Shortage.

(** ** Line-number canonicalisation: [to_int_str] *)

Module Canon.

(** A value of a column read from the database. A finite float (or a
    [Decimal]) is the rational it denotes; [CNull] is [None]/[NaN]. A
    column of the database holds no infinite float; a string can spell one,
    see [reads_infinity] below. *)
Inductive cell :=
| CInt (z : Z)
| CFloat (q : Q)
| CStr (s : string)
| CNull.

(** The decimal literals [pd.to_numeric] reads from a string: optional
    blanks, an optional sign, digits with an optional fraction, an optional
    exponent, optional blanks. The value is the exact decimal: rounding to
    [float64], and a literal too large for it, are outside the model. *)
Definition is_space (c : ascii) : bool :=
  let n := nat_of_ascii c in
  (n =? 32)%nat || ((9 <=? n)%nat && (n <=? 13)%nat).

Definition digit_of (c : ascii) : option Z :=
  let n := nat_of_ascii c in
  if ((48 <=? n)%nat && (n <=? 57)%nat)%bool then Some (Z.of_nat n - 48)
  else None.

Fixpoint skip_spaces (s : list ascii) : list ascii :=
  match s with
  | c :: s' => if is_space c then skip_spaces s' else s
  | [] => []
  end.

Fixpoint read_digits (s : list ascii) (acc : Z) (cnt : nat)
  : Z * nat * list ascii :=
  match s with
  | c :: s' =>
    match digit_of c with
    | Some d => read_digits s' (10 * acc + d) (S cnt)
    | None => (acc, cnt, s)
    end
  | [] => (acc, cnt, [])
  end.

Definition read_sign (s : list ascii) : bool * list ascii :=
  match s with
  | c :: s' =>
    if Ascii.eqb c "-" then (true, s')
    else if Ascii.eqb c "+" then (false, s')
    else (false, s)
  | [] => (false, [])
  end.

Definition read_exponent (s : list ascii) : option (Z * list ascii) :=
  match s with
  | c :: s' =>
    if (Ascii.eqb c "e" || Ascii.eqb c "E")%bool then
      let '(neg, s1) := read_sign s' in
      let '(e, n, s2) := read_digits s1 0 0 in
      if decide (n = 0%nat) then None
      else Some (if neg : bool then - e else e, s2)
    else Some (0, s)
  | [] => Some (0, [])
  end.

(** [m * 10^k] as a rational. *)
Definition scale10 (m k : Z) : Q :=
  if decide (0 <= k) then inject_Z (m * 10 ^ k)
  else Qmake m (Z.to_pos (10 ^ (- k))).

Definition parse_number (s : string) : option Q :=
  let s0 := skip_spaces (list_ascii_of_string s) in
  let '(neg, s1) := read_sign s0 in
  let '(ip, ni, s2) := read_digits s1 0 0 in
  let '(m, nf, s3) :=
    match s2 with
    | c :: s' => if Ascii.eqb c "." then read_digits s' ip 0 else (ip, 0%nat, s2)
    | [] => (ip, 0%nat, s2)
    end in
  if decide ((ni + nf)%nat = 0%nat) then None
  else
    match read_exponent s3 with
    | None => None
    | Some (e, s4) =>
      if forallb is_space s4
      then Some (scale10 (if neg : bool then - m else m) (e - Z.of_nat nf))
      else None
    end.

(** [pd.to_numeric(s, errors="coerce")] on one element: [None] is [NaN]. *)
Definition to_numeric (c : cell) : option Q :=
  match c with
  | CInt z => Some (inject_Z z)
  | CFloat q => Some q
  | CStr s => parse_number s
  | CNull => None
  end.

Definition fillna (v : Q) (x : option Q) : Q := default v x.

(** The numbers a [float64] holds: [m * 2^e] with a 53-bit [m]. A number
    read from a string is rounded to one of them; the rounding is outside
    the model, so statements about the value read from a string ask for a
    number that needs none. *)
Definition float64 (q : Q) : Prop :=
  ∃ m e : Z, Z.abs m < 2 ^ 53 ∧ -1074 <= e <= 971 ∧
             (q == inject_Z m * (2 # 1) ^ e)%Q.

(** The range of [int64]. *)
Definition INT64_MIN : Z := - 2 ^ 63.

Definition in_int64 (z : Z) : Prop := - 2 ^ 63 <= z < 2 ^ 63.

#[export] Instance in_int64_dec (z : Z) : Decision (in_int64 z).
Proof. unfold in_int64. apply _. Defined.

(** A number with its fraction dropped, towards zero. *)
Definition truncate (q : Q) : Z := Z.quot (Qnum q) (Z.pos (Qden q)).

(** [.astype(int)] on a float: the cast of [float64] to [int64]. The
    fraction is dropped, towards zero; a number beyond the range of [int64]
    becomes [-2^63], which is what the conversion gives on x86-64. *)
Definition astype_int (q : Q) : Z :=
  if decide (in_int64 (truncate q)) then truncate q else INT64_MIN.

(** [.astype(str)] on an integer. *)
Definition astype_str (z : Z) : string := NilZero.string_of_int (Z.to_int z).

Definition to_int_str1 (c : cell) : string :=
  astype_str (astype_int (fillna (inject_Z (-1)) (to_numeric c))).

Definition to_int_str (s : list cell) : list string := to_int_str1 <$> s.

(** The sentinel of the unparsable values. *)
Definition sentinel : string := "-1".

(** The strings [pd.to_numeric] reads as an infinity: [inf] and
    [infinity], with an optional sign, in any case of the letters. *)
Definition lower (c : ascii) : ascii :=
  let n := nat_of_ascii c in
  if ((65 <=? n)%nat && (n <=? 90)%nat)%bool then ascii_of_nat (n + 32)
  else c.

Fixpoint lower_string (s : string) : string :=
  match s with
  | EmptyString => EmptyString
  | String c s' => String (lower c) (lower_string s')
  end.

Definition reads_infinity (s : string) : bool :=
  bool_decide (lower_string s
               ∈ ["inf"; "+inf"; "-inf";
                  "infinity"; "+infinity"; "-infinity"]%string).

Definition non_finite (c : cell) : bool :=
  match c with
  | CStr s => reads_infinity s
  | _ => false
  end.

(** [to_int_str] with its exception: [fillna(-1)] leaves an infinity in
    place and [.astype(int)] then raises; [None] is that exception.
    [to_int_str] above is the result for a series without such an
    element. *)
Definition to_int_str_checked (s : list cell) : option (list string) :=
  if existsb non_finite s then None else Some (to_int_str s).

(** The integer part of a number, in the spec's words: the number with its
    fraction cut off. *)
Definition integer_part (q : Q) : Z :=
  if Qle_bool 0 q then Qfloor q else Qceiling q.

End Canon.

(** ** DataFrame operations used by the reconciler and the explosion *)

Module Frame.

Section Groupby.
Context {K R : Type} `{EqDecision K}.

(** Put row [r] into the group of key [k], opening the group when the key
    is new. *)
Fixpoint group_add (k : K) (r : R) (gs : list (K * list R))
  : list (K * list R) :=
  match gs with
  | [] => [(k, [r])]
  | g :: gs' =>
    if decide (k = g.1) then (g.1, g.2 ++ [r]) :: gs'
    else g :: group_add k r gs'
  end.

(** [df.groupby(key)]: one group per key, each with its rows in their
    order in [df]. The groups are listed by first appearance; pandas lists
    them by ascending key, and nothing below depends on that order. *)
Definition groupby (key : R → K) (rows : list R) : list (K * list R) :=
  foldl (λ gs r, group_add (key r) r gs) [] rows.
End Groupby.

Section Merge.
Context {L R K : Type} `{EqDecision K}.

(** [left.merge(right, left_on=kl, right_on=kr, how="left")]: every left
    row, in order, once per right row with the same key, and once with an
    empty right side when no right row has it. *)
Definition merge_left (kl : L → K) (kr : R → K)
    (left : list L) (right : list R) : list (L * option R) :=
  left ≫= (λ l,
    match filter (λ r, kr r = kl l) right with
    | [] => [(l, None)]
    | rs => (λ r, (l, Some r)) <$> rs
    end).
End Merge.

(** [Series.unique()]: first occurrences, in order. *)
Fixpoint unique_from {A} `{EqDecision A} (seen l : list A) : list A :=
  match l with
  | [] => []
  | x :: l' =>
    if decide (x ∈ seen) then unique_from seen l'
    else x :: unique_from (x :: seen) l'
  end.

Definition unique {A} `{EqDecision A} (l : list A) : list A :=
  unique_from [] l.

(** [chunked_list(lst, size)]:
    [[lst[i:i+size] for i in range(0, len(lst), size)]], for [size > 0]. *)
Fixpoint chunked_from {A} (fuel : nat) (lst : list A) (size : nat)
  : list (list A) :=
  match fuel with
  | O => []
  | S fuel' =>
    match lst with
    | [] => []
    | _ :: _ => take size lst :: chunked_from fuel' (drop size lst) size
    end
  end.

Definition chunked_list {A} (lst : list A) (size : nat) : list (list A) :=
  chunked_from (length lst) lst size.

End Frame.

(** ** Open-order reconciler: [load_mfg_open_orders], [load_paintable] *)

(** Rows of TTISFC001002 as selected by [load_mfg_open_orders], taken after
    the column MITM_N is added. *)
Module Sfc.
Record raw := {
  PDNO : option Z;
  OPRO : Canon.cell;
  MITM_N : string;
  OSTA : Z;
  QRDR : option Z;
  QDLV : option Z
}.
End Sfc.

(** Rows of the frame [mfg_orders]. *)
Module Mfg.
Record row := {
  PDNO : option Z;
  OPRO_K : string;
  MITM_N : string;
  注残 : Z
}.
End Mfg.

(** Rows of TTDPUR041002: as read, and after the key and type unification. *)
Module Pur041.
Record raw := {
  PDNO : Z;
  OPNO : Canon.cell;
  PONO : string;
  ORNO : string;
  OQUA : option Z
}.
Record row := {
  PDNO' : option Z;
  OPNO_K : string;
  PONO' : string;
  ORNO' : string;
  OQUA' : Z
}.
End Pur041.

(** Rows of TTDPUR045002 as read, and rows of the summary [p045_sum]. *)
Module Pur045.
Record raw := {
  PDNO : Z;
  PONO : string;
  ORNO : string;
  DQUA : option Z
}.
Record sum_row := {
  PDNO' : option Z;
  PONO' : string;
  ORNO' : string;
  DQUA_SUM : Z
}.
End Pur045.

Module Reconciler.
Import Frame.

Definition load_mfg_open_orders (TTISFC001002 : list Sfc.raw)
    (mitm_set : gset string) : list Mfg.row * list (string * Z) :=
  let df := filter (λ r, Sfc.OSTA r < 6) TTISFC001002 in
  let df := filter (λ r, Sfc.MITM_N r ∈ mitm_set) df in
  let df := (λ r, {| Mfg.PDNO := Sfc.PDNO r;
                     Mfg.OPRO_K := Canon.to_int_str1 (Sfc.OPRO r);
                     Mfg.MITM_N := Sfc.MITM_N r;
                     Mfg.注残 := default 0 (Sfc.QRDR r)
                                 - default 0 (Sfc.QDLV r) |}) <$> df in
  let zan_sum := (λ g : string * list Mfg.row,
                    (g.1, Py.Zsum (Mfg.注残 <$> g.2)))
                 <$> groupby Mfg.MITM_N df in
  (df, zan_sum).

(** [SELECT ... WHERE PDNO IN (chunk)] for every chunk, concatenated. *)
Definition fetch_chunks {T} (pdno : T → Z) (table : list T)
    (chunks : list (list Z)) : list T :=
  chunks ≫= (λ chunk, filter (λ r, pdno r ∈ chunk) table).

Definition unify_041 (r : Pur041.raw) : Pur041.row :=
  {| Pur041.PDNO' := Some (Pur041.PDNO r);
     Pur041.OPNO_K := Canon.to_int_str1 (Pur041.OPNO r);
     Pur041.PONO' := Pur041.PONO r;
     Pur041.ORNO' := Pur041.ORNO r;
     Pur041.OQUA' := default 0 (Pur041.OQUA r) |}.

(** [p045.groupby(["PDNO","PONO","ORNO"]).agg(DQUA_SUM=("DQUA","sum"))]; a
    group whose key holds a null is dropped. *)
Definition summarize_045 (p045 : list Pur045.raw) : list Pur045.sum_row :=
  omap (λ g : (option Z * string * string) * list Pur045.raw,
          pd ← g.1.1.1;
          Some {| Pur045.PDNO' := Some pd;
                  Pur045.PONO' := g.1.1.2;
                  Pur045.ORNO' := g.1.2;
                  Pur045.DQUA_SUM :=
                    Py.Zsum ((λ r, default 0 (Pur045.DQUA r)) <$> g.2) |})
       (groupby (λ r, (Some (Pur045.PDNO r), Pur045.PONO r, Pur045.ORNO r))
                p045).

(** A row of the joined frame [j]: the order line, the purchase line it met
    (if any), the receipt summary that one met (if any). *)
Definition j_row : Type :=
  (Mfg.row * option Pur041.row) * option Pur045.sum_row.

Definition j_MITM_N (r : j_row) : string := Mfg.MITM_N r.1.1.
Definition j_注残 (r : j_row) : Z := Mfg.注残 r.1.1.
(** [j["OQUA"].fillna(0)], [j["DQUA_SUM"].fillna(0)]. *)
Definition j_OQUA (r : j_row) : Z := default 0 (Pur041.OQUA' <$> r.1.2).
Definition j_DQUA_SUM (r : j_row) : Z := default 0 (Pur045.DQUA_SUM <$> r.2).

(** The purchase lines on the key of an order line. *)
Definition matches_041 (o : Mfg.row) (p041 : list Pur041.row)
  : list Pur041.row :=
  filter (λ p, (Pur041.PDNO' p, Pur041.OPNO_K p)
               = (Mfg.PDNO o, Mfg.OPRO_K o)) p041.

(** The two left merges of [load_paintable]. A null key matches only a null
    key; the right sides hold none. *)
Definition join_041 (mfg_orders : list Mfg.row) (p041 : list Pur041.row)
  : list (Mfg.row * option Pur041.row) :=
  merge_left (λ o, (Mfg.PDNO o, Mfg.OPRO_K o))
             (λ p, (Pur041.PDNO' p, Pur041.OPNO_K p))
             mfg_orders p041.

Definition join_045 (j : list (Mfg.row * option Pur041.row))
    (p045_sum : list Pur045.sum_row) : list j_row :=
  merge_left
    (λ r : Mfg.row * option Pur041.row,
       (Mfg.PDNO r.1, Pur041.PONO' <$> r.2, Pur041.ORNO' <$> r.2))
    (λ s, (Pur045.PDNO' s, Some (Pur045.PONO' s), Some (Pur045.ORNO' s)))
    j p045_sum.

(** A row of the grouped frame [g]. *)
Record g_row := {
  g_MITM_N : string;
  A_注残 : Z;
  B_OQUA : Z;
  C_DQUA : Z
}.

Definition 母材未納残 (g : g_row) : Z := B_OQUA g - C_DQUA g.
(** [(g["A_注残"] - g["母材未納残"]).clip(lower=0)]. *)
Definition 着手可 (g : g_row) : Z := Z.max 0 (A_注残 g - 母材未納残 g).

Definition aggregate (j : list j_row) : list g_row :=
  (λ g : string * list j_row,
     {| g_MITM_N := g.1;
        A_注残 := Py.Zsum (j_注残 <$> g.2);
        B_OQUA := Py.Zsum (j_OQUA <$> g.2);
        C_DQUA := Py.Zsum (j_DQUA_SUM <$> g.2) |})
  <$> groupby j_MITM_N j.

(** The ordered and the backlog total of a part read off the first join:
    one summand per row, that is per order line without a purchase line and
    per pair of an order line and a purchase line matched to it. *)
Definition B_of_join (j : list (Mfg.row * option Pur041.row))
    (part : string) : Z :=
  Py.Zsum ((λ x : Mfg.row * option Pur041.row,
              default 0 (Pur041.OQUA' <$> x.2))
           <$> filter (λ x, Mfg.MITM_N x.1 = part) j).

Definition A_of_join (j : list (Mfg.row * option Pur041.row))
    (part : string) : Z :=
  Py.Zsum ((λ x : Mfg.row * option Pur041.row, Mfg.注残 x.1)
           <$> filter (λ x, Mfg.MITM_N x.1 = part) j).

(** The frames [p041] and [p045] fetched for the orders of [mfg_orders]. *)
Definition pdnos_of (mfg_orders : list Mfg.row) : list Z :=
  unique (omap Mfg.PDNO mfg_orders).

Definition chunksize : nat := 800.

(** The grouped frame [g] of the main path of [load_paintable]. *)
Definition paintable_groups (p041 : list Pur041.raw) (p045 : list Pur045.raw)
    (mfg_orders : list Mfg.row) : list g_row :=
  let p041 := unify_041 <$> p041 in
  let p045_sum := if p045 is [] then [] else summarize_045 p045 in
  aggregate (join_045 (join_041 mfg_orders p041) p045_sum).

(** [load_paintable]; the result has the columns MITM_N and 着手可. *)
Definition load_paintable (TTDPUR041002 : list Pur041.raw)
    (TTDPUR045002 : list Pur045.raw) (mfg_orders : list Mfg.row)
  : list (string * Z) :=
  if mfg_orders is [] then []
  else
    let pdnos := pdnos_of mfg_orders in
    if pdnos is [] then []
    else
      let chunks := chunked_list pdnos chunksize in
      let p041 := fetch_chunks Pur041.PDNO TTDPUR041002 chunks in
      let p045 := fetch_chunks Pur045.PDNO TTDPUR045002 chunks in
      if p041 is [] then
        (λ g : string * list Mfg.row,
           (g.1, Z.max 0 (Py.Zsum (Mfg.注残 <$> g.2))))
        <$> groupby Mfg.MITM_N mfg_orders
      else
        (λ g, (g_MITM_N g, 着手可 g)) <$> paintable_groups p041 p045 mfg_orders.

(** [out.merge(paintable, on="MITM_N", how="left")] followed by
    [fillna(0)], read for one part. *)
Definition startable (paintable : list (string * Z)) (part : string) : Z :=
  default 0 ((λ x : nat * (string * Z), x.2.2)
             <$> list_find (λ r, r.1 = part) paintable).

(** The spec's words for the startable quantity of a part. *)
Definition lines_of (mfg_orders : list Mfg.row) (part : string)
  : list Mfg.row :=
  filter (λ o, Mfg.MITM_N o = part) mfg_orders.

(** The purchase lines matched, by the canonicalised (order, line-number)
    key, to some order line of [lines]. *)
Definition matched_purchases (lines : list Mfg.row) (p041 : list Pur041.raw)
  : list Pur041.raw :=
  filter (λ p, Exists (λ o, Mfg.PDNO o = Some (Pur041.PDNO p)
                            ∧ Mfg.OPRO_K o = Canon.to_int_str1 (Pur041.OPNO p))
                      lines) p041.

(** The receipts matched to some purchase line of [ps]. *)
Definition matched_receipts (ps : list Pur041.raw) (p045 : list Pur045.raw)
  : list Pur045.raw :=
  filter (λ r, Exists (λ p, Pur041.PDNO p = Pur045.PDNO r
                            ∧ Pur041.PONO p = Pur045.PONO r
                            ∧ Pur041.ORNO p = Pur045.ORNO r) ps) p045.

Definition spec_A (mfg_orders : list Mfg.row) (part : string) : Z :=
  Py.Zsum (Mfg.注残 <$> lines_of mfg_orders part).

Definition spec_B (p041 : list Pur041.raw) (mfg_orders : list Mfg.row)
    (part : string) : Z :=
  Py.Zsum ((λ p, default 0 (Pur041.OQUA p))
           <$> matched_purchases (lines_of mfg_orders part) p041).

Definition spec_C (p041 : list Pur041.raw) (p045 : list Pur045.raw)
    (mfg_orders : list Mfg.row) (part : string) : Z :=
  Py.Zsum ((λ r, default 0 (Pur045.DQUA r))
           <$> matched_receipts
                 (matched_purchases (lines_of mfg_orders part) p041) p045).

Definition spec_startable (p041 : list Pur041.raw) (p045 : list Pur045.raw)
    (mfg_orders : list Mfg.row) (part : string) : Z :=
  Z.max 0 (spec_A mfg_orders part
           - (spec_B p041 mfg_orders part - spec_C p041 p045 mfg_orders part)).

End Reconciler.

(** ** BOM explosion: part 3 of [run] in [child_requirements.py] *)

(** Rows of [df_sched], of the cleaned [df_bom], and of [exploded]. *)
Module Sched.
Record row := { ProdDate : Z; Item : string; Qty : Z }.
End Sched.

Module Bom.
Record row := { Item : string; sItem : string; bomValue : Z }.
End Bom.

Module Need.
Record row := { ProdDate : Z; sItem : string; needQty : Z }.
End Need.

Module Explosion.
Import Frame.

Definition HORIZON_DAYS : Z := 60.

(** [bom_cache]: for every parent, its rows [(sItem, bomValue)]. *)
Definition make_bom_cache (df_bom : list Bom.row)
  : gmap string (list (string * Z)) :=
  foldl (λ cache (g : string * list Bom.row),
           <[g.1 := (λ b, (Bom.sItem b, Bom.bomValue b)) <$> g.2]> cache)
        ∅ (groupby Bom.Item df_bom).

(** The body of the loop over [df_sched]: [None] is [continue]. *)
Definition explode_row (bom_cache : gmap string (list (string * Z)))
    (row : Sched.row) : option (list Need.row) :=
  match bom_cache !! Sched.Item row with
  | None => None
  | Some bom_rows =>
    Some ((λ b : string * Z,
             {| Need.ProdDate := Sched.ProdDate row;
                Need.sItem := b.1;
                Need.needQty := b.2 * Sched.Qty row |}) <$> bom_rows)
  end.

Definition make_records (df_sched : list Sched.row) (df_bom : list Bom.row)
  : list (list Need.row) :=
  omap (explode_row (make_bom_cache df_bom)) df_sched.

(** [exploded.groupby(["sItem","ProdDate"])["needQty"].sum()]. *)
Definition group_needs (exploded : list Need.row)
  : list ((string * Z) * Z) :=
  (λ g : (string * Z) * list Need.row, (g.1, Py.Zsum (Need.needQty <$> g.2)))
  <$> groupby (λ r, (Need.sItem r, Need.ProdDate r)) exploded.

(** A frame in wide layout: the date labels of the value columns, and one
    row of values per index entry. A column label [strftime("%Y-%m-%d")] is
    modelled by the date it renders. *)
Record wide := {
  columns : list Z;
  rows : list (string * list Z)
}.

Definition str_le : relation string := λ a b, String.leb a b = true.

#[export] Instance str_le_dec : RelDecision str_le.
Proof. intros a b. unfold str_le. apply _. Defined.

(** [pivot_table(index="sItem", columns="ProdDate", values="needQty",
    aggfunc="sum", fill_value=0)]: index and columns ascending. *)
Definition pivot_table (grouped : list ((string * Z) * Z)) : wide :=
  let index := merge_sort str_le (unique ((λ g, g.1.1) <$> grouped)) in
  let cols := merge_sort Z.le (unique ((λ g, g.1.2) <$> grouped)) in
  {| columns := cols;
     rows := (λ c, (c, (λ d, Py.Zsum (snd <$> filter (λ g, g.1 = (c, d))
                                                    grouped)) <$> cols))
             <$> index |}.

(** [reindex(columns=new_cols, fill_value=0)]. *)
Definition reindex (w : wide) (new_cols : list Z) : wide :=
  {| columns := new_cols;
     rows := (λ r : string * list Z,
                (r.1, (λ d, match list_find (λ d', d' = d) (columns w) with
                            | Some (i, _) => r.2 !!! i
                            | None => 0
                            end) <$> new_cols))
             <$> rows w |}.

(** [[TODAY + timedelta(days=i) for i in range(HORIZON_DAYS + 1)]]. *)
Definition all_days (TODAY : Z) : list Z :=
  (λ i, TODAY + Z.of_nat i) <$> seq 0 (Z.to_nat (HORIZON_DAYS + 1)).

(** Part 3 of [run]: the frame written to [child_requirements.csv], without
    its index column header. *)
Definition run (TODAY : Z) (df_sched : list Sched.row)
    (df_bom : list Bom.row) : wide :=
  let records := make_records df_sched df_bom in
  if records is [] then {| columns := []; rows := [] |}
  else
    let exploded := concat records in
    let grouped := group_needs exploded in
    reindex (pivot_table grouped) (all_days TODAY).

(** The rows the loop body appends for one plan entry, read off the BOM
    itself rather than off [bom_cache]. *)
Definition needs_of (df_bom : list Bom.row) (p : Sched.row) : list Need.row :=
  (λ b, {| Need.ProdDate := Sched.ProdDate p;
           Need.sItem := Bom.sItem b;
           Need.needQty := Bom.bomValue b * Sched.Qty p |})
  <$> filter (λ b, Bom.Item b = Sched.Item p) df_bom.

(** The spec's words for the demand of a child on a date. *)
Definition demand_spec (plan : list Sched.row) (bom : list Bom.row)
    (child : string) (date : Z) : Z :=
  Py.Zsum (p ← filter (λ p, Sched.ProdDate p = date) plan;
           b ← filter (λ b, Bom.Item b = Sched.Item p ∧ Bom.sItem b = child)
                      bom;
           [Bom.bomValue b * Sched.Qty p]).

(** The quantity the output holds for a child on a date. *)
Definition output_qty (w : wide) (child : string) (date : Z) : option Z :=
  r ← list_find (λ r : string * list Z, r.1 = child) (rows w);
  i ← list_find (λ d, d = date) (columns w);
  r.2.2 !! i.1.

End Explosion.

(** ** Report assembly: step 7 of [main] *)

Module Report.
Import Shortage.

(** The body of the loop over the rows of [out]: the columns 欠品日, 納品期日
    and 不足数 of one row; [None] is an exception that leaves the loop. *)
Definition report_row (workdays : list Z) (today : Z) (r : base_row)
    (req_row : gmap string Z) (date_colnames : list string)
    (date_cols : list Z) : option (option Z * option Z * Z) :=
  let res := shortage_of_row r req_row date_colnames date_cols in
  match res.1 with
  | None => Some (None, None, res.2)
  | Some sdate =>
    due ← Calendar.delivery_date_from_shortage workdays sdate 5;
    Some (Some sdate, Some (if decide (due < today) then today else due),
          res.2)
  end.

(** [out = out[out["不足数"] < 0]]: the rows the report keeps. *)
Definition kept (row : option Z * option Z * Z) : bool :=
  bool_decide (row.2 < 0).

End Report.

(** ** Month utilities of [child_requirements.py] *)

(** [datetime.date] as CPython implements it: the proleptic Gregorian
    calendar for the years 1 to 9999, a date being its ordinal (1 is
    0001-01-01). Here an exception keeps its class, because
    [ym_day_to_date_safe] catches [ValueError] only. *)
Module Datetime.

Inductive error := ValueError | OverflowError.

Definition is_leap (year : Z) : bool :=
  (year mod 4 =? 0) && (negb (year mod 100 =? 0) || (year mod 400 =? 0)).

Definition DAYS_IN_MONTH (month : Z) : Z :=
  match month with
  | 1 => 31 | 2 => 28 | 3 => 31 | 4 => 30 | 5 => 31 | 6 => 30
  | 7 => 31 | 8 => 31 | 9 => 30 | 10 => 31 | 11 => 30 | 12 => 31
  | _ => -1
  end.

Definition DAYS_BEFORE_MONTH (month : Z) : Z :=
  match month with
  | 1 => 0 | 2 => 31 | 3 => 59 | 4 => 90 | 5 => 120 | 6 => 151
  | 7 => 181 | 8 => 212 | 9 => 243 | 10 => 273 | 11 => 304 | 12 => 334
  | _ => -1
  end.

Definition days_in_month (year month : Z) : Z :=
  if (month =? 2) && is_leap year then 29 else DAYS_IN_MONTH month.

Definition days_before_year (year : Z) : Z :=
  let y := year - 1 in y * 365 + y / 4 - y / 100 + y / 400.

Definition days_before_month (year month : Z) : Z :=
  DAYS_BEFORE_MONTH month + (if (2 <? month) && is_leap year then 1 else 0).

(** [date(year, month, day).toordinal()]. *)
Definition ymd2ord (year month day : Z) : Z :=
  days_before_year year + days_before_month year month + day.

Definition DI400Y : Z := 146097.
Definition DI100Y : Z := 36524.
Definition DI4Y : Z := 1461.

(** Year, month and day of an ordinal. *)
Definition ord2ymd (n : Z) : Z * Z * Z :=
  let n := n - 1 in
  let n400 := n / DI400Y in let n := n mod DI400Y in
  let year := n400 * 400 + 1 in
  let n100 := n / DI100Y in let n := n mod DI100Y in
  let n4 := n / DI4Y in let n := n mod DI4Y in
  let n1 := n / 365 in let n := n mod 365 in
  let year := year + n100 * 100 + n4 * 4 + n1 in
  if (n1 =? 4) || (n100 =? 4) then (year - 1, 12, 31)
  else
    let leapyear := (n1 =? 3) && (negb (n4 =? 24) || (n100 =? 3)) in
    let month := Z.shiftr (n + 50) 5 in
    let preceding := DAYS_BEFORE_MONTH month
                     + (if (2 <? month) && leapyear then 1 else 0) in
    if n <? preceding then
      let month := month - 1 in
      let preceding := preceding - (DAYS_IN_MONTH month
                       + (if (month =? 2) && leapyear then 1 else 0)) in
      (year, month, n - preceding + 1)
    else (year, month, n - preceding + 1).

Definition MAXORDINAL : Z := 3652059.

(** The arguments of [date(...)] are read as C [int]s. *)
Definition C_int (z : Z) : bool := (- 2 ^ 31 <=? z) && (z <=? 2 ^ 31 - 1).

(** [datetime.date(year, month, day)]. *)
Definition date (year month day : Z) : error + Z :=
  if negb (C_int year && C_int month && C_int day) then inl OverflowError
  else if (1 <=? year) && (year <=? 9999) && (1 <=? month) && (month <=? 12)
          && (1 <=? day) && (day <=? days_in_month year month)
  then inr (ymd2ord year month day)
  else inl ValueError.

(** [d - datetime.timedelta(days=n)]. *)
Definition sub_days (d n : Z) : error + Z :=
  if (1 <=? d - n) && (d - n <=? MAXORDINAL) then inr (d - n)
  else inl OverflowError.

(** [d.day]. *)
Definition day (d : Z) : Z := (ord2ymd d).2.

Definition ebind {A B} (x : error + A) (f : A → error + B) : error + B :=
  match x with inl e => inl e | inr a => f a end.

End Datetime.

Notation "'let!' x ':=' e 'in' k" := (Datetime.ebind e (λ x, k))
  (at level 10, x pattern, e at level 200, k at level 200, only parsing).

Module MonthUtil.
Import Datetime.

(** [s.split(sep)] for a one-character separator. *)
Fixpoint split_on (sep : ascii) (s : string) : list string :=
  match s with
  | EmptyString => [EmptyString]
  | String c s' =>
    if Ascii.eqb c sep then EmptyString :: split_on sep s'
    else match split_on sep s' with
         | h :: t => String c h :: t
         | [] => [String c EmptyString]
         end
  end.

(** [s.replace(old, new)] for a non-empty [old]: [skip] counts the
    characters of a match still to be dropped. *)
Fixpoint replace_from (old new : string) (skip : nat) (s : string) : string :=
  match s with
  | EmptyString => EmptyString
  | String c s' =>
    match skip with
    | S k => replace_from old new k s'
    | O =>
      if String.prefix old s
      then (new ++ replace_from old new (String.length old - 1) s')%string
      else String c (replace_from old new 0 s')
    end
  end.

Definition replace (old new s : string) : string := replace_from old new 0 s.

(** [int(s)] on a plain decimal numeral (blanks, a sign, ASCII digits), to
    run the functions below on examples. *)
Definition int_decimal (s : string) : option Z :=
  let s0 := Canon.skip_spaces (list_ascii_of_string s) in
  let '(neg, s1) := Canon.read_sign s0 in
  let '(v, n, s2) := Canon.read_digits s1 0 0 in
  if decide (n = 0%nat) then None
  else if forallb Canon.is_space s2
       then Some (if neg : bool then - v else v)
       else None.

Section Utilities.

(** The builtin [int] on a string; [None] is its [ValueError]. *)
Variable int : string → option Z.

Definition get_month_last_day (year month : Z) : error + Z :=
  let! next_month_first :=
    if month =? 12 then date (year + 1) 1 1 else date year (month + 1) 1 in
  let! last_day := sub_days next_month_first 1 in
  inr (day last_day).

(** The statements both [ym_day_to_date_safe] and [month_range] start
    with: [y, m = ym.split("/")], then [int(y)] and [int(m)]; [None] is an
    exception raised by one of them. *)
Definition split_ym (ym : string) : option (Z * Z) :=
  match split_on "/" ym with
  | [year_str; month_str] =>
    year ← int year_str; month ← int month_str; Some (year, month)
  | _ => None
  end.

(** The result is an exception, [None] or a date. *)
Definition ym_day_to_date_safe (ym daycol : string) : error + option Z :=
  match split_ym ym with
  | None => inr None
  | Some (year, month) =>
    match int (replace "計" "" daycol) with
    | None => inr None
    | Some day =>
      let! last_day_num := get_month_last_day year month in
      if last_day_num <? day then inr None
      else match date year month day with
           | inr d => inr (Some d)
           | inl ValueError => inr None
           | inl e => inl e
           end
    end
  end.

Definition month_range (ym_str : string) : error + (Z * Z) :=
  match split_ym ym_str with
  | None => inl ValueError
  | Some (y, m) =>
    let! first_day := date y m 1 in
    let! next_month_first :=
      if m =? 12 then date (y + 1) 1 1 else date y (m + 1) 1 in
    let! last_day := sub_days next_month_first 1 in
    inr (first_day, last_day)
  end.

Definition month_overlaps_target (ym_str : string)
    (target_start target_end : Z) : bool :=
  match month_range ym_str with
  | inl _ => false
  | inr (m_start, m_end) =>
    negb ((m_end <? target_start) || (target_end <? m_start))
  end.

End Utilities.

(** A month of the calendar other than December 9999, the one month whose
    successor [date] cannot build. *)
Definition month_ok (y m : Z) : Prop :=
  1 <= y <= 9999 ∧ 1 <= m <= 12 ∧ ¬ (y = 9999 ∧ m = 12).

End MonthUtil.

(** ** Date columns of the demand file: [load_child_requirements] *)

Module Requirements.

Section DateColumns.

(** [parse_date_col]: the date [pd.to_datetime] reads from a column name,
    [None] when it reads none. *)
Variable parse_date_col : string → option Z.

Definition cand_cols : list string :=
  ["sItem"; "MITM"; "品番"; "Item"; "item"; "child"; "子品番"].

(** [next((c for c in cand_cols if c in df.columns), df.columns[0])];
    [None] is the [IndexError] of a frame without columns. *)
Definition item_col (columns : list string) : option string :=
  match list_find (λ c, c ∈ columns) cand_cols with
  | Some (_, c) => Some c
  | None => head columns
  end.

(** [df.columns] after [df["MITM_N"] = ...]. *)
Definition with_MITM_N (columns : list string) : list string :=
  if decide ("MITM_N" ∈ columns) then columns else columns ++ ["MITM_N"].

(** The loop that fills [date_pairs]. *)
Definition date_pairs (columns : list string) (item_col : string)
  : list (Z * string) :=
  omap (λ c, if decide (c = item_col ∨ c = "MITM_N") then None
             else d ← parse_date_col c; Some (d, c)) columns.

(** [date_pairs.sort(key=lambda x: x[0])]: Python's sort is stable, and a
    stable sort has one result; insertion in front of the first pair that
    is not earlier computes it. *)
Fixpoint insert_by_date (x : Z * string) (l : list (Z * string))
  : list (Z * string) :=
  match l with
  | [] => [x]
  | y :: r => if decide (x.1 <= y.1) then x :: l else y :: insert_by_date x r
  end.

Definition sort_by_date (l : list (Z * string)) : list (Z * string) :=
  foldr insert_by_date [] l.

(** The results [date_cols] and [date_colnames] of
    [load_child_requirements], from the column names of the file; [None] is
    an exception ([IndexError], or the [RuntimeError] of a file without a
    date column). The frame [req] is not part of this model. *)
Definition load_child_requirements_dates (columns : list string)
  : option (list Z * list string) :=
  item_col ← item_col columns;
  let date_pairs := date_pairs (with_MITM_N columns) item_col in
  if date_pairs is [] then None
  else
    let date_pairs := sort_by_date date_pairs in
    Some (fst <$> date_pairs, snd <$> date_pairs).

End DateColumns.

(** [parse_date_col] on the ISO column names that [child_requirements.py]
    writes ([strftime("%Y-%m-%d")]), to run the function on examples. *)
Definition parse_iso_date (col : string) : option Z :=
  match MonthUtil.split_on "-" col with
  | [y; m; d] =>
    y ← MonthUtil.int_decimal y;
    m ← MonthUtil.int_decimal m;
    d ← MonthUtil.int_decimal d;
    match Datetime.date y m d with
    | inr o => Some o
    | inl _ => None
    end
  | _ => None
  end.

End Requirements.

(** * Properties *)

(** ** Python indexing *)

Module PyFacts.
Import Py.

Lemma getitem_nonneg {A} (l : list A) (i : nat) :
  getitem l (Z.of_nat i) = l !! i.
Proof.
  unfold getitem. case_decide as H.
  - by rewrite Nat2Z.id.
  - case_decide; [lia|]. symmetry. apply lookup_ge_None. lia.
Qed.

Lemma getitem_nil {A} (i : Z) : getitem (@nil A) i = None.
Proof. unfold getitem. simpl. repeat case_decide; auto; lia. Qed.

Lemma getitem_last {A} (l : list A) : getitem l (-1) = last l.
Proof.
  unfold getitem. rewrite last_lookup.
  destruct l as [|x l]; [done|].
  simpl length. case_decide; [lia|]. case_decide; [|lia].
  f_equal. lia.
Qed.

Lemma Zsum_app (l k : list Z) : Zsum (l ++ k) = Zsum l + Zsum k.
Proof. unfold Zsum. induction l as [|x l IH]; simpl; lia. Qed.

Lemma Zsum_cons (x : Z) (l : list Z) : Zsum (x :: l) = x + Zsum l.
Proof. reflexivity. Qed.

End PyFacts.

(** ** Calendar service *)

Module CalendarProofs.
Import Py PyFacts Calendar.

Lemma sorted_lookup_le (a : list Z) (i j : nat) (u v : Z) :
  StronglySorted Z.le a → (i <= j)%nat →
  a !! i = Some u → a !! j = Some v → u <= v.
Proof.
  intros Hs. revert i j u v.
  induction Hs as [|x a Hs' IH Hall]; intros i j u v Hij Hi Hj.
  - by rewrite lookup_nil in Hi.
  - destruct i as [|i], j as [|j]; simpl in Hi, Hj; try lia.
    + assert (u = v) by congruence. lia.
    + injection Hi as <-. rewrite Forall_forall in Hall.
      apply Hall. eapply list_elem_of_lookup_2; eauto.
    + eapply (IH i j); [lia|eauto..].
Qed.

(** The midpoint lies inside a non-empty interval, hence inside the list. *)
Ltac midpoint_facts a lo hi Hmid Hm :=
  assert (Hmid : (lo <= (lo + hi) / 2 < hi)%nat)
    by (pose proof (Nat.div_mod_eq (lo + hi) 2);
        pose proof (Nat.mod_upper_bound (lo + hi) 2 ltac:(lia)); lia);
  assert (Hm : a !! ((lo + hi) / 2)%nat = Some (a !!! ((lo + hi) / 2)%nat))
    by (apply list_lookup_lookup_total_lt; lia).

(** The halving loop keeps "everything left of [lo] is below [x], everything
    from [hi] on is at least [x]" and ends where the two meet. *)
Lemma bisect_loop_bounds (a : list Z) (x : Z) (lo hi : nat) :
  StronglySorted Z.le a → (lo <= hi <= length a)%nat →
  (∀ j v, (j < lo)%nat → a !! j = Some v → v < x) →
  (∀ j v, (hi <= j)%nat → a !! j = Some v → x <= v) →
  (lo <= bisect_loop a x lo hi <= hi)%nat ∧
  (∀ j v, (j < bisect_loop a x lo hi)%nat → a !! j = Some v → v < x) ∧
  (∀ j v, (bisect_loop a x lo hi <= j)%nat → a !! j = Some v → x <= v).
Proof.
  intros Hs. funelim (bisect_loop a x lo hi); intros Hb Hlo Hhi.
  - assert (lo = hi) as -> by lia. split; [lia|split; assumption].
  - midpoint_facts a lo hi Hmid Hm.
    match goal with
    | IH : StronglySorted _ _ → _ |- _ =>
      destruct IH as (? & ? & ?); [done|lia| |done|]
    end.
    + intros j v Hj Hv.
      assert (j <= (lo + hi) / 2)%nat as Hle by lia.
      pose proof (sorted_lookup_le a _ _ _ _ Hs Hle Hv Hm). lia.
    + split; [lia|split; assumption].
  - midpoint_facts a lo hi Hmid Hm.
    match goal with
    | IH : StronglySorted _ _ → _ |- _ =>
      destruct IH as (? & ? & ?); [done|lia|done| |]
    end.
    + intros j v Hj Hv.
      assert ((lo + hi) / 2 <= j)%nat as Hle by lia.
      pose proof (sorted_lookup_le a _ _ _ _ Hs Hle Hm Hv). lia.
    + split; [lia|split; assumption].
Qed.

Lemma bisect_left_spec (a : list Z) (x : Z) :
  StronglySorted Z.le a →
  (bisect_left a x <= length a)%nat ∧
  (∀ j v, (j < bisect_left a x)%nat → a !! j = Some v → v < x) ∧
  (∀ j v, (bisect_left a x <= j)%nat → a !! j = Some v → x <= v).
Proof.
  intros Hs. unfold bisect_left.
  destruct (bisect_loop_bounds a x 0 (length a) Hs) as (? & ? & ?).
  - lia.
  - intros; lia.
  - intros j v Hj Hv. apply lookup_lt_Some in Hv. lia.
  - split; [lia|split; assumption].
Qed.

Lemma nearest_workday_nonempty (ws : list Z) (d : Z) :
  ws ≠ [] →
  nearest_workday ws d =
    first ← getitem ws 0;
    if decide (d <= first) then Some first
    else
      lst ← getitem ws (-1);
      if decide (d >= lst) then Some lst
      else
        let i := Z.of_nat (bisect_left ws d) in
        before ← getitem ws (i - 1);
        after ← getitem ws i;
        if decide (d - before <= after - d) then Some before else Some after.
Proof. by destruct ws. Qed.

Lemma nearest_workday_correct (ws : list Z) (d : Z) :
  StronglySorted Z.le ws → ws ≠ [] →
  ∃ w, nearest_workday ws d = Some w ∧ nearest_spec ws d w ∧ w ∈ ws.
Proof.
  intros Hs Hne. rewrite nearest_workday_nonempty by done.
  destruct (head ws) as [f|] eqn:Hhead; [|by apply head_None in Hhead].
  destruct (last ws) as [l|] eqn:Hlast; [|by apply last_None in Hlast].
  change (getitem ws 0) with (getitem ws (Z.of_nat 0)).
  rewrite getitem_nonneg, <- head_lookup, Hhead. simpl.
  case_decide as Hf.
  { exists f. split_and!; [done|by constructor|].
    rewrite head_lookup in Hhead. by eapply list_elem_of_lookup_2. }
  rewrite getitem_last, Hlast. simpl.
  pose proof Hlast as Hl. rewrite last_lookup in Hl.
  case_decide as Hd.
  { exists l. split_and!; [done| |by eapply list_elem_of_lookup_2].
    apply nearest_last; [done|lia]. }
  destruct (bisect_left_spec ws d Hs) as (Hlen & Hlt & Hge).
  set (i := bisect_left ws d) in *.
  assert (0 < i)%nat as Hi0.
  { destruct i; [|lia]. specialize (Hge 0%nat f ltac:(lia)).
    rewrite <- head_lookup in Hge. specialize (Hge Hhead). lia. }
  assert (i < length ws)%nat as Hi1.
  { destruct (decide (i < length ws)%nat); [done|].
    specialize (Hlt (pred (length ws)) l). 
    assert (0 < length ws)%nat by (destruct ws; [done|simpl; lia]).
    specialize (Hlt ltac:(lia) Hl). lia. }
  replace (Z.of_nat i - 1) with (Z.of_nat (i - 1)) by lia.
  rewrite !getitem_nonneg.
  destruct (lookup_lt_is_Some_2 ws (i - 1)) as [b Hb]; [lia|].
  destruct (lookup_lt_is_Some_2 ws i) as [a Ha]; [lia|].
  rewrite Hb, Ha. simpl.
  assert (is_before ws d b) as Hbefore.
  { split_and!.
    - by eapply list_elem_of_lookup_2.
    - apply (Hlt (i - 1)%nat); [lia|done].
    - intros w [j Hj]%list_elem_of_lookup_1 Hw.
      destruct (decide (i <= j)%nat) as [Hij|Hij].
      + specialize (Hge j w Hij Hj). lia.
      + assert (j <= i - 1)%nat as Hle by lia.
        apply (sorted_lookup_le ws _ _ _ _ Hs Hle Hj Hb). }
  assert (is_after ws d a) as Hafter.
  { split_and!.
    - by eapply list_elem_of_lookup_2.
    - apply (Hge i); [lia|done].
    - intros w [j Hj]%list_elem_of_lookup_1 Hw.
      destruct (decide (i <= j)%nat) as [Hij|Hij].
      + apply (sorted_lookup_le ws _ _ _ _ Hs Hij Ha Hj).
      + specialize (Hlt j w ltac:(lia) Hj). lia. }
  case_decide as Hcmp.
  - exists b. split_and!; [done| |by eapply list_elem_of_lookup_2].
    eapply nearest_before; eauto; lia.
  - exists a. split_and!; [done| |by eapply list_elem_of_lookup_2].
    eapply nearest_after; eauto; lia.
Qed.

(** On a sorted calendar the left-most insertion point of a workday is the
    first position that holds it. *)
Lemma searchsorted_index (ws : list Z) (w : Z) :
  StronglySorted Z.le ws → w ∈ ws → index_of ws w (searchsorted_left ws w).
Proof.
  intros Hs [k Hk]%list_elem_of_lookup_1.
  destruct (bisect_left_spec ws w Hs) as (Hlen & Hlt & Hge).
  change (bisect_left ws w) with (searchsorted_left ws w) in *.
  set (i := searchsorted_left ws w) in *.
  assert (i <= k)%nat as Hik.
  { destruct (decide (i <= k)%nat); [done|].
    specialize (Hlt k w ltac:(lia) Hk). lia. }
  pose proof (lookup_lt_Some _ _ _ Hk) as Hklen.
  destruct (lookup_lt_is_Some_2 ws i) as [u Hu]; [lia|].
  pose proof (Hge i u ltac:(lia) Hu).
  pose proof (sorted_lookup_le ws _ _ _ _ Hs Hik Hu Hk).
  assert (u = w) as -> by lia.
  split; [done|].
  intros j Hj. destruct (decide (i <= j)%nat); [done|].
  specialize (Hlt j w ltac:(lia) Hj). lia.
Qed.

Lemma index_of_functional (ws : list Z) (w : Z) (i j : nat) :
  index_of ws w i → index_of ws w j → i = j.
Proof.
  intros [Hi Hi'] [Hj Hj']. specialize (Hi' j Hj). specialize (Hj' i Hi). lia.
Qed.

Lemma is_before_functional (ws : list Z) (d b b' : Z) :
  is_before ws d b → is_before ws d b' → b = b'.
Proof.
  intros (H1 & H2 & H3) (H1' & H2' & H3').
  specialize (H3 b' H1' H2'). specialize (H3' b H1 H2). lia.
Qed.

Lemma is_after_functional (ws : list Z) (d a a' : Z) :
  is_after ws d a → is_after ws d a' → a = a'.
Proof.
  intros (H1 & H2 & H3) (H1' & H2' & H3').
  specialize (H3 a' H1' H2'). specialize (H3' a H1 H2). lia.
Qed.

Lemma sorted_head_le_last (ws : list Z) (f l : Z) :
  StronglySorted Z.le ws → head ws = Some f → last ws = Some l → f <= l.
Proof.
  intros Hs Hf Hl. rewrite head_lookup in Hf. rewrite last_lookup in Hl.
  eapply (sorted_lookup_le ws 0 (pred (length ws))); eauto. lia.
Qed.

(** The spec's description singles out one workday. *)
Lemma nearest_spec_functional (ws : list Z) (d w w' : Z) :
  StronglySorted Z.le ws → nearest_spec ws d w → nearest_spec ws d w' → w = w'.
Proof.
  intros Hs H1 H2.
  destruct H1 as [f Hf Hd|l Hl Hd|f l b a Hf Hl Hd Hb Ha Hc|f l b a Hf Hl Hd Hb Ha Hc];
  destruct H2 as [f' Hf' Hd'|l' Hl' Hd'|f' l' b' a' Hf' Hl' Hd' Hb' Ha' Hc'
                 |f' l' b' a' Hf' Hl' Hd' Hb' Ha' Hc'];
  repeat match goal with
  | H1 : head ws = Some ?x, H2 : head ws = Some ?y |- _ =>
    assert (x = y) by congruence; subst y; clear H2
  | H1 : last ws = Some ?x, H2 : last ws = Some ?y |- _ =>
    assert (x = y) by congruence; subst y; clear H2
  | H1 : is_before ws d ?x, H2 : is_before ws d ?y |- _ =>
    pose proof (is_before_functional ws d x y H1 H2); subst y; clear H2
  | H1 : is_after ws d ?x, H2 : is_after ws d ?y |- _ =>
    pose proof (is_after_functional ws d x y H1 H2); subst y; clear H2
  | H1 : head ws = Some ?x, H2 : last ws = Some ?y |- _ =>
    pose proof (sorted_head_le_last ws x y Hs H1 H2); revert H1 H2
  end; intros; try lia; try reflexivity.
Qed.

(** The workday the spec describes is a closest one in day distance, and
    the earliest of the closest. *)
Lemma nearest_spec_closest (ws : list Z) (d w : Z) :
  StronglySorted Z.le ws → nearest_spec ws d w →
  ∀ w', w' ∈ ws →
        Z.abs (w - d) <= Z.abs (w' - d) ∧
        (Z.abs (w - d) = Z.abs (w' - d) → w <= w').
Proof.
  intros Hs Hw w' [j Hj]%list_elem_of_lookup_1.
  assert (Hmin : ∀ f, head ws = Some f → f <= w').
  { intros f Hf. rewrite head_lookup in Hf.
    apply (sorted_lookup_le ws 0 j f w' Hs); [lia|done..]. }
  assert (Hmax : ∀ l, last ws = Some l → w' <= l).
  { intros l Hl. rewrite last_lookup in Hl.
    pose proof (lookup_lt_Some _ _ _ Hj).
    apply (sorted_lookup_le ws j (pred (length ws)) w' l Hs); [lia|done..]. }
  assert (Hin : w' ∈ ws) by (by eapply list_elem_of_lookup_2).
  destruct Hw as [f Hf Hd|l Hl Hd|f l b a Hf Hl Hd (_ & Hb & Hb') (_ & Ha & Ha') Hc
                 |f l b a Hf Hl Hd (_ & Hb & Hb') (_ & Ha & Ha') Hc].
  - specialize (Hmin f Hf). lia.
  - specialize (Hmax l Hl). lia.
  - destruct (decide (w' < d)).
    + specialize (Hb' w' Hin ltac:(lia)). lia.
    + specialize (Ha' w' Hin ltac:(lia)). lia.
  - destruct (decide (w' < d)).
    + specialize (Hb' w' Hin ltac:(lia)). lia.
    + specialize (Ha' w' Hin ltac:(lia)). lia.
Qed.

(** C9: on a non-empty ascending calendar and for [n >= 0],
    [delivery_date_from_shortage] (the spec's [backOffset]) returns the
    workday at index [max 0 (i - n)], where [i] is the index of the nearest
    workday of the date: the first workday when the date is at or before it,
    the last when it is at or after it, otherwise the closer of the two
    adjacent workdays, the earlier one on a tie. That workday is the only one
    fitting the description. *)
Theorem back_offset_nearest_index (ws : list Z) (d n : Z) :
  StronglySorted Z.le ws → ws ≠ [] → 0 <= n →
  ∃ r, delivery_date_from_shortage ws d n = Some r ∧
       back_offset_spec ws d n r ∧
       ∀ r', back_offset_spec ws d n r' → r' = r.
Proof.
  intros Hs Hne Hn.
  destruct (nearest_workday_correct ws d Hs Hne) as (w & Hw & Hspec & Hin).
  pose proof (searchsorted_index ws w Hs Hin) as Hidx.
  unfold delivery_date_from_shortage. rewrite Hw. simpl.
  set (i := searchsorted_left ws w) in *.
  pose proof (lookup_lt_Some _ _ _ (proj1 Hidx)) as Hilen.
  set (k := Z.max 0 (Z.of_nat i - n)).
  assert (0 <= k <= Z.of_nat i) as Hk by lia.
  assert (getitem ws k = ws !! Z.to_nat k) as ->
    by (rewrite <- getitem_nonneg; f_equal; lia).
  destruct (lookup_lt_is_Some_2 ws (Z.to_nat k)) as [r Hr]; [lia|].
  exists r. split_and!; [done| |].
  - exists w, i. done.
  - intros r' (w' & i' & Hspec' & Hidx' & Hr').
    pose proof (nearest_spec_functional ws d w w' Hs Hspec Hspec') as <-.
    pose proof (index_of_functional ws w i i' Hidx Hidx') as <-.
    fold k in Hr'. congruence.
Qed.

Lemma back_offset_nearest_index_witness :
  ∃ r, delivery_date_from_shortage [1; 2; 3; 6; 7; 8] 5 2 = Some r ∧
       back_offset_spec [1; 2; 3; 6; 7; 8] 5 2 r ∧
       ∀ r', back_offset_spec [1; 2; 3; 6; 7; 8] 5 2 r' → r' = r.
Proof.
  apply (back_offset_nearest_index [1; 2; 3; 6; 7; 8] 5 2).
  - repeat (constructor; [|repeat constructor; lia]). constructor.
  - discriminate.
  - lia.
Defined.

(** C5 (the code departs from it): with an empty calendar
    [nearest_workday] hands the date back, but
    [delivery_date_from_shortage] then indexes the empty list and raises
    [IndexError], for every date and every offset. *)
Theorem back_offset_empty_calendar_raises (d n : Z) :
  nearest_workday [] d = Some d ∧ delivery_date_from_shortage [] d n = None.
Proof.
  split; [reflexivity|].
  unfold delivery_date_from_shortage. simpl. apply getitem_nil.
Qed.

Example nearest_workday_tie : nearest_workday [10; 14; 20] 12 = Some 10.
Proof. reflexivity. Qed.

Example nearest_workday_later : nearest_workday [10; 14; 20] 13 = Some 14.
Proof. reflexivity. Qed.

Example delivery_date_clamped :
  delivery_date_from_shortage [1; 2; 3; 6; 7; 8] 3 5 = Some 1.
Proof. reflexivity. Qed.

End CalendarProofs.

(** ** Shortage detector *)

Module ShortageProofs.
Import Py PyFacts Shortage.

Lemma cum_through_cons (x : Z * Z) (dem : list (Z * Z)) (k : nat) :
  cum_through (x :: dem) (S k) = x.2 + cum_through dem k.
Proof. reflexivity. Qed.

Lemma cum_through_0 (x : Z * Z) (dem : list (Z * Z)) :
  cum_through (x :: dem) 0 = x.2.
Proof. unfold cum_through. simpl. unfold Zsum. simpl. lia. Qed.

Lemma dem_of_cons req_row d c l :
  dem_of req_row ((d, c) :: l) = (d, default 0 (req_row !! c)) :: dem_of req_row l.
Proof. reflexivity. Qed.

Lemma shortage_step_none req_row inv cum d c :
  shortage_step req_row inv (cum, None) (d, c) =
  (cum + default 0 (req_row !! c),
   if decide (inv - (cum + default 0 (req_row !! c)) <= 0) then Some d else None).
Proof. reflexivity. Qed.

Lemma shortage_step_some req_row inv cum d0 d c :
  shortage_step req_row inv (cum, Some d0) (d, c) =
  (cum + default 0 (req_row !! c), Some d0).
Proof. reflexivity. Qed.

(** The running total does not depend on the recorded date. *)
Lemma shortage_fold_cum req_row inv (l : list (Z * string)) st :
  (foldl (shortage_step req_row inv) st l).1
  = st.1 + Zsum (snd <$> dem_of req_row l).
Proof.
  revert st. induction l as [|[d c] l IH]; intros [cum o].
  - cbn. lia.
  - cbn [foldl]. rewrite IH, dem_of_cons, fmap_cons, Zsum_cons.
    destruct o; cbn; lia.
Qed.

(** Once a shortage date is recorded the loop never changes it. *)
Lemma shortage_fold_recorded req_row inv (l : list (Z * string)) cum d0 :
  (foldl (shortage_step req_row inv) (cum, Some d0) l).2 = Some d0.
Proof.
  revert cum. induction l as [|[d c] l IH]; intros cum; [done|].
  cbn [foldl]. rewrite shortage_step_some. apply IH.
Qed.

(** The loop of [compute_shortage], started at cumulative demand [cum] with
    no date recorded. *)
Lemma shortage_fold_date req_row inv (l : list (Z * string)) (cum : Z) :
  let st := foldl (shortage_step req_row inv) (cum, None) l in
  let dem := dem_of req_row l in
  (∀ d, st.2 = Some d ↔
        ∃ k, (k < length dem)%nat ∧
             inv - (cum + cum_through dem k) <= 0 ∧
             (∀ j, (j < k)%nat → 0 < inv - (cum + cum_through dem j)) ∧
             fst <$> dem !! k = Some d) ∧
  (st.2 = None ↔
   ∀ k, (k < length dem)%nat → 0 < inv - (cum + cum_through dem k)).
Proof.
  cbv zeta. revert cum. induction l as [|[d1 c1] l IH]; intros cum.
  - cbn. split.
    + intros d. split; [done|]. intros (k & Hk & _). lia.
    + split; [|done]. intros _ k Hk. lia.
  - cbn [foldl]. rewrite shortage_step_none, dem_of_cons.
    set (q1 := default 0 (req_row !! c1)). set (dem := dem_of req_row l).
    cbn [length].
    case_decide as Hc.
    + rewrite shortage_fold_recorded. split.
      * intros d. split.
        -- intros [= <-]. exists 0%nat. rewrite cum_through_0. cbn.
           split_and!; [lia|lia| |done]. intros j Hj. lia.
        -- intros (k & Hk & Hle & Hbefore & Hd). destruct k as [|k].
           ++ cbn in Hd. congruence.
           ++ specialize (Hbefore 0%nat ltac:(lia)).
              rewrite cum_through_0 in Hbefore. cbn in Hbefore. lia.
      * split; [done|]. intros Hall. specialize (Hall 0%nat ltac:(lia)).
        rewrite cum_through_0 in Hall. cbn in Hall. lia.
    + destruct (IH (cum + q1)) as (HS & HN). fold dem in HS, HN. split.
      * intros d. rewrite HS. split.
        -- intros (k & Hk & Hle & Hbefore & Hd). exists (S k).
           rewrite cum_through_cons. cbn [snd].
           split_and!; [lia|lia| |done].
           intros [|j] Hj.
           ++ rewrite cum_through_0. cbn. lia.
           ++ rewrite cum_through_cons. cbn [snd].
              specialize (Hbefore j ltac:(lia)). lia.
        -- intros (k & Hk & Hle & Hbefore & Hd). destruct k as [|k].
           ++ rewrite cum_through_0 in Hle. cbn in Hle. lia.
           ++ exists k. rewrite cum_through_cons in Hle. cbn [snd] in Hle.
              split_and!; [lia|lia| |done].
              intros j Hj. specialize (Hbefore (S j) ltac:(lia)).
              rewrite cum_through_cons in Hbefore. cbn [snd] in Hbefore. lia.
      * rewrite HN. split.
        -- intros Hall [|k] Hk.
           ++ rewrite cum_through_0. cbn. lia.
           ++ rewrite cum_through_cons. cbn [snd].
              specialize (Hall k ltac:(lia)). lia.
        -- intros Hall k Hk. specialize (Hall (S k) ltac:(lia)).
           rewrite cum_through_cons in Hall. cbn [snd] in Hall. lia.
Qed.

(** C3: the shortage date is the first day on which the available quantity
    minus the cumulative demand through that day is not positive (there is
    none exactly when every day leaves a positive remainder), later days do
    not overwrite it, and the shortage quantity is the available quantity
    minus the demand of the whole horizon; 100 against [40, 40, 40] gives
    day 3 and -20. *)
Theorem compute_shortage_first_shortfall
    (req_row : gmap string Z) (inv : Z)
    (date_colnames : list string) (date_cols : list Z) :
  let demand := daily_demand req_row date_colnames date_cols in
  let r := compute_shortage req_row inv date_colnames date_cols in
  (∀ d, r.1 = Some d ↔
        ∃ k, first_shortfall inv demand k ∧ fst <$> demand !! k = Some d) ∧
  (r.1 = None ↔
   ∀ k, (k < length demand)%nat → 0 < inv - cum_through demand k) ∧
  r.2 = inv - Zsum (snd <$> demand) ∧
  compute_shortage {[ "d1" := 40; "d2" := 40; "d3" := 40 ]} 100
                   ["d1"; "d2"; "d3"] [1; 2; 3] = (Some 3, -20).
Proof.
  cbv zeta. unfold compute_shortage, daily_demand. cbn [fst snd].
  set (l := zip date_cols date_colnames).
  destruct (shortage_fold_date req_row inv l 0) as (HS & HN).
  split_and!.
  - intros d. rewrite HS. unfold first_shortfall.
    split; intros (k & H); exists k.
    + destruct H as (? & ? & Hb & ?). split_and!; [done|lia| |done].
      intros j Hj. specialize (Hb j Hj). lia.
    + destruct H as ((? & ? & Hb) & ?). split_and!; [done|lia| |done].
      intros j Hj. specialize (Hb j Hj). lia.
  - rewrite HN. split; intros H k Hk; specialize (H k Hk); lia.
  - rewrite shortage_fold_cum. cbn [fst]. lia.
  - vm_compute. reflexivity.
Qed.

(** The reported quantity is the end-of-horizon remainder, not the remainder
    on the shortage day. *)
Example shortage_qty_end_of_horizon :
  compute_shortage {[ "d1" := 60; "d2" := 60; "d3" := 60 ]} 100
                   ["d1"; "d2"; "d3"] [1; 2; 3] = (Some 2, -80).
Proof. vm_compute. reflexivity. Qed.

(** C1 as stated fails: with 5 on hand, 3 on the shelf count and 2 in the
    external warehouse the detector nets against 5, not 10, and reports a
    shortage that the sum of the three would cover. *)
Lemma inv_total_is_not_the_sum :
  let r := make_base_row {[ "P" := 5 ]} {[ "P" := 3 ]} {[ "P" := 2 ]} "P" in
  inv_total r ≠ STOC r + 棚理論 r + 外部 r ∧
  shortage_of_row r {[ "d1" := 7 ]} ["d1"] [1] = (Some 1, -2) ∧
  compute_shortage {[ "d1" := 7 ]} (STOC r + 棚理論 r + 外部 r) ["d1"] [1]
    = (None, 3).
Proof. vm_compute. split_and!; [discriminate|reflexivity..]. Qed.

(** C1, amended: the quantity the detector nets demand against is the
    on-hand stock of the part alone, 0 when the part is absent from that
    source; the shelf count and the external stock only feed the column
    在庫合計, which the detector does not read. *)
Theorem inv_total_is_on_hand
    (stoc theory external : gmap string Z) (part : string)
    (req_row : gmap string Z) (date_colnames : list string)
    (date_cols : list Z) :
  let r := make_base_row stoc theory external part in
  inv_total r = default 0 (stoc !! part) ∧
  在庫合計 r = default 0 (theory !! part) + default 0 (external !! part) ∧
  shortage_of_row r req_row date_colnames date_cols
    = compute_shortage req_row (default 0 (stoc !! part))
                       date_colnames date_cols.
Proof. cbv zeta. split_and!; reflexivity. Qed.

End ShortageProofs.

(** ** Line-number canonicalisation *)

Module CanonProofs.
Import Canon Frame Reconciler.

(** [truncate] cuts towards zero: the quotient and a remainder that is
    smaller than the denominator and has the sign of the numerator. *)
Lemma truncate_rem (q : Q) :
  ∃ r, Qnum q = Z.pos (Qden q) * truncate q + r ∧
       Z.abs r < Z.pos (Qden q) ∧ 0 <= r * Qnum q.
Proof.
  unfold truncate. destruct q as [n d]. cbn [Qnum Qden].
  exists (Z.rem n (Z.pos d)). split_and!.
  - apply Z.quot_rem'.
  - pose proof (Z.rem_bound_abs n (Z.pos d) ltac:(lia)). lia.
  - apply Z.rem_sign_mul. lia.
Qed.

Lemma Qfloor_rem (q : Q) :
  ∃ r, Qnum q = Z.pos (Qden q) * Qfloor q + r ∧ 0 <= r < Z.pos (Qden q).
Proof.
  destruct q as [n d]. cbn [Qfloor Qnum Qden].
  exists (n mod Z.pos d). split.
  - apply Z.div_mod. lia.
  - apply Z.mod_pos_bound. lia.
Qed.

Lemma trunc_nonneg_unique (D n a r f r' : Z) :
  0 < D → n = D * a + r → Z.abs r < D → 0 <= r * n → 0 <= n →
  n = D * f + r' → 0 <= r' < D → a = f.
Proof.
  intros HD Hn Hr Hs Hn0 Hn' Hr'.
  assert (0 <= r).
  { destruct (decide (0 <= r)); [done|].
    assert (n = 0) by nia. assert (a = 0 ∨ a <= -1 ∨ 1 <= a) as [?|[?|?]] by lia; nia. }
  destruct (Z.lt_trichotomy a f) as [?|[?|?]]; [nia|done|nia].
Qed.

Lemma trunc_neg_unique (D n a r f r' : Z) :
  0 < D → n = D * a + r → Z.abs r < D → 0 <= r * n → n < 0 →
  - n = D * f + r' → 0 <= r' < D → a = - f.
Proof.
  intros HD Hn Hr Hs Hn0 Hn' Hr'.
  assert (r <= 0) by nia.
  destruct (Z.lt_trichotomy a (- f)) as [?|[?|?]]; [nia|done|nia].
Qed.

(** Cutting towards zero is the floor of a non-negative number and the
    ceiling of a negative one. *)
Lemma truncate_integer_part (q : Q) : truncate q = integer_part q.
Proof.
  destruct (truncate_rem q) as (r & Hq & Hr & Hs).
  unfold integer_part. destruct (Qle_bool 0 q) eqn:Hsign.
  - apply Qle_bool_iff in Hsign. unfold Qle in Hsign. cbn in Hsign.
    destruct (Qfloor_rem q) as (r' & Hq' & Hr').
    eapply (trunc_nonneg_unique (Z.pos (Qden q)) (Qnum q)); eauto; lia.
  - assert (¬ (0 <= q)%Q) as Hneg
      by (rewrite <- Qle_bool_iff; congruence).
    unfold Qle in Hneg. cbn in Hneg.
    unfold Qceiling. destruct (Qfloor_rem (- q)) as (r' & Hq' & Hr').
    cbn [Qopp Qnum Qden] in Hq', Hr'.
    eapply (trunc_neg_unique (Z.pos (Qden q)) (Qnum q)); eauto; lia.
Qed.

(** The cast keeps the integer part of a number within the range of
    [int64] and sends every other number to [INT64_MIN]. *)
Lemma astype_int_cast (q : Q) :
  astype_int q
  = if decide (in_int64 (integer_part q)) then integer_part q else INT64_MIN.
Proof. unfold astype_int. by rewrite truncate_integer_part. Qed.

Lemma astype_int_integer_part (q : Q) :
  in_int64 (integer_part q) → astype_int q = integer_part q.
Proof. intros H. rewrite astype_int_cast. by rewrite decide_True. Qed.

Lemma astype_int_range (q : Q) : in_int64 (astype_int q).
Proof.
  unfold astype_int. case_decide; [done|]. unfold in_int64, INT64_MIN. lia.
Qed.

Lemma to_int_str1_float (q : Q) :
  to_int_str1 (CFloat q) = astype_str (astype_int q).
Proof. reflexivity. Qed.

Lemma to_int_str1_unparsable (c : cell) :
  to_numeric c = None → to_int_str1 c = sentinel.
Proof. intros H. unfold to_int_str1. rewrite H. by vm_compute. Qed.

(** A number in (-2, -1] is cut to -1, one in (-1, 0) to 0. *)
Lemma astype_int_minus_one (q : Q) :
  (inject_Z (-2) < q)%Q → (q <= inject_Z (-1))%Q → astype_int q = -1.
Proof.
  unfold Qlt, Qle. cbn. intros H1 H2.
  destruct (truncate_rem q) as (r & Hq & Hr & Hs).
  assert (truncate q = -1) as Ht by nia.
  unfold astype_int. rewrite Ht. by rewrite decide_True by (by vm_compute).
Qed.

Lemma astype_int_zero (q : Q) :
  (inject_Z (-1) < q)%Q → (q < 0)%Q → astype_int q = 0.
Proof.
  unfold Qlt. cbn. intros H1 H2.
  destruct (truncate_rem q) as (r & Hq & Hr & Hs).
  assert (truncate q = 0) as Ht by nia.
  unfold astype_int. rewrite Ht. by rewrite decide_True by (by vm_compute).
Qed.

(** The key of a number is the rendering of the integer it is cast to. *)
Lemma to_int_str1_cast (c : cell) (q : Q) :
  to_numeric c = Some q →
  to_int_str1 c
  = astype_str (if decide (in_int64 (integer_part q)) then integer_part q
                else INT64_MIN).
Proof.
  intros H. unfold to_int_str1. rewrite H.
  change (fillna (inject_Z (-1)) (Some q)) with q.
  by rewrite astype_int_cast.
Qed.

Lemma to_int_str1_parsed (c : cell) (q : Q) :
  to_numeric c = Some q → in_int64 (integer_part q) →
  to_int_str1 c = astype_str (integer_part q).
Proof.
  intros H Hr. rewrite (to_int_str1_cast c q H). by rewrite decide_True.
Qed.

(** Some numbers a [float64] holds: the integers below [2^53] and their
    halves. *)
Lemma float64_inject_Z (z : Z) : Z.abs z < 2 ^ 53 → float64 (inject_Z z).
Proof.
  intros Hz. exists z, 0. split; [done|]. split; [lia|].
  cbn [Qpower]. by rewrite Qmult_1_r.
Qed.

Lemma float64_half (z : Z) : Z.abs z < 2 ^ 53 → float64 (z # 2).
Proof.
  intros Hz. exists z, (-1). split; [done|]. split; [lia|].
  unfold Qeq. cbn. lia.
Qed.

(** A purchase line whose key equals that of the one order line is joined
    to it. *)
Lemma join_041_single (o : Mfg.row) (p : Pur041.row) :
  Pur041.PDNO' p = Mfg.PDNO o → Pur041.OPNO_K p = Mfg.OPRO_K o →
  join_041 [o] [p] = [(o, Some p)].
Proof.
  intros H1 H2. unfold join_041, merge_left. cbn [mbind list_bind].
  rewrite filter_cons, decide_True by (by rewrite H1, H2).
  rewrite filter_nil. reflexivity.
Qed.

Lemma load_mfg_open_orders_single (s : Sfc.raw) (mitm_set : gset string) :
  Sfc.OSTA s < 6 → Sfc.MITM_N s ∈ mitm_set →
  (load_mfg_open_orders [s] mitm_set).1 =
  [ {| Mfg.PDNO := Sfc.PDNO s;
       Mfg.OPRO_K := to_int_str1 (Sfc.OPRO s);
       Mfg.MITM_N := Sfc.MITM_N s;
       Mfg.注残 := default 0 (Sfc.QRDR s) - default 0 (Sfc.QDLV s) |} ].
Proof.
  intros H1 H2. unfold load_mfg_open_orders. cbn [fst].
  rewrite (filter_cons _ s []), decide_True, filter_nil by done.
  rewrite (filter_cons _ s []), decide_True, filter_nil by done.
  reflexivity.
Qed.

(** Two lines of one order whose line numbers get the same key are joined. *)
Lemma same_key_joins (s : Sfc.raw) (p : Pur041.raw) (mitm_set : gset string) :
  Sfc.OSTA s < 6 → Sfc.MITM_N s ∈ mitm_set →
  Sfc.PDNO s = Some (Pur041.PDNO p) →
  to_int_str1 (Sfc.OPRO s) = to_int_str1 (Pur041.OPNO p) →
  ∃ o, (load_mfg_open_orders [s] mitm_set).1 = [o] ∧
       join_041 [o] [unify_041 p] = [(o, Some (unify_041 p))].
Proof.
  intros H1 H2 H3 H4. eexists. split.
  - by apply load_mfg_open_orders_single.
  - apply join_041_single; cbn; congruence.
Qed.

(** C6: the integer 10, the float 10.0 and the padded string "10 " all get
    the key "10"; an unparsable value such as "abc" gets the sentinel "-1";
    two unparsable values get equal keys, so an order line and a purchase
    line of one order whose line numbers are both unparsable are joined. *)
Theorem to_int_str_canonical_keys :
  to_int_str [CInt 10; CFloat (10 # 1); CStr "10 "] = ["10"; "10"; "10"]%string ∧
  to_int_str1 (CStr "abc") = sentinel ∧
  sentinel = "-1"%string ∧
  (∀ c, to_numeric c = None → to_int_str1 c = sentinel) ∧
  (∀ c1 c2, to_numeric c1 = None → to_numeric c2 = None →
            to_int_str1 c1 = to_int_str1 c2) ∧
  (∀ (s : Sfc.raw) (p : Pur041.raw) (mitm_set : gset string),
     Sfc.OSTA s < 6 → Sfc.MITM_N s ∈ mitm_set →
     Sfc.PDNO s = Some (Pur041.PDNO p) →
     to_numeric (Sfc.OPRO s) = None → to_numeric (Pur041.OPNO p) = None →
     ∃ o, (load_mfg_open_orders [s] mitm_set).1 = [o] ∧
          join_041 [o] [unify_041 p] = [(o, Some (unify_041 p))]).
Proof.
  split_and!.
  - vm_compute. reflexivity.
  - vm_compute. reflexivity.
  - reflexivity.
  - apply to_int_str1_unparsable.
  - intros c1 c2 H1 H2. by rewrite !to_int_str1_unparsable.
  - intros s p mitm_set H1 H2 H3 H4 H5. apply same_key_joins; try done.
    by rewrite !to_int_str1_unparsable.
Qed.

(** C10: a value with a fraction is cut towards zero before it is rendered:
    the key of a number whose integer part is in the range of [int64] is
    that integer part, and two numbers with the same integer part get one
    key: 10.5 and 10 both get "10" and are joined; a value in (-2, -1] gets
    "-1", the key of the unparsable values, and a value in (-1, 0) gets
    "0". *)
Theorem to_int_str_truncates_toward_zero :
  (∀ c q, to_numeric c = Some q → float64 q → in_int64 (integer_part q) →
          to_int_str1 c = astype_str (integer_part q)) ∧
  (∀ c1 c2 q1 q2, to_numeric c1 = Some q1 → to_numeric c2 = Some q2 →
                  float64 q1 → float64 q2 →
                  integer_part q1 = integer_part q2 →
                  to_int_str1 c1 = to_int_str1 c2) ∧
  float64 (21 # 2) ∧ float64 (inject_Z 10) ∧
  to_int_str [CFloat (21 # 2); CInt 10] = ["10"; "10"]%string ∧
  (∀ (s : Sfc.raw) (p : Pur041.raw) (mitm_set : gset string),
     Sfc.OSTA s < 6 → Sfc.MITM_N s ∈ mitm_set →
     Sfc.PDNO s = Some (Pur041.PDNO p) →
     Sfc.OPRO s = CFloat (21 # 2) → Pur041.OPNO p = CInt 10 →
     ∃ o, (load_mfg_open_orders [s] mitm_set).1 = [o] ∧
          join_041 [o] [unify_041 p] = [(o, Some (unify_041 p))]) ∧
  (∀ q, (inject_Z (-2) < q)%Q → (q <= inject_Z (-1))%Q →
        to_int_str1 (CFloat q) = "-1"%string) ∧
  (∀ q, (inject_Z (-1) < q)%Q → (q < 0)%Q →
        to_int_str1 (CFloat q) = "0"%string) ∧
  to_int_str [CFloat (-3 # 2); CFloat (-9 # 10)] = ["-1"; "0"]%string ∧
  to_int_str1 (CFloat (-3 # 2)) = to_int_str1 (CStr "abc").
Proof.
  split_and!.
  - intros c q H _ Hr. by apply to_int_str1_parsed.
  - intros c1 c2 q1 q2 H1 H2 _ _ H.
    by rewrite (to_int_str1_cast c1 q1), (to_int_str1_cast c2 q2), H.
  - apply float64_half. by vm_compute.
  - apply float64_inject_Z. by vm_compute.
  - vm_compute. reflexivity.
  - intros s p mitm_set H1 H2 H3 H4 H5. apply same_key_joins; try done.
    rewrite H4, H5. vm_compute. reflexivity.
  - intros q H1 H2. rewrite to_int_str1_float, astype_int_minus_one by done.
    reflexivity.
  - intros q H1 H2. rewrite to_int_str1_float, astype_int_zero by done.
    reflexivity.
  - vm_compute. reflexivity.
  - vm_compute. reflexivity.
Qed.

Example to_int_str_samples :
  to_int_str [CStr "10.0"; CStr " 7"; CStr "1e1"; CStr "-0.9"; CStr "";
              CStr "1 0"; CNull; CInt (-3)]
  = ["10"; "7"; "10"; "0"; "-1"; "-1"; "-1"; "-3"]%string.
Proof. vm_compute. reflexivity. Qed.

End CanonProofs.

(** ** DataFrame operations *)

Module FrameProofs.
Import Py PyFacts Frame.

Section Unique.
Context {A : Type} `{EqDecision A}.

Lemma elem_of_unique_from (seen l : list A) (x : A) :
  x ∈ unique_from seen l ↔ x ∈ l ∧ x ∉ seen.
Proof.
  revert seen. induction l as [|y l IH]; intros seen; cbn [unique_from].
  - set_solver.
  - case_decide as Hy.
    + rewrite IH. set_solver.
    + rewrite elem_of_cons, IH. destruct (decide (x = y)); set_solver.
Qed.

Lemma NoDup_unique_from (seen l : list A) : NoDup (unique_from seen l).
Proof.
  revert seen. induction l as [|y l IH]; intros seen; cbn [unique_from].
  - constructor.
  - case_decide; [apply IH|]. apply NoDup_cons. split; [|apply IH].
    rewrite elem_of_unique_from. set_solver.
Qed.

Lemma unique_from_snoc (seen l : list A) (x : A) :
  unique_from seen (l ++ [x]) =
  unique_from seen l ++ (if decide (x ∈ seen ∨ x ∈ l) then [] else [x]).
Proof.
  revert seen. induction l as [|y l IH]; intros seen; cbn [unique_from app].
  - repeat case_decide; first [reflexivity | exfalso; set_solver].
  - destruct (decide (y ∈ seen)); rewrite IH; cbn [app];
      repeat case_decide; first [reflexivity | exfalso; set_solver].
Qed.

Lemma unique_singleton (x : A) : unique [x] = [x].
Proof.
  unfold unique. cbn [unique_from]. rewrite decide_False; [done|].
  apply not_elem_of_nil.
Qed.

Lemma elem_of_unique (l : list A) (x : A) : x ∈ unique l ↔ x ∈ l.
Proof. unfold unique. rewrite elem_of_unique_from. set_solver. Qed.

Lemma NoDup_unique (l : list A) : NoDup (unique l).
Proof. apply NoDup_unique_from. Qed.

Lemma unique_snoc (l : list A) (x : A) :
  unique (l ++ [x]) = unique l ++ (if decide (x ∈ l) then [] else [x]).
Proof.
  unfold unique. rewrite unique_from_snoc.
  repeat case_decide; first [reflexivity | exfalso; set_solver].
Qed.

End Unique.

Section GroupbyFacts.
Context {K R : Type} `{EqDecision K}.
Implicit Types (k : K) (r : R) (key : R → K).

(** Adding a row to groups that list, for distinct keys [ks], the rows
    [G k]: the group of the row's key grows at its end, or a new group is
    opened at the end of the list. *)
Lemma group_add_fmap k r (G : K → list R) (ks : list K) :
  NoDup ks →
  group_add k r ((λ k', (k', G k')) <$> ks) =
  if decide (k ∈ ks)
  then (λ k', (k', if decide (k' = k) then G k' ++ [r] else G k')) <$> ks
  else ((λ k', (k', G k')) <$> ks) ++ [(k, [r])].
Proof.
  induction ks as [|k0 ks IH]; intros Hnd.
  - reflexivity.
  - apply NoDup_cons in Hnd as [Hk0 Hnd]. rewrite !fmap_cons.
    cbn [group_add fst snd]. destruct (decide (k = k0)) as [->|Hne].
    + rewrite decide_True by set_solver. rewrite decide_True by done.
      f_equal. apply list_fmap_ext. intros i k' Hk'.
      rewrite decide_False; [done|]. intros ->.
      apply Hk0. by eapply list_elem_of_lookup_2.
    + rewrite IH by done. rewrite (decide_False (P := k0 = k)) by done.
      destruct (decide (k ∈ ks)).
      * rewrite decide_True by set_solver. reflexivity.
      * rewrite decide_False by set_solver. reflexivity.
Qed.

Lemma filter_key_nil key (rows : list R) k :
  k ∉ key <$> rows → filter (λ r, key r = k) rows = [].
Proof.
  induction rows as [|r rows IH]; [done|]. rewrite fmap_cons, not_elem_of_cons.
  intros [Hne Hin]. rewrite filter_cons_False by done. by apply IH.
Qed.

Lemma groupby_snoc key (rows : list R) r :
  groupby key (rows ++ [r]) = group_add (key r) r (groupby key rows).
Proof. unfold groupby. by rewrite foldl_snoc. Qed.

(** The groups of [groupby]: the distinct keys in order of first
    appearance, each with the rows that have it. *)
Lemma groupby_eq key (rows : list R) :
  groupby key rows =
  (λ k, (k, filter (λ r, key r = k) rows)) <$> unique (key <$> rows).
Proof.
  induction rows as [|r rows IH] using rev_ind; [reflexivity|].
  rewrite groupby_snoc, IH.
  replace (key <$> rows ++ [r]) with ((key <$> rows) ++ [key r])
    by (by rewrite fmap_app).
  rewrite unique_snoc, group_add_fmap by apply NoDup_unique.
  rewrite (decide_ext _ _ _ _ (elem_of_unique (key <$> rows) (key r))).
  destruct (decide (key r ∈ key <$> rows)) as [Hin|Hin].
  - rewrite app_nil_r. apply list_fmap_ext. intros i k' Hk'.
    f_equal. rewrite filter_app. case_decide as Hk.
    + rewrite (filter_cons_True _ r []) by done. by rewrite filter_nil.
    + rewrite (filter_cons_False _ r []) by done.
      by rewrite filter_nil, app_nil_r.
  - rewrite fmap_app. f_equal.
    + apply list_fmap_ext. intros i k' Hk'. f_equal.
      rewrite filter_app, (filter_cons_False _ r []), filter_nil, app_nil_r;
        [done|].
      intros Heq. apply Hin. rewrite Heq.
      apply elem_of_unique. by eapply list_elem_of_lookup_2.
    + cbn. f_equal. f_equal. rewrite filter_app.
      rewrite (filter_cons_True _ r []), filter_nil by done.
      by rewrite filter_key_nil.
Qed.

End GroupbyFacts.

Section MergeFacts.
Context {L R K : Type} `{EqDecision K}.
Implicit Types (kl : L → K) (kr : R → K).

(** A right frame without repeated keys offers at most one row per key. *)
Lemma filter_key_NoDup kr (right : list R) (k : K) :
  NoDup (kr <$> right) →
  filter (λ r, kr r = k) right = [] ∨
  ∃ r, filter (λ r, kr r = k) right = [r].
Proof.
  induction right as [|r right IH]; [by left|].
  rewrite fmap_cons, NoDup_cons. intros [Hr Hnd].
  destruct (decide (kr r = k)) as [Hk|Hk].
  - right. exists r. rewrite filter_cons_True by done. f_equal.
    apply filter_key_nil. by rewrite <- Hk.
  - rewrite filter_cons_False by done. by apply IH.
Qed.

(** So a left merge onto it neither drops nor repeats a left row. *)
Lemma merge_left_fst kl kr (left : list L) (right : list R) :
  NoDup (kr <$> right) → fst <$> merge_left kl kr left right = left.
Proof.
  intros Hnd. unfold merge_left.
  induction left as [|l left IH]; [done|].
  rewrite bind_cons, fmap_app, IH.
  destruct (filter_key_NoDup kr right (kl l) Hnd) as [->|[r ->]]; done.
Qed.

(** In general it lists, for each left row, its matches or one empty
    match. *)
Lemma merge_left_cons kl kr (l : L) (left : list L) (right : list R) :
  merge_left kl kr (l :: left) right =
  match filter (λ r, kr r = kl l) right with
  | [] => [(l, None)]
  | rs => (λ r, (l, Some r)) <$> rs
  end ++ merge_left kl kr left right.
Proof. reflexivity. Qed.

(** Selecting joined rows by their left side is joining the selected left
    rows. *)
Lemma merge_left_filter kl kr (P : L → Prop) `{∀ l, Decision (P l)}
    (left : list L) (right : list R) :
  filter (λ x : L * option R, P x.1) (merge_left kl kr left right)
  = merge_left kl kr (filter P left) right.
Proof.
  induction left as [|l left IH]; [done|].
  rewrite merge_left_cons, filter_app, IH, (filter_cons P).
  destruct (decide (P l)) as [Hl|Hl].
  - rewrite merge_left_cons. f_equal.
    destruct (filter (λ r, kr r = kl l) right) as [|r rs].
    + by rewrite filter_cons_True.
    + generalize (r :: rs). intros qs. induction qs as [|q qs IHq]; [done|].
      rewrite fmap_cons, filter_cons_True by done. by rewrite IHq.
  - assert (filter (λ x : L * option R, P x.1)
              match filter (λ r, kr r = kl l) right with
              | [] => [(l, None)]
              | rs => (λ r, (l, Some r)) <$> rs
              end = []) as ->; [|done].
    destruct (filter (λ r, kr r = kl l) right) as [|r rs].
    + by rewrite filter_cons_False.
    + generalize (r :: rs). intros qs. induction qs as [|q qs IHq]; [done|].
      rewrite fmap_cons, filter_cons_False by done. by rewrite IHq.
Qed.

(** Left rows without a match come out once, with an empty right side. *)
Lemma merge_left_unmatched kl kr (left : list L) (right : list R) :
  (∀ l, l ∈ left → filter (λ r, kr r = kl l) right = []) →
  merge_left kl kr left right = (λ l, (l, None)) <$> left.
Proof.
  induction left as [|l left IH]; intros Hno; [done|].
  rewrite merge_left_cons, Hno, IH, fmap_cons; [done| |].
  - intros l' Hl'. apply Hno. rewrite elem_of_cons. tauto.
  - rewrite elem_of_cons. tauto.
Qed.

(** Looking a key up in a keyed frame. *)
Lemma list_find_keyed {V} (v : K → V) (ks : list K) (k : K) :
  k ∈ ks →
  (λ x : nat * (K * V), x.2.2)
    <$> list_find (λ r : K * V, r.1 = k) ((λ k', (k', v k')) <$> ks)
  = Some (v k).
Proof.
  induction ks as [|k0 ks IH]; intros Hin; [by apply elem_of_nil in Hin|].
  rewrite fmap_cons. cbn [list_find fst]. 
  destruct (decide (k0 = k)) as [->|Hne]; [done|].
  apply elem_of_cons in Hin as [->|Hin]; [done|].
  specialize (IH Hin). rewrite <- IH.
  by destruct (list_find (λ r : K * V, r.1 = k) ((λ k', (k', v k')) <$> ks)).
Qed.

End MergeFacts.

Lemma fmap_filter_compose {A B C} (g : A → B) (f : B → C) (P : B → Prop)
    `{∀ x, Decision (P x)} (l : list A) :
  (λ x, f (g x)) <$> filter (λ x, P (g x)) l = f <$> filter P (g <$> l).
Proof.
  induction l as [|x l IH]; [done|]. rewrite fmap_cons, !filter_cons.
  case_decide; [rewrite !fmap_cons|]; by rewrite IH.
Qed.

End FrameProofs.

(** ** Open-order reconciler *)

Module ReconcilerProofs.
Import Py PyFacts Frame FrameProofs Reconciler.

(** The receipt summary holds each key (order, PO number, release number)
    once. *)
Lemma summarize_045_NoDup (p045 : list Pur045.raw) :
  NoDup ((λ s, (Pur045.PDNO' s, Some (Pur045.PONO' s), Some (Pur045.ORNO' s)))
         <$> summarize_045 p045).
Proof.
  unfold summarize_045. rewrite groupby_eq.
  generalize (NoDup_unique
    ((λ r, (Some (Pur045.PDNO r), Pur045.PONO r, Pur045.ORNO r)) <$> p045)).
  generalize (unique
    ((λ r, (Some (Pur045.PDNO r), Pur045.PONO r, Pur045.ORNO r)) <$> p045)).
  intros ks Hnd. induction ks as [|[[pd po] orn] ks IH]; [constructor|].
  apply NoDup_cons in Hnd as [Hk Hnd]. rewrite fmap_cons.
  cbn [omap list_omap fst snd]. destruct pd as [pd|]; cbn [mbind option_bind].
  - rewrite fmap_cons. cbn. apply NoDup_cons. split; [|by apply IH].
    intros Hin. apply Hk. clear -Hin.
    apply list_elem_of_fmap in Hin as (s & Hs & Hin).
    apply list_elem_of_omap in Hin as (g & Hg & Hsome).
    apply list_elem_of_fmap in Hg as (k & -> & Hk).
    destruct k as [[[pd'|] po'] orn']; simplify_eq/=. done.
  - by apply IH.
Qed.

Lemma p045_sum_NoDup (p045 : list Pur045.raw) :
  NoDup ((λ s, (Pur045.PDNO' s, Some (Pur045.PONO' s), Some (Pur045.ORNO' s)))
         <$> (if p045 is [] then [] else summarize_045 p045)).
Proof. destruct p045; [constructor|apply summarize_045_NoDup]. Qed.

(** The second merge keeps the rows of the first one as they are. *)
Lemma join_045_fst (j : list (Mfg.row * option Pur041.row))
    (p045 : list Pur045.raw) :
  fst <$> join_045 j (if p045 is [] then [] else summarize_045 p045) = j.
Proof. apply merge_left_fst, p045_sum_NoDup. Qed.

Lemma aggregate_eq (j : list j_row) :
  aggregate j =
  (λ k, {| g_MITM_N := k;
           A_注残 := Zsum (j_注残 <$> filter (λ r, j_MITM_N r = k) j);
           B_OQUA := Zsum (j_OQUA <$> filter (λ r, j_MITM_N r = k) j);
           C_DQUA := Zsum (j_DQUA_SUM <$> filter (λ r, j_MITM_N r = k) j) |})
  <$> unique (j_MITM_N <$> j).
Proof. unfold aggregate. rewrite groupby_eq, <- list_fmap_compose. done. Qed.

Lemma B_join_045 (j : list (Mfg.row * option Pur041.row))
    (p045 : list Pur045.raw) (k : string) :
  Zsum (j_OQUA <$> filter (λ r, j_MITM_N r = k)
          (join_045 j (if p045 is [] then [] else summarize_045 p045)))
  = B_of_join j k.
Proof.
  unfold B_of_join. rewrite <- (join_045_fst j p045) at 2.
  by rewrite <- fmap_filter_compose.
Qed.

Lemma A_join_045 (j : list (Mfg.row * option Pur041.row))
    (p045 : list Pur045.raw) (k : string) :
  Zsum (j_注残 <$> filter (λ r, j_MITM_N r = k)
          (join_045 j (if p045 is [] then [] else summarize_045 p045)))
  = A_of_join j k.
Proof.
  unfold A_of_join. rewrite <- (join_045_fst j p045) at 2.
  by rewrite <- fmap_filter_compose.
Qed.

Lemma MITM_N_join_045 (j : list (Mfg.row * option Pur041.row))
    (p045 : list Pur045.raw) :
  j_MITM_N <$> join_045 j (if p045 is [] then [] else summarize_045 p045)
  = (λ x, Mfg.MITM_N x.1) <$> j.
Proof.
  rewrite <- (join_045_fst j p045) at 2. by rewrite <- list_fmap_compose.
Qed.

(** The columns MITM_N, A_注残 and B_OQUA of the grouped frame are those of
    the first join; the receipts enter C_DQUA only. *)
Lemma paintable_groups_AB (p041 : list Pur041.raw) (p045 : list Pur045.raw)
    (mfg_orders : list Mfg.row) :
  (λ g, (g_MITM_N g, A_注残 g, B_OQUA g))
    <$> paintable_groups p041 p045 mfg_orders
  = (λ k, (k, A_of_join (join_041 mfg_orders (unify_041 <$> p041)) k,
              B_of_join (join_041 mfg_orders (unify_041 <$> p041)) k))
    <$> unique ((λ x, Mfg.MITM_N x.1)
                <$> join_041 mfg_orders (unify_041 <$> p041)).
Proof.
  unfold paintable_groups. rewrite aggregate_eq, <- list_fmap_compose.
  rewrite MITM_N_join_045. apply list_fmap_ext. intros i k _.
  cbn. by rewrite A_join_045, B_join_045.
Qed.

(** C4: the ordered total B of a part is the sum of OQUA over the rows of
    the first join, whatever the receipts are: two receipt tables give the
    same B, and a purchase line matched to one order line contributes its
    OQUA exactly once, with no, one or three receipt rows on its key. *)
Theorem B_not_inflated_by_receipts
    (p041 : list Pur041.raw) (mfg_orders : list Mfg.row) :
  (∀ p045 g, g ∈ paintable_groups p041 p045 mfg_orders →
     B_OQUA g = B_of_join (join_041 mfg_orders (unify_041 <$> p041))
                          (g_MITM_N g)) ∧
  (∀ p045 p045',
     (λ g, (g_MITM_N g, A_注残 g, B_OQUA g))
       <$> paintable_groups p041 p045 mfg_orders
     = (λ g, (g_MITM_N g, A_注残 g, B_OQUA g))
       <$> paintable_groups p041 p045' mfg_orders) ∧
  (∀ (o : Mfg.row) (p : Pur041.raw) (receipts : list Pur045.raw),
     Mfg.PDNO o = Some (Pur041.PDNO p) →
     Mfg.OPRO_K o = Canon.to_int_str1 (Pur041.OPNO p) →
     (λ g, (g_MITM_N g, B_OQUA g)) <$> paintable_groups [p] receipts [o]
     = [(Mfg.MITM_N o, default 0 (Pur041.OQUA p))]) ∧
  (let o := {| Mfg.PDNO := Some 7; Mfg.OPRO_K := "10";
               Mfg.MITM_N := "P"; Mfg.注残 := 50 |} in
   let p := {| Pur041.PDNO := 7; Pur041.OPNO := Canon.CFloat (10 # 1);
               Pur041.PONO := "1"; Pur041.ORNO := "900";
               Pur041.OQUA := Some 30 |} in
   let r q := {| Pur045.PDNO := 7; Pur045.PONO := "1";
                 Pur045.ORNO := "900"; Pur045.DQUA := Some q |} in
   paintable_groups [p] [] [o]
     = [ {| g_MITM_N := "P"; A_注残 := 50; B_OQUA := 30; C_DQUA := 0 |} ] ∧
   paintable_groups [p] [r 10] [o]
     = [ {| g_MITM_N := "P"; A_注残 := 50; B_OQUA := 30; C_DQUA := 10 |} ] ∧
   paintable_groups [p] [r 4; r 5; r 1] [o]
     = [ {| g_MITM_N := "P"; A_注残 := 50; B_OQUA := 30; C_DQUA := 10 |} ]).
Proof.
  split_and!.
  - intros p045 g Hg.
    apply (list_elem_of_fmap_2 (λ g, (g_MITM_N g, A_注残 g, B_OQUA g))) in Hg.
    rewrite paintable_groups_AB in Hg.
    apply list_elem_of_fmap in Hg as (k & Hk & _).
    injection Hk as Hm _ Hb. by rewrite Hb, Hm.
  - intros p045 p045'. by rewrite !paintable_groups_AB.
  - intros o p receipts H1 H2.
    assert ((λ g, (g_MITM_N g, B_OQUA g)) <$> paintable_groups [p] receipts [o]
            = (λ x : string * Z * Z, (x.1.1, x.2))
              <$> ((λ g, (g_MITM_N g, A_注残 g, B_OQUA g))
                   <$> paintable_groups [p] receipts [o])) as ->
      by (by rewrite <- list_fmap_compose).
    rewrite paintable_groups_AB.
    change (unify_041 <$> [p]) with [unify_041 p].
    rewrite CanonProofs.join_041_single by (cbn; congruence).
    change ((λ x : Mfg.row * option Pur041.row, Mfg.MITM_N x.1)
            <$> [(o, Some (unify_041 p))]) with [Mfg.MITM_N o].
    rewrite unique_singleton. unfold B_of_join.
    rewrite !fmap_cons, (filter_cons_True _ _ []), filter_nil by done.
    cbn. do 2 f_equal. lia.
  - vm_compute. done.
Qed.

(** The purchase lines the first merge attaches to an order line. *)
Lemma join_041_cons (o : Mfg.row) (mfg_orders : list Mfg.row)
    (p041 : list Pur041.row) :
  join_041 (o :: mfg_orders) p041 =
  match matches_041 o p041 with
  | [] => [(o, None)]
  | rs => (λ p, (o, Some p)) <$> rs
  end ++ join_041 mfg_orders p041.
Proof. reflexivity. Qed.

Lemma Zsum_replicate_fmap {A} (z : Z) (l : list A) :
  Zsum ((λ _, z) <$> l) = z * Z.of_nat (length l).
Proof.
  induction l as [|x l IH]; [cbn; lia|].
  rewrite fmap_cons, Zsum_cons, IH. cbn [length]. lia.
Qed.

Lemma filter_part_keep (o : Mfg.row) (part : string) (qs : list Pur041.row) :
  Mfg.MITM_N o = part →
  filter (λ x : Mfg.row * option Pur041.row, Mfg.MITM_N x.1 = part)
         ((λ p, (o, Some p)) <$> qs)
  = (λ p, (o, Some p)) <$> qs.
Proof.
  intros Ho. induction qs as [|q qs IH]; [done|].
  rewrite fmap_cons, filter_cons_True by done. by rewrite IH.
Qed.

Lemma filter_part_drop (o : Mfg.row) (part : string) (qs : list Pur041.row) :
  Mfg.MITM_N o ≠ part →
  filter (λ x : Mfg.row * option Pur041.row, Mfg.MITM_N x.1 = part)
         ((λ p, (o, Some p)) <$> qs)
  = [].
Proof.
  intros Ho. induction qs as [|q qs IH]; [done|].
  rewrite fmap_cons, filter_cons_False by done. by rewrite IH.
Qed.

(** What the grouped frame sums as A: the backlog of every order line of
    the part, once per purchase line matched to it (once when there is
    none). It is the backlog total of the docstring only when no order line
    meets two purchase lines. *)
Lemma A_of_join_counts_matches (mfg_orders : list Mfg.row)
    (p041 : list Pur041.row) (part : string) :
  A_of_join (join_041 mfg_orders p041) part =
  Zsum ((λ o, Mfg.注残 o
              * Z.max 1 (Z.of_nat (length (matches_041 o p041))))
        <$> lines_of mfg_orders part).
Proof.
  unfold A_of_join, lines_of. induction mfg_orders as [|o l IH]; [done|].
  rewrite join_041_cons, filter_app, fmap_app, Zsum_app, IH. clear IH.
  rewrite (filter_cons (λ o, Mfg.MITM_N o = part)).
  destruct (decide (Mfg.MITM_N o = part)) as [Ho|Ho].
  - rewrite fmap_cons, Zsum_cons. f_equal.
    destruct (matches_041 o p041) as [|p ps] eqn:Hm.
    + rewrite (filter_cons_True _ _ []) by done. cbn. lia.
    + assert (1 <= length (matches_041 o p041))%nat as Hlen
        by (rewrite Hm; cbn; lia).
      rewrite <- Hm. clear Hm.
      rewrite filter_part_keep by done.
      rewrite <- list_fmap_compose.
      rewrite (Zsum_replicate_fmap (Mfg.注残 o)).
      by rewrite Z.max_r by lia.
  - assert (filter (λ x : Mfg.row * option Pur041.row, Mfg.MITM_N x.1 = part)
              match matches_041 o p041 with
              | [] => [(o, None)]
              | rs => (λ p, (o, Some p)) <$> rs
              end = []) as ->; [|cbn; lia].
    destruct (matches_041 o p041) as [|p ps].
    + by rewrite filter_cons_False.
    + by apply filter_part_drop.
Qed.

Lemma A_of_join_no_fan_out (mfg_orders : list Mfg.row)
    (p041 : list Pur041.row) (part : string) :
  (∀ o, o ∈ lines_of mfg_orders part →
        (length (matches_041 o p041) <= 1)%nat) →
  A_of_join (join_041 mfg_orders p041) part = spec_A mfg_orders part.
Proof.
  intros Hone. rewrite A_of_join_counts_matches. unfold spec_A. f_equal.
  apply list_fmap_ext. intros i o Hi.
  specialize (Hone o (list_elem_of_lookup_2 _ _ _ Hi)). lia.
Qed.

Lemma nonempty_elem {A} (l : list A) : l ≠ [] → ∃ x, x ∈ l.
Proof. destruct l as [|x l]; [done|]. intros _. exists x. left. Qed.

Lemma filter_nil_intro {A} (P : A → Prop) `{∀ x, Decision (P x)}
    (l : list A) :
  (∀ x, x ∈ l → ¬ P x) → filter P l = [].
Proof.
  induction l as [|x l IH]; intros Hno; [done|].
  rewrite filter_cons_False; [apply IH|apply Hno].
  - intros y Hy. apply Hno. rewrite elem_of_cons. tauto.
  - rewrite elem_of_cons. tauto.
Qed.

Lemma elem_of_fetch_chunks {T} (pdno : T → Z) (table : list T)
    (chunks : list (list Z)) (r : T) :
  r ∈ fetch_chunks pdno table chunks → r ∈ table.
Proof.
  unfold fetch_chunks. rewrite list_elem_of_bind.
  intros (chunk & Hr & _). by apply list_elem_of_filter in Hr as [_ ?].
Qed.

(** A part none of whose order lines meets a purchase line of the table
    meets none of the fetched ones. *)
Lemma matches_041_none (t041 fetched : list Pur041.raw)
    (mfg_orders : list Mfg.row) (part : string) (o : Mfg.row) :
  matched_purchases (lines_of mfg_orders part) t041 = [] →
  (∀ p, p ∈ fetched → p ∈ t041) →
  o ∈ lines_of mfg_orders part →
  matches_041 o (unify_041 <$> fetched) = [].
Proof.
  intros Hnone Hsub Ho. apply filter_nil_intro.
  intros p' (p & -> & Hp)%list_elem_of_fmap Hkey. cbn in Hkey.
  injection Hkey as Hpd Hop.
  eapply filter_nil_not_elem_of; [exact Hnone| |by apply Hsub].
  apply Exists_exists. exists o. by split.
Qed.

(** The rows of a part without purchase lines in the joined frame. *)
Lemma join_unmatched_part (p041 : list Pur041.row) (p045 : list Pur045.raw)
    (mfg_orders : list Mfg.row) (part : string) :
  (∀ o, o ∈ lines_of mfg_orders part → matches_041 o p041 = []) →
  filter (λ r, j_MITM_N r = part)
         (join_045 (join_041 mfg_orders p041)
                   (if p045 is [] then [] else summarize_045 p045))
  = (λ o, ((o, None), None)) <$> lines_of mfg_orders part.
Proof.
  intros Hnone. unfold join_045.
  etrans; [exact (merge_left_filter _ _
             (λ x : Mfg.row * option Pur041.row, Mfg.MITM_N x.1 = part) _ _)|].
  assert (filter (λ x : Mfg.row * option Pur041.row, Mfg.MITM_N x.1 = part)
                 (join_041 mfg_orders p041)
          = (λ o, (o, None)) <$> lines_of mfg_orders part) as ->.
  { etrans; [exact (merge_left_filter _ _
               (λ o : Mfg.row, Mfg.MITM_N o = part) _ _)|].
    by apply merge_left_unmatched. }
  rewrite merge_left_unmatched, <- list_fmap_compose; [done|].
  intros x (o & -> & _)%list_elem_of_fmap.
  apply filter_nil_intro. intros s _ Hkey. cbn in Hkey. congruence.
Qed.

Lemma join_041_elem_unmatched (mfg_orders : list Mfg.row)
    (p041 : list Pur041.row) (o : Mfg.row) :
  o ∈ mfg_orders → matches_041 o p041 = [] →
  (o, None) ∈ join_041 mfg_orders p041.
Proof.
  intros Ho Hmo. induction mfg_orders as [|o' l' IH];
    [by apply elem_of_nil in Ho|].
  rewrite join_041_cons, elem_of_app.
  apply elem_of_cons in Ho as [<-|Ho]; [|right; by apply IH].
  left. rewrite Hmo. left.
Qed.

(** [load_paintable] past its two early returns. *)
Lemma load_paintable_fetched (t041 : list Pur041.raw)
    (t045 : list Pur045.raw) (mfg_orders : list Mfg.row) :
  mfg_orders ≠ [] → pdnos_of mfg_orders ≠ [] →
  load_paintable t041 t045 mfg_orders =
  let chunks := chunked_list (pdnos_of mfg_orders) chunksize in
  let p041 := fetch_chunks Pur041.PDNO t041 chunks in
  let p045 := fetch_chunks Pur045.PDNO t045 chunks in
  if p041 is [] then
    (λ g : string * list Mfg.row,
       (g.1, Z.max 0 (Zsum (Mfg.注残 <$> g.2))))
    <$> groupby Mfg.MITM_N mfg_orders
  else (λ g, (g_MITM_N g, 着手可 g)) <$> paintable_groups p041 p045 mfg_orders.
Proof.
  intros H1 H2. unfold load_paintable.
  destruct mfg_orders as [|o l]; [done|].
  by destruct (pdnos_of (o :: l)).
Qed.

(** The part of C2 that holds: when the orders carry an order number and
    no purchase line matches any order line of a part that has one,
    [load_paintable] gives that part the backlog total, clamped at 0. *)
Lemma startable_unmatched (t041 : list Pur041.raw) (t045 : list Pur045.raw)
    (mfg_orders : list Mfg.row) (part : string) :
  lines_of mfg_orders part ≠ [] →
  pdnos_of mfg_orders ≠ [] →
  matched_purchases (lines_of mfg_orders part) t041 = [] →
  startable (load_paintable t041 t045 mfg_orders) part
  = Z.max 0 (spec_A mfg_orders part).
Proof.
  intros Hlines Hpd Hnone.
  assert (part ∈ Mfg.MITM_N <$> mfg_orders) as Hpart.
  { destruct (nonempty_elem _ Hlines) as [o Ho].
    apply list_elem_of_filter in Ho as [<- Ho].
    by apply list_elem_of_fmap_2. }
  rewrite load_paintable_fetched by (done || by intros ->).
  cbv zeta. unfold startable. set (mfg := mfg_orders) in *.
  set (chunks := chunked_list (pdnos_of mfg) chunksize).
  destruct (fetch_chunks Pur041.PDNO t041 chunks) as [|p ps] eqn:Hfetch.
  - rewrite groupby_eq, <- list_fmap_compose.
    match goal with
    | |- default 0 ?t = _ =>
      assert (t = Some (Z.max 0 (spec_A mfg part))) as ->; [|done]
    end.
    apply (list_find_keyed
             (λ k, Z.max 0 (Zsum (Mfg.注残 <$> filter
                                    (λ r, Mfg.MITM_N r = k) mfg)))).
    by apply elem_of_unique.
  - rewrite <- Hfetch.
    assert (Hsub : ∀ q, q ∈ fetch_chunks Pur041.PDNO t041 chunks → q ∈ t041)
      by (intros q; apply elem_of_fetch_chunks).
    clear p ps Hfetch.
    set (p041 := fetch_chunks Pur041.PDNO t041 chunks) in *.
    set (p045 := fetch_chunks Pur045.PDNO t045 chunks).
    assert (Hm : ∀ o, o ∈ lines_of mfg part →
                      matches_041 o (unify_041 <$> p041) = [])
      by (intros o; by apply (matches_041_none t041)).
    unfold paintable_groups.
    rewrite aggregate_eq, <- list_fmap_compose, MITM_N_join_045.
    set (j2 := join_045 (join_041 mfg (unify_041 <$> p041))
                        (if p045 is [] then [] else summarize_045 p045)).
    set (v := λ k : string,
           着手可 {| g_MITM_N := k;
                    A_注残 := Zsum (j_注残 <$> filter (λ r, j_MITM_N r = k) j2);
                    B_OQUA := Zsum (j_OQUA <$> filter (λ r, j_MITM_N r = k) j2);
                    C_DQUA := Zsum (j_DQUA_SUM
                                    <$> filter (λ r, j_MITM_N r = k) j2) |}).
    match goal with
    | |- default 0 ?t = _ => assert (t = Some (v part)) as ->
    end.
    { apply (list_find_keyed v). apply elem_of_unique.
      destruct (nonempty_elem _ Hlines) as [o Ho].
      pose proof (Hm o Ho) as Hmo.
      apply list_elem_of_filter in Ho as [<- Ho].
      apply (list_elem_of_fmap_2' _ _ (o, None)); [|done].
      by apply join_041_elem_unmatched. }
    unfold v, 着手可, 母材未納残, j2. cbn [A_注残 B_OQUA C_DQUA default].
    rewrite (join_unmatched_part _ _ _ _ Hm).
    rewrite <- !list_fmap_compose. unfold spec_A.
    assert (Zsum (j_OQUA ∘ (λ o, (o, None, None)) <$> lines_of mfg part) = 0)
      as -> by (rewrite (Zsum_replicate_fmap 0); lia).
    assert (Zsum (j_DQUA_SUM ∘ (λ o, (o, None, None))
                  <$> lines_of mfg part) = 0)
      as -> by (rewrite (Zsum_replicate_fmap 0); lia).
    assert (Zsum (j_注残 ∘ (λ o, (o, None, None)) <$> lines_of mfg part)
            = Zsum (Mfg.注残 <$> lines_of mfg part)) as -> by done.
    unfold id. f_equal. lia.
Qed.

(** The early return for orders without an order number gives every part
    an empty result, read as 0 by [main]. *)
Example load_paintable_without_order_numbers :
  let mfg_orders := [ {| Mfg.PDNO := None; Mfg.OPRO_K := "10";
                         Mfg.MITM_N := "P"; Mfg.注残 := 5 |} ] in
  load_paintable [] [] mfg_orders = [] ∧
  startable (load_paintable [] [] mfg_orders) "P" = 0.
Proof. vm_compute. done. Qed.

(** C2 (the code departs from it): one order line with backlog 5 that has
    two purchase lines of 1 each and no receipt. The claim's totals are
    A = 5, B = 2, C = 0 and a startable quantity of 3; the left merge repeats
    the order line once per purchase line, so [load_paintable] sums the
    backlog twice (A_注残 = 10) and returns 8, more than the backlog itself. *)
Theorem load_paintable_repeats_backlog :
  let mfg_orders := [ {| Mfg.PDNO := Some 7; Mfg.OPRO_K := "10";
                         Mfg.MITM_N := "P"; Mfg.注残 := 5 |} ] in
  let line po := {| Pur041.PDNO := 7; Pur041.OPNO := Canon.CInt 10;
                    Pur041.PONO := po; Pur041.ORNO := "900";
                    Pur041.OQUA := Some 1 |} in
  let t041 := [ line "1"; line "2" ] in
  let t045 : list Pur045.raw := [] in
  spec_A mfg_orders "P" = 5 ∧
  spec_B t041 mfg_orders "P" = 2 ∧
  spec_C t041 t045 mfg_orders "P" = 0 ∧
  spec_startable t041 t045 mfg_orders "P" = 3 ∧
  paintable_groups t041 t045 mfg_orders
    = [ {| g_MITM_N := "P"; A_注残 := 10; B_OQUA := 2; C_DQUA := 0 |} ] ∧
  load_paintable t041 t045 mfg_orders = [("P", 8)] ∧
  startable (load_paintable t041 t045 mfg_orders) "P" = 8.
Proof. vm_compute. done. Qed.

(** With one purchase line per order line the same data give the claim's
    value. *)
Example load_paintable_scenario :
  load_paintable
    [ {| Pur041.PDNO := 7; Pur041.OPNO := Canon.CStr "10 ";
         Pur041.PONO := "1"; Pur041.ORNO := "900"; Pur041.OQUA := Some 30 |} ]
    [ {| Pur045.PDNO := 7; Pur045.PONO := "1"; Pur045.ORNO := "900";
         Pur045.DQUA := Some 4 |};
      {| Pur045.PDNO := 7; Pur045.PONO := "1"; Pur045.ORNO := "900";
         Pur045.DQUA := Some 6 |} ]
    [ {| Mfg.PDNO := Some 7; Mfg.OPRO_K := "10"; Mfg.MITM_N := "P";
         Mfg.注残 := 50 |} ]
  = [("P", 30)].
Proof. vm_compute. done. Qed.

End ReconcilerProofs.

(** ** BOM explosion *)

Module ExplosionProofs.
Import Py PyFacts Frame FrameProofs Explosion.

(** Filling a dictionary from groups whose value depends on the key. *)
Lemma foldl_insert_lookup {V W} (h : list V → W) (G : string → list V)
    (ks : list string) (m0 : gmap string W) (k : string) :
  foldl (λ m (g : string * list V), <[g.1 := h g.2]> m) m0
        ((λ k', (k', G k')) <$> ks) !! k
  = if decide (k ∈ ks) then Some (h (G k)) else m0 !! k.
Proof.
  revert m0. induction ks as [|k0 ks IH]; intros m0.
  - cbn. rewrite decide_False; [done|]. apply not_elem_of_nil.
  - rewrite fmap_cons. cbn [foldl fst snd]. rewrite IH.
    destruct (decide (k ∈ ks)) as [Hin|Hin].
    + rewrite decide_True; [done|]. rewrite elem_of_cons. tauto.
    + destruct (decide (k = k0)) as [->|Hne].
      * rewrite lookup_insert_eq, decide_True; [done|].
        rewrite elem_of_cons. tauto.
      * rewrite lookup_insert_ne by done. rewrite decide_False; [done|].
        rewrite elem_of_cons. tauto.
Qed.

(** [bom_cache] holds a parent exactly when the BOM has a line for it, with
    all its lines in order. *)
Lemma bom_cache_lookup (df_bom : list Bom.row) (parent : string) :
  make_bom_cache df_bom !! parent =
  if decide (parent ∈ Bom.Item <$> df_bom)
  then Some ((λ b, (Bom.sItem b, Bom.bomValue b))
             <$> filter (λ b, Bom.Item b = parent) df_bom)
  else None.
Proof.
  unfold make_bom_cache. rewrite groupby_eq.
  rewrite (foldl_insert_lookup
             (λ bs, (λ b, (Bom.sItem b, Bom.bomValue b)) <$> bs)
             (λ k, filter (λ b, Bom.Item b = k) df_bom)).
  rewrite lookup_empty.
  apply decide_ext, elem_of_unique.
Qed.

Lemma explode_row_eq (df_bom : list Bom.row) (p : Sched.row) :
  explode_row (make_bom_cache df_bom) p =
  if decide (Sched.Item p ∈ Bom.Item <$> df_bom)
  then Some (needs_of df_bom p) else None.
Proof.
  unfold explode_row. rewrite bom_cache_lookup. case_decide; [|done].
  f_equal. unfold needs_of. by rewrite <- list_fmap_compose.
Qed.

Lemma needs_of_no_bom (df_bom : list Bom.row) (p : Sched.row) :
  Sched.Item p ∉ Bom.Item <$> df_bom → needs_of df_bom p = [].
Proof. intros H. unfold needs_of. by rewrite filter_key_nil. Qed.

Lemma exploded_eq (df_sched : list Sched.row) (df_bom : list Bom.row) :
  concat (make_records df_sched df_bom) = df_sched ≫= needs_of df_bom.
Proof.
  unfold make_records. induction df_sched as [|p l IH]; [done|].
  rewrite bind_cons. cbn [omap list_omap]. rewrite explode_row_eq.
  case_decide as Hp.
  - cbn [concat]. by rewrite <- IH.
  - rewrite needs_of_no_bom by done. by rewrite <- IH.
Qed.

Lemma group_needs_eq (exploded : list Need.row) :
  group_needs exploded =
  (λ k, (k, Zsum (Need.needQty
                  <$> filter (λ r, (Need.sItem r, Need.ProdDate r) = k)
                             exploded)))
  <$> unique ((λ r, (Need.sItem r, Need.ProdDate r)) <$> exploded).
Proof. unfold group_needs. by rewrite groupby_eq, <- list_fmap_compose. Qed.

Lemma bind_singleton {A B} (f : A → B) (l : list A) :
  l ≫= (λ x, [f x]) = f <$> l.
Proof. induction l as [|x l IH]; [done|]. by rewrite bind_cons, IH. Qed.

(** The quantities one plan entry contributes to a (child, date) pair. *)
Lemma needs_of_filter (df_bom : list Bom.row) (p : Sched.row)
    (c : string) (d : Z) :
  Need.needQty <$> filter (λ r, (Need.sItem r, Need.ProdDate r) = (c, d))
                          (needs_of df_bom p)
  = if decide (Sched.ProdDate p = d)
    then (λ b, Bom.bomValue b * Sched.Qty p)
         <$> filter (λ b, Bom.Item b = Sched.Item p ∧ Bom.sItem b = c) df_bom
    else [].
Proof.
  unfold needs_of. induction df_bom as [|b l IH].
  - by case_decide.
  - rewrite (filter_cons (λ b, Bom.Item b = Sched.Item p)).
    destruct (decide (Bom.Item b = Sched.Item p)) as [Hb|Hb].
    + rewrite fmap_cons, filter_cons. cbn [Need.sItem Need.ProdDate].
      destruct (decide (Sched.ProdDate p = d)) as [Hd|Hd].
      * destruct (decide (Bom.sItem b = c)) as [Hc|Hc].
        -- rewrite decide_True by congruence.
           rewrite (filter_cons_True (λ b, _ ∧ _)) by done.
           rewrite !fmap_cons. cbn [Need.needQty]. by rewrite IH.
        -- rewrite decide_False by congruence.
           rewrite (filter_cons_False (λ b, _ ∧ _)) by tauto. done.
      * rewrite decide_False by congruence. done.
    + rewrite IH. case_decide; [|done].
      rewrite (filter_cons_False (λ b, _ ∧ _)) by tauto. done.
Qed.

(** The grouped sum of a (child, date) pair is the spec's demand. *)
Lemma need_sum_eq (df_sched : list Sched.row) (df_bom : list Bom.row)
    (c : string) (d : Z) :
  Zsum (Need.needQty
        <$> filter (λ r, (Need.sItem r, Need.ProdDate r) = (c, d))
                   (df_sched ≫= needs_of df_bom))
  = demand_spec df_sched df_bom c d.
Proof.
  unfold demand_spec. induction df_sched as [|p l IH]; [done|].
  rewrite bind_cons, filter_app, fmap_app, Zsum_app, IH, needs_of_filter.
  rewrite (filter_cons (λ p, Sched.ProdDate p = d)).
  case_decide.
  - rewrite bind_cons, Zsum_app, bind_singleton. done.
  - cbn. lia.
Qed.

Lemma elem_of_needs_of (df_bom : list Bom.row) (p : Sched.row) (r : Need.row) :
  r ∈ needs_of df_bom p ↔
  ∃ b, b ∈ df_bom ∧ Bom.Item b = Sched.Item p ∧
       r = {| Need.ProdDate := Sched.ProdDate p; Need.sItem := Bom.sItem b;
              Need.needQty := Bom.bomValue b * Sched.Qty p |}.
Proof.
  unfold needs_of. rewrite list_elem_of_fmap.
  setoid_rewrite list_elem_of_filter. naive_solver.
Qed.

Lemma elem_of_exploded (df_sched : list Sched.row) (df_bom : list Bom.row)
    (r : Need.row) :
  r ∈ concat (make_records df_sched df_bom) ↔
  ∃ p b, p ∈ df_sched ∧ b ∈ df_bom ∧ Bom.Item b = Sched.Item p ∧
         r = {| Need.ProdDate := Sched.ProdDate p; Need.sItem := Bom.sItem b;
                Need.needQty := Bom.bomValue b * Sched.Qty p |}.
Proof.
  rewrite exploded_eq, list_elem_of_bind.
  setoid_rewrite elem_of_needs_of. naive_solver.
Qed.

(** The rows of a keyed frame with distinct keys that carry key [k]. *)
Lemma filter_keyed {V} (S : string * Z → V) (ks : list (string * Z))
    (k : string * Z) :
  NoDup ks →
  filter (λ g : (string * Z) * V, g.1 = k) ((λ k', (k', S k')) <$> ks)
  = if decide (k ∈ ks) then [(k, S k)] else [].
Proof.
  induction ks as [|k0 ks IH]; intros Hnd.
  - by rewrite decide_False by apply not_elem_of_nil.
  - apply NoDup_cons in Hnd as [Hk0 Hnd]. rewrite fmap_cons, filter_cons.
    cbn [fst]. rewrite IH by done. destruct (decide (k0 = k)) as [->|Hne].
    + rewrite decide_False by done.
      rewrite decide_True; [done|]. rewrite elem_of_cons. tauto.
    + destruct (decide (k ∈ ks)).
      * rewrite decide_True; [done|]. rewrite elem_of_cons. tauto.
      * rewrite decide_False; [done|]. rewrite elem_of_cons. naive_solver.
Qed.

(** A cell of the pivot table is the spec's demand, zero included. *)
Lemma pivot_cell (df_sched : list Sched.row) (df_bom : list Bom.row)
    (c : string) (d : Z) :
  Zsum (snd <$> filter (λ g : (string * Z) * Z, g.1 = (c, d))
                       (group_needs (concat (make_records df_sched df_bom))))
  = demand_spec df_sched df_bom c d.
Proof.
  rewrite group_needs_eq, filter_keyed by apply NoDup_unique.
  rewrite exploded_eq. case_decide as Hin.
  - cbn. rewrite need_sum_eq. lia.
  - rewrite elem_of_unique in Hin. rewrite <- need_sum_eq.
    by rewrite (filter_key_nil (λ r, (Need.sItem r, Need.ProdDate r))).
Qed.

(** No demand record of a date means no demand on it, for any child. *)
Lemma demand_spec_no_date (df_sched : list Sched.row) (df_bom : list Bom.row)
    (c : string) (d : Z) :
  d ∉ (λ g : (string * Z) * Z, g.1.2)
      <$> group_needs (concat (make_records df_sched df_bom)) →
  demand_spec df_sched df_bom c d = 0.
Proof.
  intros Hd. rewrite <- pivot_cell.
  assert (filter (λ g : (string * Z) * Z, g.1 = (c, d))
            (group_needs (concat (make_records df_sched df_bom))) = []) as ->;
    [|done].
  induction (group_needs (concat (make_records df_sched df_bom)))
    as [|g l IH]; [done|].
  rewrite fmap_cons, not_elem_of_cons in Hd. destruct Hd as [Hg Hl].
  rewrite filter_cons_False; [by apply IH|].
  intros Heq. apply Hg. by rewrite Heq.
Qed.

Lemma children_of_grouped (exploded : list Need.row) (c : string) :
  c ∈ (λ g : (string * Z) * Z, g.1.1) <$> group_needs exploded ↔
  ∃ r, r ∈ exploded ∧ Need.sItem r = c.
Proof.
  rewrite group_needs_eq, <- list_fmap_compose, list_elem_of_fmap.
  setoid_rewrite elem_of_unique. setoid_rewrite list_elem_of_fmap. split.
  - intros (k & -> & r & -> & Hr). eauto.
  - intros (r & Hr & <-). eexists (_, _). split; [|eauto]. done.
Qed.

Lemma all_days_length (TODAY : Z) : length (all_days TODAY) = 61%nat.
Proof. unfold all_days. by rewrite length_fmap, length_seq. Qed.

Lemma all_days_lookup (TODAY : Z) (i : nat) :
  (i <= 60)%nat → all_days TODAY !! i = Some (TODAY + Z.of_nat i).
Proof.
  intros Hi. unfold all_days. rewrite list_lookup_fmap.
  rewrite lookup_seq_lt by (unfold HORIZON_DAYS; lia). done.
Qed.

Lemma all_days_sorted (TODAY : Z) : StronglySorted Z.lt (all_days TODAY).
Proof.
  unfold all_days. generalize (Z.to_nat (HORIZON_DAYS + 1)) as n.
  generalize 0%nat as j. intros j n. revert j.
  induction n as [|n IH]; intros j; [constructor|].
  cbn [seq fmap list_fmap]. constructor; [apply IH|].
  apply Forall_forall. intros x (i & -> & Hi)%list_elem_of_fmap.
  apply elem_of_seq in Hi. lia.
Qed.

(** A value of a re-indexed row. *)
Lemma reindex_cell (cols : list Z) (cell : Z → Z) (d : Z) :
  (d ∉ cols → cell d = 0) →
  match list_find (λ d', d' = d) cols with
  | Some (i, _) => (cell <$> cols) !!! i
  | None => 0
  end = cell d.
Proof.
  intros Hout. destruct (list_find (λ d', d' = d) cols) as [[i x]|] eqn:Hf.
  - apply list_find_Some in Hf as (Hi & -> & _).
    apply list_lookup_total_correct. by rewrite list_lookup_fmap, Hi.
  - symmetry. apply Hout. apply list_find_None in Hf.
    rewrite Forall_forall in Hf. intros Hin. by apply (Hf d).
Qed.

(** C7: the grouped frame holds each (child, date) pair once; its quantity
    is the sum, over the plan entries of that date and the BOM lines of the
    entry's parent with that child, of [bomValue * Qty]; a pair is present
    exactly when some plan entry and BOM line produce it; and a plan entry
    whose parent has no BOM line is skipped and changes nothing. *)
Theorem explosion_sums_contributions
    (df_sched : list Sched.row) (df_bom : list Bom.row) :
  let grouped := group_needs (concat (make_records df_sched df_bom)) in
  NoDup (fst <$> grouped) ∧
  (∀ c d q, ((c, d), q) ∈ grouped → q = demand_spec df_sched df_bom c d) ∧
  (∀ c d, (c, d) ∈ fst <$> grouped ↔
          ∃ p b, p ∈ df_sched ∧ b ∈ df_bom ∧ Bom.Item b = Sched.Item p ∧
                 Sched.ProdDate p = d ∧ Bom.sItem b = c) ∧
  (∀ c d, (c, d) ∉ fst <$> grouped → demand_spec df_sched df_bom c d = 0) ∧
  (∀ p, (∀ b, b ∈ df_bom → Bom.Item b ≠ Sched.Item p) →
        explode_row (make_bom_cache df_bom) p = None ∧
        ∀ l1 l2, make_records (l1 ++ p :: l2) df_bom
                 = make_records (l1 ++ l2) df_bom) ∧
  group_needs (concat (make_records
      [ {| Sched.ProdDate := 739261; Sched.Item := "P1"; Sched.Qty := 5 |} ]
      [ {| Bom.Item := "P1"; Bom.sItem := "C1"; Bom.bomValue := 2 |} ]))
    = [ (("C1", 739261), 10) ].
Proof.
  cbv zeta. rewrite group_needs_eq, <- list_fmap_compose.
  set (exploded := concat (make_records df_sched df_bom)).
  assert (Hkeys : ∀ c d,
    (c, d) ∈ (λ r, (Need.sItem r, Need.ProdDate r)) <$> exploded ↔
    ∃ p b, p ∈ df_sched ∧ b ∈ df_bom ∧ Bom.Item b = Sched.Item p ∧
           Sched.ProdDate p = d ∧ Bom.sItem b = c).
  { intros c d. rewrite list_elem_of_fmap. unfold exploded.
    setoid_rewrite elem_of_exploded. split.
    - intros (r & Hr & p & b & ? & ? & ? & ->). cbn in Hr. naive_solver.
    - intros (p & b & ? & ? & ? & <- & <-). eexists. split; [|eauto 10]. done. }
  split_and!.
  - cbn. rewrite list_fmap_id. apply NoDup_unique.
  - intros c d q [k [Hk _]]%list_elem_of_fmap. injection Hk as <- ->.
    unfold exploded. by rewrite exploded_eq, need_sum_eq.
  - intros c d. cbn. rewrite list_fmap_id, elem_of_unique. apply Hkeys.
  - intros c d. cbn. rewrite list_fmap_id, elem_of_unique. intros Hnot.
    rewrite <- need_sum_eq, <- exploded_eq. fold exploded.
    rewrite (filter_key_nil (λ r, (Need.sItem r, Need.ProdDate r))); done.
  - intros p Hp.
    assert (Sched.Item p ∉ Bom.Item <$> df_bom) as Hnot.
    { intros (b & Hb & Hin)%list_elem_of_fmap. by apply (Hp b). }
    assert (explode_row (make_bom_cache df_bom) p = None) as Hrow
      by (by rewrite explode_row_eq, decide_False).
    split; [done|]. intros l1 l2. unfold make_records.
    rewrite !omap_app. cbn [omap list_omap]. by rewrite Hrow.
  - vm_compute. done.
Qed.

Lemma run_nonempty (TODAY : Z) (df_sched : list Sched.row)
    (df_bom : list Bom.row) :
  make_records df_sched df_bom ≠ [] →
  run TODAY df_sched df_bom
  = reindex (pivot_table (group_needs (concat (make_records df_sched df_bom))))
            (all_days TODAY).
Proof. unfold run. by destruct (make_records df_sched df_bom). Qed.

(** C8: every child with at least one demand record has exactly one row
    in the output, with one value for each of the 61 days
    [TODAY .. TODAY + 60] in ascending order; the value of a day is the
    child's demand on it, zero when the day received none. *)
Theorem explosion_output_dense (TODAY : Z) (df_sched : list Sched.row)
    (df_bom : list Bom.row) (c : string) :
  (∃ r, r ∈ concat (make_records df_sched df_bom) ∧ Need.sItem r = c) →
  let w := run TODAY df_sched df_bom in
  length (columns w) = Z.to_nat (HORIZON_DAYS + 1) ∧
  length (columns w) = 61%nat ∧
  (∀ i, (i <= 60)%nat → columns w !! i = Some (TODAY + Z.of_nat i)) ∧
  StronglySorted Z.lt (columns w) ∧
  NoDup (fst <$> rows w) ∧
  ∃ vs, (c, vs) ∈ rows w ∧ length vs = 61%nat ∧
        (∀ i, (i <= 60)%nat →
              vs !! i = Some (demand_spec df_sched df_bom c
                                          (TODAY + Z.of_nat i))) ∧
        (∀ i, (i <= 60)%nat →
              (¬ ∃ p b, p ∈ df_sched ∧ b ∈ df_bom ∧
                        Bom.Item b = Sched.Item p ∧
                        Sched.ProdDate p = TODAY + Z.of_nat i ∧
                        Bom.sItem b = c) →
              vs !! i = Some 0).
Proof.
  intros Hc. cbv zeta. rewrite run_nonempty.
  2:{ intros Hnil. destruct Hc as (r & Hr & _). rewrite Hnil in Hr.
      by apply elem_of_nil in Hr. }
  set (grouped := group_needs (concat (make_records df_sched df_bom))).
  set (index := merge_sort str_le (unique ((λ g, g.1.1) <$> grouped))).
  set (cols := merge_sort Z.le (unique ((λ g, g.1.2) <$> grouped))).
  set (cell := λ c d, Zsum (snd <$> filter (λ g : (string * Z) * Z,
                                              g.1 = (c, d)) grouped)).
  assert (Hrows : rows (reindex (pivot_table grouped) (all_days TODAY))
    = (λ c, (c, (λ d, demand_spec df_sched df_bom c d) <$> all_days TODAY))
      <$> index).
  { unfold reindex, pivot_table. cbn [rows columns]. fold index cols.
    rewrite <- list_fmap_compose. apply list_fmap_ext. intros _ c' _.
    cbn. f_equal. apply list_fmap_ext. intros _ d _.
    transitivity (cell c' d); [|apply pivot_cell].
    apply (reindex_cell cols (cell c') d).
    intros Hd. unfold cell, grouped. rewrite pivot_cell.
    apply demand_spec_no_date.
    intros Hin. apply Hd. unfold cols.
    rewrite merge_sort_Permutation. by apply elem_of_unique. }
  assert (Hcols : columns (reindex (pivot_table grouped) (all_days TODAY))
                  = all_days TODAY) by reflexivity.
  rewrite Hrows, Hcols.
  split_and!.
  - by rewrite all_days_length.
  - apply all_days_length.
  - apply all_days_lookup.
  - apply all_days_sorted.
  - rewrite <- list_fmap_compose. cbn. rewrite list_fmap_id. unfold index.
    rewrite merge_sort_Permutation. apply NoDup_unique.
  - exists ((λ d, demand_spec df_sched df_bom c d) <$> all_days TODAY).
    split_and!.
    + apply (list_elem_of_fmap_2
               (λ c, (c, (λ d, demand_spec df_sched df_bom c d)
                         <$> all_days TODAY))).
      unfold index. rewrite merge_sort_Permutation, elem_of_unique.
      by apply children_of_grouped.
    + by rewrite length_fmap, all_days_length.
    + intros i Hi. by rewrite list_lookup_fmap, all_days_lookup.
    + intros i Hi Hno. rewrite list_lookup_fmap, all_days_lookup by done.
      cbn. f_equal. rewrite <- pivot_cell.
      fold grouped.
      assert (filter (λ g : (string * Z) * Z,
                        g.1 = (c, TODAY + Z.of_nat i)) grouped = []) as ->;
        [|done].
      unfold grouped. rewrite group_needs_eq, filter_keyed by apply NoDup_unique.
      rewrite decide_False; [done|].
      rewrite elem_of_unique, list_elem_of_fmap. intros (r & Hk & Hr).
      apply elem_of_exploded in Hr as (p & b & ? & ? & ? & ->).
      cbn in Hk. injection Hk as Hc' Hd'. apply Hno. exists p, b. done.
Qed.

Lemma explosion_output_dense_witness :
  let df_sched :=
    [ {| Sched.ProdDate := 739261; Sched.Item := "P1"; Sched.Qty := 5 |} ] in
  let df_bom :=
    [ {| Bom.Item := "P1"; Bom.sItem := "C1"; Bom.bomValue := 2 |} ] in
  let w := run 739260 df_sched df_bom in
  length (columns w) = Z.to_nat (HORIZON_DAYS + 1) ∧
  length (columns w) = 61%nat ∧
  (∀ i, (i <= 60)%nat → columns w !! i = Some (739260 + Z.of_nat i)) ∧
  StronglySorted Z.lt (columns w) ∧
  NoDup (fst <$> rows w) ∧
  ∃ vs, (("C1" : string), vs) ∈ rows w ∧ length vs = 61%nat ∧
        (∀ i, (i <= 60)%nat →
              vs !! i = Some (demand_spec df_sched df_bom "C1"
                                          (739260 + Z.of_nat i))) ∧
        (∀ i, (i <= 60)%nat →
              (¬ ∃ p b, p ∈ df_sched ∧ b ∈ df_bom ∧
                        Bom.Item b = Sched.Item p ∧
                        Sched.ProdDate p = 739260 + Z.of_nat i ∧
                        Bom.sItem b = "C1") →
              vs !! i = Some 0).
Proof.
  apply (explosion_output_dense 739260
           [ {| Sched.ProdDate := 739261; Sched.Item := "P1"; Sched.Qty := 5 |} ]
           [ {| Bom.Item := "P1"; Bom.sItem := "C1"; Bom.bomValue := 2 |} ]
           "C1").
  exists {| Need.ProdDate := 739261; Need.sItem := "C1"; Need.needQty := 10 |}.
  split; [|reflexivity]. vm_compute. left.
Defined.

Example run_scenario :
  output_qty
    (run 739260
       [ {| Sched.ProdDate := 739261; Sched.Item := "P1"; Sched.Qty := 5 |};
         {| Sched.ProdDate := 739261; Sched.Item := "P2"; Sched.Qty := 3 |};
         {| Sched.ProdDate := 739262; Sched.Item := "P9"; Sched.Qty := 4 |} ]
       [ {| Bom.Item := "P1"; Bom.sItem := "C1"; Bom.bomValue := 2 |};
         {| Bom.Item := "P2"; Bom.sItem := "C1"; Bom.bomValue := 1 |} ])
    "C1" 739261 = Some 13.
Proof. vm_compute. done. Qed.

End ExplosionProofs.

(** * Further properties of the code *)

(** ** Calendar service, beyond the sorted case *)

Module CalendarMore.
Import Py PyFacts Calendar CalendarProofs.

(** What the halving loop guarantees on any list, sorted or not: the
    element left of the result (if any was probed) is below [x], the element
    at the result (if any was probed) is at least [x]. *)
Lemma bisect_loop_edges (a : list Z) (x : Z) (lo hi : nat) :
  (lo <= hi <= length a)%nat →
  (lo <= bisect_loop a x lo hi <= hi)%nat ∧
  (bisect_loop a x lo hi = lo ∨
   ∃ v, a !! (bisect_loop a x lo hi - 1)%nat = Some v ∧ v < x) ∧
  (bisect_loop a x lo hi = hi ∨
   ∃ v, a !! bisect_loop a x lo hi = Some v ∧ x <= v).
Proof.
  funelim (bisect_loop a x lo hi); intros Hb.
  - assert (lo = hi) as -> by lia. split; [lia|]. split; by left.
  - midpoint_facts a lo hi Hmid Hm.
    match goal with
    | IH : (_ <= _ <= _)%nat → _ |- _ =>
      destruct IH as (Hr & Hl & Hh); [lia|]
    end.
    split; [lia|]. split; [|done].
    right. destruct Hl as [->|Hl]; [|done].
    replace (S ((lo + hi) / 2) - 1)%nat with ((lo + hi) / 2)%nat by lia.
    eauto.
  - midpoint_facts a lo hi Hmid Hm.
    match goal with
    | IH : (_ <= _ <= _)%nat → _ |- _ =>
      destruct IH as (Hr & Hl & Hh); [lia|]
    end.
    split; [lia|]. split; [done|].
    right. destruct Hh as [->|Hh]; [|done].
    eexists. split; [done|]. lia.
Qed.

(** X1: [nearest_workday] never raises, whatever the list: it returns the
    date itself for an empty calendar and a calendar day otherwise, also
    when the calendar is not sorted. *)
Theorem nearest_workday_total (ws : list Z) (d : Z) :
  ∃ w, nearest_workday ws d = Some w ∧
       (ws = [] → w = d) ∧ (ws ≠ [] → w ∈ ws).
Proof.
  destruct (decide (ws = [])) as [->|Hne].
  { exists d. by split_and!. }
  rewrite nearest_workday_nonempty by done.
  destruct (head ws) as [f|] eqn:Hhead; [|by apply head_None in Hhead].
  destruct (last ws) as [l|] eqn:Hlast; [|by apply last_None in Hlast].
  change (getitem ws 0) with (getitem ws (Z.of_nat 0)).
  rewrite getitem_nonneg, <- head_lookup, Hhead. simpl.
  pose proof Hhead as Hf0. rewrite head_lookup in Hf0.
  pose proof Hlast as Hl0. rewrite last_lookup in Hl0.
  assert (0 < length ws)%nat as Hlen by (destruct ws; [done|simpl; lia]).
  case_decide as Hf.
  { exists f. split_and!; [done..|]. intros _. by eapply list_elem_of_lookup_2. }
  rewrite getitem_last, Hlast. simpl.
  case_decide as Hd.
  { exists l. split_and!; [done..|]. intros _. by eapply list_elem_of_lookup_2. }
  destruct (bisect_loop_edges ws d 0 (length ws) ltac:(lia)) as (Hr & Hlo & Hhi).
  fold (bisect_left ws d) in Hr, Hlo, Hhi.
  set (i := bisect_left ws d) in *.
  assert (0 < i)%nat as Hi0.
  { destruct (decide (i = 0%nat)) as [Hi|]; [|lia].
    destruct Hhi as [Hhi|(v & Hv & Hxv)]; [lia|].
    rewrite Hi, Hf0 in Hv. injection Hv as <-. lia. }
  assert (i < length ws)%nat as Hi1.
  { destruct (decide (i = length ws)) as [Hi|]; [|lia].
    destruct Hlo as [Hlo|(v & Hv & Hxv)]; [lia|].
    rewrite Hi in Hv. replace (length ws - 1)%nat with (pred (length ws)) in Hv by lia.
    rewrite Hl0 in Hv. injection Hv as <-. lia. }
  replace (Z.of_nat i - 1) with (Z.of_nat (i - 1)) by lia.
  rewrite !getitem_nonneg.
  destruct (lookup_lt_is_Some_2 ws (i - 1)) as [b Hb]; [lia|].
  destruct (lookup_lt_is_Some_2 ws i) as [a Ha]; [lia|].
  rewrite Hb, Ha. simpl.
  case_decide.
  - exists b. split_and!; [done..|]. intros _. by eapply list_elem_of_lookup_2.
  - exists a. split_and!; [done..|]. intros _. by eapply list_elem_of_lookup_2.
Qed.

(** X2: on an ascending calendar [nearest_workday] returns a workday of
    least day distance to the date, and the earliest of those. *)
Theorem nearest_workday_closest (ws : list Z) (d : Z) :
  StronglySorted Z.le ws → ws ≠ [] →
  ∃ w, nearest_workday ws d = Some w ∧ w ∈ ws ∧
       ∀ w', w' ∈ ws →
             Z.abs (w - d) <= Z.abs (w' - d) ∧
             (Z.abs (w - d) = Z.abs (w' - d) → w <= w').
Proof.
  intros Hs Hne.
  destruct (nearest_workday_correct ws d Hs Hne) as (w & Hw & Hspec & Hin).
  exists w. split_and!; [done..|].
  by apply nearest_spec_closest.
Qed.

Lemma nearest_workday_closest_witness :
  ∃ w, nearest_workday [10; 14; 20] 12 = Some w ∧ w ∈ [10; 14; 20] ∧
       ∀ w', w' ∈ [10; 14; 20] →
             Z.abs (w - 12) <= Z.abs (w' - 12) ∧
             (Z.abs (w - 12) = Z.abs (w' - 12) → w <= w').
Proof.
  apply (nearest_workday_closest [10; 14; 20] 12).
  - repeat (constructor; [|repeat constructor; lia]). constructor.
  - discriminate.
Defined.

(** X3: on an ascending calendar a workday is its own nearest workday. *)
Theorem nearest_workday_fixes_workdays (ws : list Z) (w : Z) :
  StronglySorted Z.le ws → w ∈ ws → nearest_workday ws w = Some w.
Proof.
  intros Hs Hin.
  assert (ws ≠ []) as Hne by (intros ->; by apply elem_of_nil in Hin).
  destruct (nearest_workday_correct ws w Hs Hne) as (w0 & Hw & Hspec & Hin0).
  destruct (nearest_spec_closest ws w w0 Hs Hspec w Hin) as [Hle _].
  assert (w0 = w) as -> by lia. done.
Qed.

Lemma nearest_workday_fixes_workdays_witness :
  nearest_workday [10; 14; 20] 14 = Some 14.
Proof.
  apply (nearest_workday_fixes_workdays [10; 14; 20] 14).
  - repeat (constructor; [|repeat constructor; lia]). constructor.
  - set_solver.
Defined.

(** The due date as an index computation, for any ascending calendar. *)
Lemma delivery_date_index (ws : list Z) (d n : Z) :
  StronglySorted Z.le ws → ws ≠ [] → 0 <= n →
  ∃ s i, nearest_workday ws d = Some s ∧ i = searchsorted_left ws s ∧
         ws !! i = Some s ∧
         delivery_date_from_shortage ws d n
         = ws !! Z.to_nat (Z.max 0 (Z.of_nat i - n)).
Proof.
  intros Hs Hne Hn.
  destruct (nearest_workday_correct ws d Hs Hne) as (w & Hw & Hspec & Hin).
  destruct (searchsorted_index ws w Hs Hin) as [Hi _].
  exists w, (searchsorted_left ws w). split_and!; [done..|].
  unfold delivery_date_from_shortage. rewrite Hw. simpl.
  pose proof (lookup_lt_Some _ _ _ Hi).
  rewrite <- getitem_nonneg. f_equal. lia.
Qed.

(** X4: on an ascending calendar and for a lead [n >= 0] the due date
    exists, is a workday, is not after the snapped shortage day, and is that
    day itself when the lead is 0. *)
Theorem delivery_date_not_after_snap (ws : list Z) (d n : Z) :
  StronglySorted Z.le ws → ws ≠ [] → 0 <= n →
  ∃ s r, nearest_workday ws d = Some s ∧
         delivery_date_from_shortage ws d n = Some r ∧
         r ∈ ws ∧ r <= s ∧ (n = 0 → r = s).
Proof.
  intros Hs Hne Hn.
  destruct (delivery_date_index ws d n Hs Hne Hn)
    as (s & i & Hs' & _ & Hi & ->).
  pose proof (lookup_lt_Some _ _ _ Hi) as Hlen.
  set (k := Z.to_nat (Z.max 0 (Z.of_nat i - n))).
  destruct (lookup_lt_is_Some_2 ws k) as [r Hr]; [lia|].
  exists s, r. split_and!; [done..| | |].
  - by eapply list_elem_of_lookup_2.
  - apply (sorted_lookup_le ws k i r s Hs); [lia|done..].
  - intros ->. assert (k = i) as Hk by lia. rewrite Hk in Hr. congruence.
Qed.

Lemma delivery_date_not_after_snap_witness :
  ∃ s r, nearest_workday [1; 2; 3; 6; 7; 8] 5 = Some s ∧
         delivery_date_from_shortage [1; 2; 3; 6; 7; 8] 5 2 = Some r ∧
         r ∈ [1; 2; 3; 6; 7; 8] ∧ r <= s ∧ (2 = 0 → r = s).
Proof.
  apply (delivery_date_not_after_snap [1; 2; 3; 6; 7; 8] 5 2).
  - repeat (constructor; [|repeat constructor; lia]). constructor.
  - discriminate.
  - lia.
Defined.

(** X5: a longer lead never gives a later due date. *)
Theorem delivery_date_antitone (ws : list Z) (d n n' : Z) :
  StronglySorted Z.le ws → ws ≠ [] → 0 <= n → n <= n' →
  ∃ r r', delivery_date_from_shortage ws d n = Some r ∧
          delivery_date_from_shortage ws d n' = Some r' ∧ r' <= r.
Proof.
  intros Hs Hne Hn Hn'.
  destruct (delivery_date_index ws d n Hs Hne Hn)
    as (s & i & Hs1 & Hi0 & Hi & ->).
  destruct (delivery_date_index ws d n' Hs Hne ltac:(lia))
    as (s' & i' & Hs2 & Hi0' & Hi' & ->).
  assert (s' = s) as -> by congruence.
  assert (i' = i) as -> by congruence.
  pose proof (lookup_lt_Some _ _ _ Hi) as Hlen.
  set (k := Z.to_nat (Z.max 0 (Z.of_nat i - n))).
  set (k' := Z.to_nat (Z.max 0 (Z.of_nat i - n'))).
  destruct (lookup_lt_is_Some_2 ws k) as [r Hr]; [lia|].
  destruct (lookup_lt_is_Some_2 ws k') as [r' Hr']; [lia|].
  exists r, r'. split_and!; [done..|].
  apply (sorted_lookup_le ws k' k r' r Hs); [lia|done..].
Qed.

Lemma delivery_date_antitone_witness :
  ∃ r r', delivery_date_from_shortage [1; 2; 3; 6; 7; 8] 5 1 = Some r ∧
          delivery_date_from_shortage [1; 2; 3; 6; 7; 8] 5 3 = Some r' ∧
          r' <= r.
Proof.
  apply (delivery_date_antitone [1; 2; 3; 6; 7; 8] 5 1 3).
  - repeat (constructor; [|repeat constructor; lia]). constructor.
  - discriminate.
  - lia.
  - lia.
Defined.

End CalendarMore.

(** ** Shortage detector and report rows *)

Module ShortageMore.
Import Py PyFacts Shortage ShortageProofs Calendar CalendarProofs Report.

Lemma cum_through_all (dem : list (Z * Z)) (k : nat) :
  (length dem <= S k)%nat → cum_through dem k = Zsum (snd <$> dem).
Proof. intros H. unfold cum_through. by rewrite take_ge. Qed.

Lemma Zsum_nonneg (l : list Z) : (∀ x, x ∈ l → 0 <= x) → 0 <= Zsum l.
Proof.
  induction l as [|x l IH]; intros H; [done|]. rewrite Zsum_cons.
  assert (0 <= x) by (apply H; left).
  assert (0 <= Zsum l) by (apply IH; intros y Hy; apply H; by right). lia.
Qed.

(** With non-negative daily demand the running total never exceeds the
    total of the horizon. *)
Lemma cum_through_le_total (dem : list (Z * Z)) (k : nat) :
  (∀ x, x ∈ dem → 0 <= x.2) → cum_through dem k <= Zsum (snd <$> dem).
Proof.
  intros Hnn. unfold cum_through.
  rewrite <- (take_drop (S k) dem) at 2. rewrite fmap_app, Zsum_app.
  assert (0 <= Zsum (snd <$> drop (S k) dem)); [|lia].
  apply Zsum_nonneg. intros q (x & -> & Hx)%list_elem_of_fmap.
  apply Hnn. rewrite <- (take_drop (S k) dem), elem_of_app. by right.
Qed.

(** X6: when the row has at least one date column and the shortage
    quantity is not positive, a shortage date is recorded; so every row the
    report keeps (不足数 < 0) has a 欠品日. *)
Theorem shortage_date_present (req_row : gmap string Z) (inv : Z)
    (date_colnames : list string) (date_cols : list Z) :
  daily_demand req_row date_colnames date_cols ≠ [] →
  (compute_shortage req_row inv date_colnames date_cols).2 <= 0 →
  ∃ d, (compute_shortage req_row inv date_colnames date_cols).1 = Some d.
Proof.
  unfold compute_shortage, daily_demand. cbn [fst snd].
  set (l := zip date_cols date_colnames). intros Hne Hq.
  destruct (shortage_fold_date req_row inv l 0) as (_ & HN).
  rewrite shortage_fold_cum in Hq. cbn [fst] in Hq.
  destruct ((foldl (shortage_step req_row inv) (0, None) l).2) as [d|];
    [by exists d|].
  exfalso. assert (0 < length (dem_of req_row l))%nat as Hlen
    by (destruct (dem_of req_row l); [done|cbn; lia]).
  pose proof (proj1 HN eq_refl (pred (length (dem_of req_row l)))
                ltac:(lia)) as Hk.
  rewrite cum_through_all in Hk by lia. lia.
Qed.

Lemma shortage_date_present_witness :
  ∃ d, (compute_shortage {[ "d1" := 40; "d2" := 70 ]} 100
                         ["d1"; "d2"] [1; 2]).1 = Some d.
Proof.
  apply (shortage_date_present {[ "d1" := 40; "d2" := 70 ]} 100
                               ["d1"; "d2"] [1; 2]).
  - vm_compute. discriminate.
  - vm_compute. discriminate.
Defined.

(** X7: with non-negative daily demand a recorded shortage date means a
    shortage quantity that is not positive: the deficit of the first
    shortfall day is never made good later. *)
Theorem shortage_qty_nonpositive (req_row : gmap string Z) (inv : Z)
    (date_colnames : list string) (date_cols : list Z) (d : Z) :
  (∀ x, x ∈ daily_demand req_row date_colnames date_cols → 0 <= x.2) →
  (compute_shortage req_row inv date_colnames date_cols).1 = Some d →
  (compute_shortage req_row inv date_colnames date_cols).2 <= 0.
Proof.
  unfold compute_shortage, daily_demand. cbn [fst snd].
  set (l := zip date_cols date_colnames). intros Hnn Hd.
  destruct (shortage_fold_date req_row inv l 0) as (HS & _).
  apply HS in Hd as (k & Hk & Hle & _).
  rewrite shortage_fold_cum. cbn [fst].
  pose proof (cum_through_le_total (dem_of req_row l) k Hnn). lia.
Qed.

Lemma shortage_qty_nonpositive_witness :
  (compute_shortage {[ "d1" := 40; "d2" := 70 ]} 100 ["d1"; "d2"] [1; 2]).2
  <= 0.
Proof.
  apply (shortage_qty_nonpositive {[ "d1" := 40; "d2" := 70 ]} 100
                                  ["d1"; "d2"] [1; 2] 2).
  - intros x Hx. vm_compute in Hx.
    repeat (apply elem_of_cons in Hx as [->|Hx]; [vm_compute; discriminate|]).
    by apply elem_of_nil in Hx.
  - vm_compute. reflexivity.
Defined.

(** Below a bound a decidable property either never holds or has a least
    index at which it holds. *)
Lemma least_below (P : nat → Prop) `{∀ n, Decision (P n)} (n : nat) :
  (∀ j, (j < n)%nat → ¬ P j) ∨
  (∃ k, (k < n)%nat ∧ P k ∧ ∀ j, (j < k)%nat → ¬ P j).
Proof.
  induction n as [|n [IH|(k & Hk & HP & Hfirst)]].
  - left. intros j Hj. lia.
  - destruct (decide (P n)) as [HP|HP].
    + right. exists n. split_and!; [lia|done|]. intros j Hj. by apply IH.
    + left. intros j Hj. destruct (decide (j = n)) as [->|]; [done|].
      apply IH. lia.
  - right. exists k. split_and!; [lia|done..].
Qed.

(** The dates of the daily demand are the first date columns. *)
Lemma daily_demand_date (req_row : gmap string Z)
    (date_colnames : list string) (date_cols : list Z) (k : nat) (d : Z) :
  fst <$> daily_demand req_row date_colnames date_cols !! k = Some d →
  date_cols !! k = Some d.
Proof.
  unfold daily_demand, dem_of. rewrite list_lookup_fmap.
  destruct (zip date_cols date_colnames !! k) as [[d' c]|] eqn:Hz; [|done].
  cbn. intros [= <-].
  apply lookup_zip_with_Some in Hz as (x & y & [= <- <-] & Hx & _). done.
Qed.

(** X8: more available quantity, same demand: the shortage quantity does
    not fall, a part without a shortage date stays without one, and a
    shortage date that is still reported is the date of a column that is
    not before the column of the earlier report; with ascending date
    columns the date itself is not earlier. *)
Theorem shortage_monotone (req_row : gmap string Z) (inv inv' : Z)
    (date_colnames : list string) (date_cols : list Z) :
  inv <= inv' →
  let demand := daily_demand req_row date_colnames date_cols in
  let r := compute_shortage req_row inv date_colnames date_cols in
  let r' := compute_shortage req_row inv' date_colnames date_cols in
  r.2 <= r'.2 ∧
  (r.1 = None → r'.1 = None) ∧
  (∀ d', r'.1 = Some d' →
         ∃ d k k', r.1 = Some d ∧ (k <= k')%nat ∧
                   first_shortfall inv demand k ∧
                   date_cols !! k = Some d ∧
                   first_shortfall inv' demand k' ∧
                   date_cols !! k' = Some d') ∧
  (StronglySorted Z.le date_cols →
   ∀ d d', r.1 = Some d → r'.1 = Some d' → d <= d').
Proof.
  intros Hle. cbv zeta.
  assert (Hdates : ∀ d', (compute_shortage req_row inv' date_colnames
                            date_cols).1 = Some d' →
            ∃ d k k', (compute_shortage req_row inv date_colnames
                         date_cols).1 = Some d ∧ (k <= k')%nat ∧
              first_shortfall inv
                (daily_demand req_row date_colnames date_cols) k ∧
              date_cols !! k = Some d ∧
              first_shortfall inv'
                (daily_demand req_row date_colnames date_cols) k' ∧
              date_cols !! k' = Some d').
  { intros d'. unfold compute_shortage. cbn [fst snd].
    pose proof (daily_demand_date req_row date_colnames date_cols) as Hdate.
    unfold daily_demand in *.
    set (l := zip date_cols date_colnames) in *.
    destruct (shortage_fold_date req_row inv l 0) as (HS & _).
    destruct (shortage_fold_date req_row inv' l 0) as (HS' & _).
    intros (k' & Hk' & Hle' & Hfirst' & Hd')%HS'.
    destruct (least_below
                (λ j, inv - cum_through (dem_of req_row l) j <= 0) (S k'))
      as [Hnone|(k & Hk & Hkle & Hfirst)].
    { exfalso. apply (Hnone k'); lia. }
    destruct (lookup_lt_is_Some_2 (dem_of req_row l) k) as [[d q] Hdk];
      [lia|].
    exists d, k, k'. split_and!.
    - apply HS. exists k. rewrite Hdk. split_and!; [lia|lia| |done].
      intros j Hj. specialize (Hfirst j Hj). lia.
    - lia.
    - split_and!; [lia|done|]. intros j Hj. specialize (Hfirst j Hj). lia.
    - apply Hdate. by rewrite Hdk.
    - split_and!; [done|lia|]. intros j Hj. specialize (Hfirst' j Hj). lia.
    - by apply Hdate. }
  split_and!.
  - unfold compute_shortage. cbn [fst snd]. rewrite !shortage_fold_cum.
    cbn [fst]. lia.
  - unfold compute_shortage. cbn [fst snd].
    destruct (shortage_fold_date req_row inv
                (zip date_cols date_colnames) 0) as (_ & HN).
    destruct (shortage_fold_date req_row inv'
                (zip date_cols date_colnames) 0) as (_ & HN').
    rewrite HN, HN'. intros H k Hk. specialize (H k Hk). lia.
  - exact Hdates.
  - intros Hsorted d d' Hd Hd'.
    destruct (Hdates d' Hd') as (d0 & k & k' & Hd0 & Hkk & _ & Hk & _ & Hk').
    assert (d0 = d) as -> by congruence.
    apply (sorted_lookup_le date_cols k k' d d' Hsorted); [lia|done..].
Qed.

Lemma shortage_monotone_witness :
  let demand := daily_demand {[ "d1" := 40; "d2" := 70 ]} ["d1"; "d2"] [1; 2] in
  let r := compute_shortage {[ "d1" := 40; "d2" := 70 ]} 30 ["d1"; "d2"] [1; 2] in
  let r' := compute_shortage {[ "d1" := 40; "d2" := 70 ]} 100 ["d1"; "d2"] [1; 2] in
  r.2 <= r'.2 ∧
  (r.1 = None → r'.1 = None) ∧
  (∀ d', r'.1 = Some d' →
         ∃ d k k', r.1 = Some d ∧ (k <= k')%nat ∧
                   first_shortfall 30 demand k ∧
                   [1; 2] !! k = Some d ∧
                   first_shortfall 100 demand k' ∧
                   [1; 2] !! k' = Some d') ∧
  (StronglySorted Z.le [1; 2] →
   ∀ d d', r.1 = Some d → r'.1 = Some d' → d <= d').
Proof.
  apply (shortage_monotone {[ "d1" := 40; "d2" := 70 ]} 30 100
                           ["d1"; "d2"] [1; 2]).
  lia.
Defined.

End ShortageMore.

(** ** Report rows *)

Module ReportMore.
Import Py PyFacts Shortage Calendar CalendarProofs CalendarMore Report.

Lemma delivery_date_some (ws : list Z) (d n : Z) :
  StronglySorted Z.le ws → ws ≠ [] → 0 <= n →
  ∃ r, delivery_date_from_shortage ws d n = Some r ∧ r ∈ ws.
Proof.
  intros Hs Hne Hn.
  destruct (delivery_date_index ws d n Hs Hne Hn) as (s & i & _ & _ & Hi & ->).
  pose proof (lookup_lt_Some _ _ _ Hi).
  destruct (lookup_lt_is_Some_2 ws (Z.to_nat (Z.max 0 (Z.of_nat i - n))))
    as [r Hr]; [lia|].
  exists r. split; [done|]. by eapply list_elem_of_lookup_2.
Qed.

(** X9: on an ascending calendar the loop body of [main] raises exactly
    when the calendar is empty and the row has a shortage date; a run over
    an empty calendar therefore fails as soon as one part runs short. *)
Theorem report_row_raises_iff (workdays : list Z) (today : Z)
    (r : base_row) (req_row : gmap string Z) (date_colnames : list string)
    (date_cols : list Z) :
  StronglySorted Z.le workdays →
  (report_row workdays today r req_row date_colnames date_cols = None ↔
   workdays = [] ∧
   ∃ d, (shortage_of_row r req_row date_colnames date_cols).1 = Some d).
Proof.
  intros Hs. unfold report_row.
  destruct ((shortage_of_row r req_row date_colnames date_cols).1)
    as [sd|] eqn:Hsd.
  - destruct (decide (workdays = [])) as [->|Hne].
    + unfold delivery_date_from_shortage. simpl. rewrite getitem_nil. simpl.
      split; [eauto|done].
    + destruct (delivery_date_some workdays sd 5 Hs Hne ltac:(lia))
        as (due & -> & _). simpl. split; [done|]. by intros [? _].
  - split; [done|]. by intros (_ & d & ?).
Qed.

Lemma report_row_raises_iff_witness :
  report_row [] 10 (make_base_row {[ "P" := 5 ]} ∅ ∅ "P")
             {[ "d1" := 7 ]} ["d1"] [12] = None ↔
  @nil Z = [] ∧
  ∃ d, (shortage_of_row (make_base_row {[ "P" := 5 ]} ∅ ∅ "P")
                        {[ "d1" := 7 ]} ["d1"] [12]).1 = Some d.
Proof.
  apply (report_row_raises_iff [] 10 (make_base_row {[ "P" := 5 ]} ∅ ∅ "P")
                               {[ "d1" := 7 ]} ["d1"] [12]).
  constructor.
Defined.

(** X10: on a non-empty ascending calendar the loop body completes; a row
    without a shortage date has no due date, and a due date is never before
    today: it is today or a workday. *)
Theorem report_row_due (workdays : list Z) (today : Z)
    (r : base_row) (req_row : gmap string Z) (date_colnames : list string)
    (date_cols : list Z) :
  StronglySorted Z.le workdays → workdays ≠ [] →
  ∃ row, report_row workdays today r req_row date_colnames date_cols
         = Some row ∧
         row.2 = (shortage_of_row r req_row date_colnames date_cols).2 ∧
         row.1.1 = (shortage_of_row r req_row date_colnames date_cols).1 ∧
         (row.1.1 = None ↔ row.1.2 = None) ∧
         ∀ due, row.1.2 = Some due →
                today <= due ∧ (due = today ∨ due ∈ workdays).
Proof.
  intros Hs Hne. unfold report_row.
  destruct ((shortage_of_row r req_row date_colnames date_cols).1)
    as [sd|] eqn:Hsd.
  - destruct (delivery_date_some workdays sd 5 Hs Hne ltac:(lia))
      as (due & -> & Hin). simpl. eexists. split; [done|]. cbn [fst snd].
    split_and!; [done..| |].
    + split; discriminate.
    + intros due' [= <-]. case_decide; [split; [lia|by left]|].
      split; [lia|by right].
  - eexists. split; [done|]. cbn [fst snd]. split_and!; [done..|].
    intros due' [=].
Qed.

Lemma report_row_due_witness :
  ∃ row, report_row [1; 2; 3; 6; 7; 8] 4
           (make_base_row {[ "P" := 5 ]} ∅ ∅ "P") {[ "d1" := 7 ]} ["d1"] [7]
         = Some row ∧
         row.2 = (shortage_of_row (make_base_row {[ "P" := 5 ]} ∅ ∅ "P")
                                  {[ "d1" := 7 ]} ["d1"] [7]).2 ∧
         row.1.1 = (shortage_of_row (make_base_row {[ "P" := 5 ]} ∅ ∅ "P")
                                    {[ "d1" := 7 ]} ["d1"] [7]).1 ∧
         (row.1.1 = None ↔ row.1.2 = None) ∧
         ∀ due, row.1.2 = Some due →
                4 <= due ∧ (due = 4 ∨ due ∈ [1; 2; 3; 6; 7; 8]).
Proof.
  apply (report_row_due [1; 2; 3; 6; 7; 8] 4
           (make_base_row {[ "P" := 5 ]} ∅ ∅ "P") {[ "d1" := 7 ]} ["d1"] [7]).
  - repeat (constructor; [|repeat constructor; lia]). constructor.
  - discriminate.
Defined.

End ReportMore.

(** ** Chunked queries and grouped sums *)

Module FrameMore.
Import Py PyFacts Frame FrameProofs Reconciler.

Lemma chunked_from_spec {A} (fuel : nat) (lst : list A) (size : nat) :
  (0 < size)%nat → (length lst <= fuel)%nat →
  concat (chunked_from fuel lst size) = lst ∧
  Forall (λ c, (0 < length c <= size)%nat) (chunked_from fuel lst size).
Proof.
  intros Hsize. revert lst. induction fuel as [|fuel IH]; intros lst Hlen.
  - destruct lst; [done|simpl in Hlen; lia].
  - destruct lst as [|x lst]; [done|]. cbn [chunked_from].
    destruct (IH (drop size (x :: lst))) as [Hc Hf].
    { rewrite length_drop. simpl in *. lia. }
    split.
    + cbn [concat]. rewrite Hc. apply take_drop.
    + constructor; [|done]. rewrite length_take. simpl. lia.
Qed.

(** X11: for a positive chunk size [chunked_list] cuts the list into
    consecutive non-empty pieces of at most that size; joined again they
    give the list back. *)
Theorem chunked_list_concat {A} (lst : list A) (size : nat) :
  (0 < size)%nat →
  concat (chunked_list lst size) = lst ∧
  Forall (λ c, (0 < length c <= size)%nat) (chunked_list lst size).
Proof. intros H. by apply chunked_from_spec. Qed.

Lemma chunked_list_concat_witness :
  concat (chunked_list [1; 2; 3; 4; 5] 2) = [1; 2; 3; 4; 5] ∧
  Forall (λ c, (0 < length c <= 2)%nat) (chunked_list [1; 2; 3; 4; 5] 2).
Proof. apply (chunked_list_concat [1; 2; 3; 4; 5] 2). lia. Defined.

Lemma filter_or_disjoint {A} (P Q : A → Prop) `{∀ x, Decision (P x)}
    `{∀ x, Decision (Q x)} (l : list A) :
  (∀ x, P x → Q x → False) →
  filter (λ x, P x ∨ Q x) l ≡ₚ filter P l ++ filter Q l.
Proof.
  intros Hdis. induction l as [|x l IH]; [done|].
  rewrite !filter_cons.
  destruct (decide (P x)) as [HP|HP], (decide (Q x)) as [HQ|HQ].
  - destruct (Hdis x HP HQ).
  - rewrite decide_True by tauto. cbn. by rewrite IH.
  - rewrite decide_True by tauto. rewrite IH. apply Permutation_middle.
  - rewrite decide_False by tauto. done.
Qed.

(** Querying chunk by chunk is querying for all the numbers at once, when
    no number is listed twice. *)
Lemma fetch_chunks_perm {T} (pdno : T → Z) (table : list T)
    (chunks : list (list Z)) :
  NoDup (concat chunks) →
  fetch_chunks pdno table chunks
  ≡ₚ filter (λ r, pdno r ∈ concat chunks) table.
Proof.
  unfold fetch_chunks. induction chunks as [|c chunks IH]; intros Hnd.
  - cbn. rewrite ReconcilerProofs.filter_nil_intro; [done|]. intros x _ Hx.
    by apply elem_of_nil in Hx.
  - cbn [concat] in *. apply NoDup_app in Hnd as (Hc & Hdis & Hrest).
    rewrite bind_cons, IH by done.
    rewrite <- filter_or_disjoint by (intros x; apply Hdis).
    erewrite list_filter_iff; [done|]. intros x. cbn beta.
    rewrite elem_of_app. tauto.
Qed.

Lemma chunked_list_unchunk (pdnos : list Z) :
  concat (chunked_list pdnos chunksize) = pdnos ∧
  Forall (λ c, (0 < length c <= chunksize)%nat) (chunked_list pdnos chunksize).
Proof. apply chunked_from_spec; [unfold chunksize; lia|done]. Qed.

(** X12: the chunked query of [load_paintable] fetches every purchase line
    whose order number is an order number of [mfg_orders] exactly once, and
    no other line; the same holds for the receipts. *)
Theorem fetch_chunks_complete {T} (pdno : T → Z) (table : list T)
    (mfg_orders : list Mfg.row) :
  fetch_chunks pdno table (chunked_list (pdnos_of mfg_orders) chunksize)
  ≡ₚ filter (λ r, Some (pdno r) ∈ Mfg.PDNO <$> mfg_orders) table.
Proof.
  destruct (chunked_list_unchunk (pdnos_of mfg_orders)) as [Hc _].
  rewrite fetch_chunks_perm; rewrite Hc; [|apply NoDup_unique].
  erewrite list_filter_iff; [done|]. intros x. cbn beta.
  unfold pdnos_of. rewrite elem_of_unique, list_elem_of_omap, list_elem_of_fmap.
  split.
  - intros (o & Ho & Hpd). eauto.
  - intros (o & Hpd & Ho). eauto.
Qed.

Section GroupTotals.
Context {K R : Type} `{EqDecision K}.

Lemma group_add_total (f : R → Z) (k : K) (r : R) (gs : list (K * list R)) :
  Zsum ((λ g : K * list R, Zsum (f <$> g.2)) <$> group_add k r gs)
  = Zsum ((λ g : K * list R, Zsum (f <$> g.2)) <$> gs) + f r.
Proof.
  induction gs as [|g gs IH]; cbn [group_add].
  - cbn. lia.
  - case_decide.
    + rewrite !fmap_cons, !Zsum_cons. cbn [snd].
      rewrite fmap_app, Zsum_app. cbn. lia.
    + rewrite !fmap_cons, !Zsum_cons, IH. lia.
Qed.

(** Grouping and summing per group neither loses nor repeats a quantity. *)
Lemma groupby_total (f : R → Z) (key : R → K) (rows : list R) :
  Zsum ((λ g : K * list R, Zsum (f <$> g.2)) <$> groupby key rows)
  = Zsum (f <$> rows).
Proof.
  induction rows as [|r rows IH] using rev_ind; [done|].
  rewrite groupby_snoc, group_add_total, IH, fmap_app, Zsum_app. cbn. lia.
Qed.

(** The keys of an aggregated [groupby]: the distinct keys of the rows. *)
Lemma groupby_keys {V} (h : list R → V) (key : R → K) (rows : list R) :
  fst <$> ((λ g : K * list R, (g.1, h g.2)) <$> groupby key rows)
  = unique (key <$> rows).
Proof.
  rewrite groupby_eq, <- !list_fmap_compose. cbn. apply list_fmap_id.
Qed.

End GroupTotals.

Section MergeMembers.
Context {L R K : Type} `{EqDecision K}.

(** A left merge keeps every left row and invents none. *)
Lemma elem_of_merge_left_fst (kl : L → K) (kr : R → K) (left : list L)
    (right : list R) (l : L) :
  l ∈ fst <$> merge_left kl kr left right ↔ l ∈ left.
Proof.
  induction left as [|l0 left IH].
  - cbn. split; intros H; by apply elem_of_nil in H.
  - rewrite merge_left_cons, fmap_app, elem_of_app, IH, elem_of_cons.
    assert (l ∈ fst <$> match filter (λ r, kr r = kl l0) right with
                        | [] => [(l0, None)]
                        | rs => (λ r, (l0, Some r)) <$> rs
                        end ↔ l = l0) as ->; [|done].
    destruct (filter (λ r, kr r = kl l0) right) as [|r rs].
    + cbn. by rewrite list_elem_of_singleton.
    + rewrite <- list_fmap_compose, list_elem_of_fmap. split.
      * by intros (x & -> & _).
      * intros ->. exists r. split; [done|left].
Qed.

End MergeMembers.

End FrameMore.

(** ** Open-order reconciler, further *)

Module ReconcilerMore.
Import Py PyFacts Frame FrameProofs FrameMore Reconciler ReconcilerProofs.

(** The part keys of the grouped frame are those of the order lines. *)
Lemma paintable_groups_keys (p041 : list Pur041.raw) (p045 : list Pur045.raw)
    (mfg_orders : list Mfg.row) :
  g_MITM_N <$> paintable_groups p041 p045 mfg_orders
  = unique ((λ x : Mfg.row * option Pur041.row, Mfg.MITM_N x.1)
            <$> join_041 mfg_orders (unify_041 <$> p041)).
Proof.
  unfold paintable_groups.
  rewrite aggregate_eq, <- list_fmap_compose, MITM_N_join_045.
  apply list_fmap_id.
Qed.

Lemma join_041_parts (mfg_orders : list Mfg.row) (p041 : list Pur041.row)
    (k : string) :
  k ∈ (λ x : Mfg.row * option Pur041.row, Mfg.MITM_N x.1)
      <$> join_041 mfg_orders p041
  ↔ k ∈ Mfg.MITM_N <$> mfg_orders.
Proof.
  assert ((λ x : Mfg.row * option Pur041.row, Mfg.MITM_N x.1)
          <$> join_041 mfg_orders p041
          = Mfg.MITM_N <$> (fst <$> join_041 mfg_orders p041)) as ->
    by (by rewrite <- list_fmap_compose).
  rewrite !list_elem_of_fmap.
  unfold join_041. by setoid_rewrite elem_of_merge_left_fst.
Qed.

(** X13: [load_paintable] returns at most one row per part, only for parts
    that have an order line, never a negative 着手可; and when some order
    carries an order number it returns a row for every such part. *)
Theorem load_paintable_rows (t041 : list Pur041.raw) (t045 : list Pur045.raw)
    (mfg_orders : list Mfg.row) :
  NoDup (fst <$> load_paintable t041 t045 mfg_orders) ∧
  (∀ k v, (k, v) ∈ load_paintable t041 t045 mfg_orders →
          0 <= v ∧ k ∈ Mfg.MITM_N <$> mfg_orders) ∧
  (pdnos_of mfg_orders ≠ [] →
   ∀ k, k ∈ Mfg.MITM_N <$> mfg_orders →
        k ∈ fst <$> load_paintable t041 t045 mfg_orders).
Proof.
  destruct (decide (mfg_orders = [])) as [->|Hne].
  { split_and!; [constructor| |done]. intros k v H. by apply elem_of_nil in H. }
  destruct (decide (pdnos_of mfg_orders = [])) as [Hpd|Hpd].
  { assert (load_paintable t041 t045 mfg_orders = []) as ->.
    { unfold load_paintable. destruct mfg_orders; [done|]. by rewrite Hpd. }
    split_and!; [constructor| |done]. intros k v H. by apply elem_of_nil in H. }
  rewrite load_paintable_fetched by done. cbv zeta.
  set (chunks := chunked_list (pdnos_of mfg_orders) chunksize).
  destruct (fetch_chunks Pur041.PDNO t041 chunks) as [|p ps] eqn:Hfetch.
  - rewrite groupby_eq, <- !list_fmap_compose. split_and!.
    + cbn. rewrite list_fmap_id. apply NoDup_unique.
    + intros k v (k' & Heq & Hk)%list_elem_of_fmap.
      cbn in Heq. injection Heq as -> ->.
      split; [lia|]. by rewrite elem_of_unique in Hk.
    + intros _ k Hk. cbn. rewrite list_fmap_id. by apply elem_of_unique.
  - rewrite <- Hfetch. clear p ps Hfetch.
    set (p041 := fetch_chunks Pur041.PDNO t041 chunks).
    set (p045 := fetch_chunks Pur045.PDNO t045 chunks).
    rewrite <- list_fmap_compose.
    assert (Hkeys : fst ∘ (λ g, (g_MITM_N g, 着手可 g))
                    <$> paintable_groups p041 p045 mfg_orders
                    = unique ((λ x : Mfg.row * option Pur041.row,
                                 Mfg.MITM_N x.1)
                              <$> join_041 mfg_orders (unify_041 <$> p041)))
      by apply paintable_groups_keys.
    rewrite Hkeys. split_and!.
    + apply NoDup_unique.
    + intros k v (g & Heq & Hg)%list_elem_of_fmap.
      cbn in Heq. injection Heq as -> ->.
      split; [unfold 着手可; lia|].
      apply (list_elem_of_fmap_2 g_MITM_N) in Hg.
      rewrite paintable_groups_keys, elem_of_unique in Hg.
      by apply join_041_parts in Hg.
    + intros _ k Hk. apply elem_of_unique. by apply join_041_parts.
Qed.

(** X14: when the orders carry an order number and no purchase line of the
    table matches an order line of a part that has one, the part's 着手可 is
    its backlog total clamped at 0, whether other parts have purchase lines
    or not. *)
Theorem startable_without_purchase_lines (t041 : list Pur041.raw)
    (t045 : list Pur045.raw) (mfg_orders : list Mfg.row) (part : string) :
  lines_of mfg_orders part ≠ [] →
  pdnos_of mfg_orders ≠ [] →
  matched_purchases (lines_of mfg_orders part) t041 = [] →
  startable (load_paintable t041 t045 mfg_orders) part
  = Z.max 0 (spec_A mfg_orders part).
Proof. apply startable_unmatched. Qed.

Lemma startable_without_purchase_lines_witness :
  let mfg_orders :=
    [ {| Mfg.PDNO := Some 7; Mfg.OPRO_K := "10"; Mfg.MITM_N := "P";
         Mfg.注残 := 5 |};
      {| Mfg.PDNO := Some 8; Mfg.OPRO_K := "20"; Mfg.MITM_N := "Q";
         Mfg.注残 := -2 |} ] in
  let t041 :=
    [ {| Pur041.PDNO := 7; Pur041.OPNO := Canon.CInt 10; Pur041.PONO := "1";
         Pur041.ORNO := "900"; Pur041.OQUA := Some 3 |} ] in
  startable (load_paintable t041 [] mfg_orders) "Q"
  = Z.max 0 (spec_A mfg_orders "Q").
Proof.
  apply (startable_without_purchase_lines
    [ {| Pur041.PDNO := 7; Pur041.OPNO := Canon.CInt 10; Pur041.PONO := "1";
         Pur041.ORNO := "900"; Pur041.OQUA := Some 3 |} ] []
    [ {| Mfg.PDNO := Some 7; Mfg.OPRO_K := "10"; Mfg.MITM_N := "P";
         Mfg.注残 := 5 |};
      {| Mfg.PDNO := Some 8; Mfg.OPRO_K := "20"; Mfg.MITM_N := "Q";
         Mfg.注残 := -2 |} ] "Q").
  - vm_compute. discriminate.
  - vm_compute. discriminate.
  - vm_compute. reflexivity.
Defined.

(** X15: the backlog column A_注残 of the grouped frame counts the backlog
    of every order line of the part once per purchase line joined to it
    (once when there is none); it is the part's backlog total when no order
    line of the part is joined to two purchase lines. *)
Theorem paintable_A_counts_matches (p041 : list Pur041.raw)
    (p045 : list Pur045.raw) (mfg_orders : list Mfg.row) :
  ∀ g, g ∈ paintable_groups p041 p045 mfg_orders →
    A_注残 g
    = Zsum ((λ o, Mfg.注残 o
                  * Z.max 1 (Z.of_nat (length
                      (matches_041 o (unify_041 <$> p041)))))
            <$> lines_of mfg_orders (g_MITM_N g)) ∧
    ((∀ o, o ∈ lines_of mfg_orders (g_MITM_N g) →
           (length (matches_041 o (unify_041 <$> p041)) <= 1)%nat) →
     A_注残 g = spec_A mfg_orders (g_MITM_N g)).
Proof.
  intros g Hg.
  apply (list_elem_of_fmap_2 (λ g, (g_MITM_N g, A_注残 g, B_OQUA g))) in Hg.
  rewrite paintable_groups_AB in Hg.
  apply list_elem_of_fmap in Hg as (k & Hk & _).
  injection Hk as Hm Ha _. rewrite Ha, Hm. split.
  - apply A_of_join_counts_matches.
  - apply A_of_join_no_fan_out.
Qed.

Lemma paintable_A_counts_matches_witness :
  let mfg_orders := [ {| Mfg.PDNO := Some 7; Mfg.OPRO_K := "10";
                         Mfg.MITM_N := "P"; Mfg.注残 := 5 |} ] in
  let t041 := [ {| Pur041.PDNO := 7; Pur041.OPNO := Canon.CInt 10;
                   Pur041.PONO := "1"; Pur041.ORNO := "900";
                   Pur041.OQUA := Some 2 |} ] in
  let g := {| g_MITM_N := "P"; A_注残 := 5; B_OQUA := 2; C_DQUA := 0 |} in
  g ∈ paintable_groups t041 [] mfg_orders ∧
  A_注残 g = spec_A mfg_orders (g_MITM_N g).
Proof.
  intros mfg_orders t041 g.
  assert (Hg : g ∈ paintable_groups t041 [] mfg_orders)
    by (vm_compute; left).
  split; [exact Hg|].
  apply (paintable_A_counts_matches t041 [] mfg_orders g Hg).
  intros o Ho.
  assert (Hl : lines_of mfg_orders (g_MITM_N g) = mfg_orders)
    by (vm_compute; reflexivity).
  rewrite Hl in Ho. apply list_elem_of_singleton in Ho as ->.
  vm_compute. constructor.
Defined.

Lemma filter_fmap_swap {A B} (g : A → B) (P : B → Prop)
    `{∀ x, Decision (P x)} (l : list A) :
  filter P (g <$> l) = g <$> filter (λ x, P (g x)) l.
Proof.
  induction l as [|x l IH]; [done|]. rewrite fmap_cons, !filter_cons.
  case_decide; [rewrite fmap_cons|]; by rewrite IH.
Qed.

(** X16: [load_mfg_open_orders] keeps the open orders (status below 6) of
    the parts of [mitm_set]; the summary has one row per such part, whose
    注残 is the sum of ordered minus delivered over the part's open orders,
    nulls read as 0 and negative backlog kept as it is. *)
Theorem load_mfg_open_orders_summary (TTISFC001002 : list Sfc.raw)
    (mitm_set : gset string) :
  let df := (load_mfg_open_orders TTISFC001002 mitm_set).1 in
  let zan_sum := (load_mfg_open_orders TTISFC001002 mitm_set).2 in
  let backlog r := default 0 (Sfc.QRDR r) - default 0 (Sfc.QDLV r) in
  length df = length (filter (λ r, Sfc.OSTA r < 6 ∧ Sfc.MITM_N r ∈ mitm_set)
                             TTISFC001002) ∧
  (∀ o, o ∈ df → Mfg.MITM_N o ∈ mitm_set) ∧
  NoDup (fst <$> zan_sum) ∧
  (∀ k, k ∈ fst <$> zan_sum ↔
        k ∈ mitm_set ∧
        ∃ r, r ∈ TTISFC001002 ∧ Sfc.OSTA r < 6 ∧ Sfc.MITM_N r = k) ∧
  (∀ k v, (k, v) ∈ zan_sum →
          v = Zsum (backlog
                    <$> filter (λ r, Sfc.OSTA r < 6 ∧ Sfc.MITM_N r = k)
                               TTISFC001002)) ∧
  Zsum (snd <$> zan_sum) = Zsum (Mfg.注残 <$> df).
Proof.
  cbv zeta. unfold load_mfg_open_orders. cbn [fst snd].
  set (raws := filter (λ r, Sfc.MITM_N r ∈ mitm_set)
                      (filter (λ r, Sfc.OSTA r < 6) TTISFC001002)).
  set (mk := λ r, {| Mfg.PDNO := Sfc.PDNO r;
                     Mfg.OPRO_K := Canon.to_int_str1 (Sfc.OPRO r);
                     Mfg.MITM_N := Sfc.MITM_N r;
                     Mfg.注残 := default 0 (Sfc.QRDR r)
                                 - default 0 (Sfc.QDLV r) |}).
  assert (Hraws : ∀ r, r ∈ raws ↔
            r ∈ TTISFC001002 ∧ Sfc.OSTA r < 6 ∧ Sfc.MITM_N r ∈ mitm_set).
  { intros r. unfold raws. rewrite !list_elem_of_filter. tauto. }
  assert (Hkeys : ∀ k, k ∈ Mfg.MITM_N <$> (mk <$> raws) ↔
            k ∈ mitm_set ∧
            ∃ r, r ∈ TTISFC001002 ∧ Sfc.OSTA r < 6 ∧ Sfc.MITM_N r = k).
  { intros k. rewrite <- list_fmap_compose, list_elem_of_fmap.
    setoid_rewrite Hraws. split.
    - intros (r & -> & ? & ? & ?). eauto.
    - intros (? & r & ? & ? & <-). exists r. eauto. }
  split_and!.
  - rewrite length_fmap. unfold raws. rewrite list_filter_filter.
    f_equal. apply list_filter_iff. intros r. tauto.
  - intros o (r & -> & Hr)%list_elem_of_fmap. apply Hraws in Hr. cbn. tauto.
  - rewrite (groupby_keys (λ rs, Zsum (Mfg.注残 <$> rs))). apply NoDup_unique.
  - intros k. rewrite (groupby_keys (λ rs, Zsum (Mfg.注残 <$> rs))).
    rewrite elem_of_unique. apply Hkeys.
  - intros k v Hin. rewrite groupby_eq, <- list_fmap_compose in Hin.
    apply list_elem_of_fmap in Hin as (k' & Heq & Hk').
    cbn in Heq. injection Heq as -> ->.
    rewrite elem_of_unique in Hk'. apply Hkeys in Hk' as [Hset _].
    change (foldr Z.add 0) with Zsum. f_equal.
    rewrite filter_fmap_swap, <- list_fmap_compose. cbn.
    unfold raws. rewrite !list_filter_filter.
    f_equal. apply list_filter_iff. intros r. naive_solver.
  - rewrite <- list_fmap_compose. apply (groupby_total Mfg.注残).
Qed.

End ReconcilerMore.

(** ** BOM explosion, further *)

Module ExplosionMore.
Import Py PyFacts Frame FrameProofs FrameMore Explosion ExplosionProofs.

(** The rows of the output when some plan entry has a BOM parent: one row
    per child with a demand record, holding the child's demand on each day
    of the horizon. *)
Lemma run_rows (TODAY : Z) (df_sched : list Sched.row)
    (df_bom : list Bom.row) :
  make_records df_sched df_bom ≠ [] →
  rows (run TODAY df_sched df_bom)
  = (λ c, (c, (λ d, demand_spec df_sched df_bom c d) <$> all_days TODAY))
    <$> merge_sort str_le
          (unique ((λ g : (string * Z) * Z, g.1.1)
                   <$> group_needs (concat (make_records df_sched df_bom)))).
Proof.
  intros Hne. rewrite run_nonempty by done.
  set (grouped := group_needs (concat (make_records df_sched df_bom))).
  set (cols := merge_sort Z.le (unique ((λ g, g.1.2) <$> grouped))).
  set (cell := λ c d, Zsum (snd <$> filter (λ g : (string * Z) * Z,
                                              g.1 = (c, d)) grouped)).
  unfold reindex, pivot_table. cbn [rows columns]. fold cols.
  rewrite <- list_fmap_compose. apply list_fmap_ext. intros _ c' _.
  cbn. f_equal. apply list_fmap_ext. intros _ d _.
  transitivity (cell c' d); [|apply pivot_cell].
  apply (reindex_cell cols (cell c') d).
  intros Hd. unfold cell, grouped. rewrite pivot_cell.
  apply demand_spec_no_date.
  intros Hin. apply Hd. unfold cols.
  rewrite merge_sort_Permutation. by apply elem_of_unique.
Qed.

Lemma make_records_nil_iff (df_sched : list Sched.row)
    (df_bom : list Bom.row) :
  make_records df_sched df_bom = [] ↔
  ∀ p, p ∈ df_sched → Sched.Item p ∉ Bom.Item <$> df_bom.
Proof.
  unfold make_records. induction df_sched as [|p l IH].
  - split; [|done]. intros _ p Hp. by apply elem_of_nil in Hp.
  - cbn [omap list_omap]. rewrite explode_row_eq. case_decide as Hp.
    + split; [done|]. intros H. destruct (H p); [left|done].
    + rewrite IH. split.
      * intros H q [->|Hq]%elem_of_cons; [done|by apply H].
      * intros H q Hq. apply H. by right.
Qed.

(** X17: the output has no row and no date column exactly when no plan
    entry's parent has a BOM line; otherwise it has the 61 date columns. *)
Theorem run_empty_iff (TODAY : Z) (df_sched : list Sched.row)
    (df_bom : list Bom.row) :
  (run TODAY df_sched df_bom = {| columns := []; rows := [] |} ↔
   ∀ p, p ∈ df_sched → Sched.Item p ∉ Bom.Item <$> df_bom) ∧
  (run TODAY df_sched df_bom ≠ {| columns := []; rows := [] |} →
   columns (run TODAY df_sched df_bom) = all_days TODAY).
Proof.
  rewrite <- make_records_nil_iff.
  destruct (decide (make_records df_sched df_bom = [])) as [Hnil|Hne].
  - assert (run TODAY df_sched df_bom = {| columns := []; rows := [] |}) as ->
      by (unfold run; by rewrite Hnil).
    split; [done|]. by intros [].
  - rewrite run_nonempty by done. split; [|done].
    split; [|done]. intros Heq. apply (f_equal columns) in Heq.
    cbn in Heq. discriminate.
Qed.

(** X18: the rows of the output are exactly the children that have a demand
    record, each with the series of its demand over the horizon; no child is
    added, and a child's row is all of its quantities. *)
Theorem run_rows_exact (TODAY : Z) (df_sched : list Sched.row)
    (df_bom : list Bom.row) (c : string) (vs : list Z) :
  (c, vs) ∈ rows (run TODAY df_sched df_bom) ↔
  (∃ p b, p ∈ df_sched ∧ b ∈ df_bom ∧ Bom.Item b = Sched.Item p ∧
          Bom.sItem b = c) ∧
  vs = (λ d, demand_spec df_sched df_bom c d) <$> all_days TODAY.
Proof.
  assert (Hchild : (∃ r, r ∈ concat (make_records df_sched df_bom)
                         ∧ Need.sItem r = c) ↔
                   ∃ p b, p ∈ df_sched ∧ b ∈ df_bom ∧
                          Bom.Item b = Sched.Item p ∧ Bom.sItem b = c).
  { setoid_rewrite elem_of_exploded. split.
    - intros (r & (p & b & ? & ? & ? & ->) & <-). eauto 10.
    - intros (p & b & ? & ? & ? & <-). eexists. split; [eauto 10|done]. }
  rewrite <- Hchild. clear Hchild.
  destruct (decide (make_records df_sched df_bom = [])) as [Hnil|Hne].
  - assert (run TODAY df_sched df_bom = {| columns := []; rows := [] |}) as ->
      by (unfold run; by rewrite Hnil).
    rewrite Hnil. cbn. split.
    + intros H. by apply elem_of_nil in H.
    + intros [(r & Hr & _) _]. by apply elem_of_nil in Hr.
  - rewrite run_rows by done. rewrite list_elem_of_fmap.
    setoid_rewrite merge_sort_Permutation. setoid_rewrite elem_of_unique.
    setoid_rewrite children_of_grouped. split.
    + intros (c' & [= -> ->] & Hc). done.
    + intros [Hc ->]. eauto.
Qed.

Lemma demand_spec_nonneg (df_sched : list Sched.row) (df_bom : list Bom.row)
    (c : string) (d : Z) :
  (∀ p, p ∈ df_sched → 0 <= Sched.Qty p) →
  (∀ b, b ∈ df_bom → 0 <= Bom.bomValue b) →
  0 <= demand_spec df_sched df_bom c d.
Proof.
  intros Hq Hb. unfold demand_spec. apply ShortageMore.Zsum_nonneg. intros x Hx.
  apply list_elem_of_bind in Hx as (p & Hx & Hp).
  apply list_elem_of_bind in Hx as (b & Hx & Hbin).
  apply list_elem_of_singleton in Hx as ->.
  apply list_elem_of_filter in Hp as [_ Hp].
  apply list_elem_of_filter in Hbin as [_ Hbin].
  specialize (Hq p Hp). specialize (Hb b Hbin). lia.
Qed.

(** X19: when no planned quantity and no BOM quantity is negative, no
    quantity of the output is negative. *)
Theorem run_cells_nonneg (TODAY : Z) (df_sched : list Sched.row)
    (df_bom : list Bom.row) :
  (∀ p, p ∈ df_sched → 0 <= Sched.Qty p) →
  (∀ b, b ∈ df_bom → 0 <= Bom.bomValue b) →
  ∀ c vs v, (c, vs) ∈ rows (run TODAY df_sched df_bom) → v ∈ vs → 0 <= v.
Proof.
  intros Hq Hb c vs v Hrow Hv.
  destruct (decide (make_records df_sched df_bom = [])) as [Hnil|Hne].
  - unfold run in Hrow. rewrite Hnil in Hrow. by apply elem_of_nil in Hrow.
  - rewrite run_rows in Hrow by done.
    apply list_elem_of_fmap in Hrow as (c' & Heq & _).
    pose proof (f_equal snd Heq) as Hvs. cbn [snd] in Hvs. subst vs.
    apply list_elem_of_fmap in Hv as (d & -> & _).
    by apply demand_spec_nonneg.
Qed.

Lemma run_cells_nonneg_witness :
  (("C1" : string), 0 :: 10 :: replicate 59 0) ∈ rows (run 739260
      [ {| Sched.ProdDate := 739261; Sched.Item := "P1"; Sched.Qty := 5 |} ]
      [ {| Bom.Item := "P1"; Bom.sItem := "C1"; Bom.bomValue := 2 |} ]) ∧
  0 <= 10.
Proof.
  assert (Hrow : (("C1" : string), 0 :: 10 :: replicate 59 0) ∈ rows (run 739260
      [ {| Sched.ProdDate := 739261; Sched.Item := "P1"; Sched.Qty := 5 |} ]
      [ {| Bom.Item := "P1"; Bom.sItem := "C1"; Bom.bomValue := 2 |} ]))
    by (vm_compute; left).
  split; [exact Hrow|].
  apply (run_cells_nonneg 739260
      [ {| Sched.ProdDate := 739261; Sched.Item := "P1"; Sched.Qty := 5 |} ]
      [ {| Bom.Item := "P1"; Bom.sItem := "C1"; Bom.bomValue := 2 |} ])
    with (c := "C1") (vs := 0 :: 10 :: replicate 59 0).
  - intros p Hp. apply list_elem_of_singleton in Hp as ->. vm_compute.
    discriminate.
  - intros b Hb. apply list_elem_of_singleton in Hb as ->. vm_compute.
    discriminate.
  - exact Hrow.
  - right. left.
Defined.

Lemma Zsum_scale (z : Z) (l : list Z) :
  Zsum ((λ x, x * z) <$> l) = z * Zsum l.
Proof.
  induction l as [|x l IH]; [cbn; lia|].
  rewrite fmap_cons, !Zsum_cons, IH. lia.
Qed.

(** X20: grouping conserves the exploded quantity: the grouped demand adds
    up to the sum, over the plan entries, of the planned quantity times the
    BOM quantities of the entry's parent. *)
Theorem explosion_conserves_total (df_sched : list Sched.row)
    (df_bom : list Bom.row) :
  Zsum (snd <$> group_needs (concat (make_records df_sched df_bom)))
  = Zsum ((λ p, Sched.Qty p
                * Zsum (Bom.bomValue
                        <$> filter (λ b, Bom.Item b = Sched.Item p) df_bom))
          <$> df_sched).
Proof.
  unfold group_needs. rewrite <- list_fmap_compose.
  etrans; [apply (groupby_total Need.needQty)|].
  rewrite exploded_eq. induction df_sched as [|p l IH]; [done|].
  rewrite bind_cons, fmap_app, Zsum_app, IH, fmap_cons, Zsum_cons.
  f_equal. unfold needs_of. rewrite <- list_fmap_compose.
  rewrite <- Zsum_scale, <- list_fmap_compose. done.
Qed.

Lemma Zsum_bind {A} (g : A → list Z) (l : list A) :
  Zsum (l ≫= g) = Zsum ((λ x, Zsum (g x)) <$> l).
Proof.
  induction l as [|x l IH]; [done|].
  by rewrite bind_cons, Zsum_app, fmap_cons, Zsum_cons, IH.
Qed.

Lemma Zsum_filter_or {A} (f : A → Z) (P Q : A → Prop)
    `{∀ x, Decision (P x)} `{∀ x, Decision (Q x)} (l : list A) :
  (∀ x, P x → Q x → False) →
  Zsum (f <$> filter (λ x, P x ∨ Q x) l)
  = Zsum (f <$> filter P l) + Zsum (f <$> filter Q l).
Proof.
  intros Hdis. induction l as [|x l IH]; [done|].
  rewrite !filter_cons.
  destruct (decide (P x)) as [HP|HP], (decide (Q x)) as [HQ|HQ].
  - destruct (Hdis x HP HQ).
  - rewrite decide_True by tauto. rewrite !fmap_cons, !Zsum_cons. lia.
  - rewrite decide_True by tauto. rewrite !fmap_cons, !Zsum_cons. lia.
  - rewrite decide_False by tauto. done.
Qed.

(** Adding up, over distinct days, what the entries of each day give is
    adding up what the entries of those days give. *)
Lemma Zsum_by_day {A} (date : A → Z) (f : A → Z) (days : list Z)
    (plan : list A) :
  NoDup days →
  Zsum ((λ d, Zsum (f <$> filter (λ p, date p = d) plan)) <$> days)
  = Zsum (f <$> filter (λ p, date p ∈ days) plan).
Proof.
  induction days as [|d days IH]; intros Hnd.
  - cbn. rewrite ReconcilerProofs.filter_nil_intro; [done|].
    intros x _ Hx. by apply elem_of_nil in Hx.
  - apply NoDup_cons in Hnd as [Hd Hnd].
    rewrite fmap_cons, Zsum_cons, IH by done.
    rewrite <- (Zsum_filter_or f (λ p, date p = d) (λ p, date p ∈ days))
      by (by intros x -> ?).
    f_equal. f_equal. apply list_filter_iff. intros x.
    by rewrite elem_of_cons.
Qed.

Lemma elem_of_all_days (TODAY d : Z) :
  d ∈ all_days TODAY ↔ TODAY <= d <= TODAY + HORIZON_DAYS.
Proof.
  unfold all_days, HORIZON_DAYS. rewrite list_elem_of_fmap. split.
  - intros (i & -> & Hi). apply elem_of_seq in Hi. lia.
  - intros Hd. exists (Z.to_nat (d - TODAY)). split; [lia|].
    apply elem_of_seq. lia.
Qed.

Lemma NoDup_all_days (TODAY : Z) : NoDup (all_days TODAY).
Proof.
  unfold all_days. apply NoDup_fmap_2; [|apply NoDup_seq].
  intros i j Hij. lia.
Qed.

(** X26: the 61 quantities of a row of the output add up to the child's
    demand from the plan entries dated within the horizon, planned quantity
    times BOM quantity; demand of an entry dated outside the horizon is not
    in the output. *)
Theorem run_row_totals (TODAY : Z) (df_sched : list Sched.row)
    (df_bom : list Bom.row) :
  Forall (λ r : string * list Z,
            Zsum r.2
            = Zsum ((λ p, Sched.Qty p
                          * Zsum (Bom.bomValue
                                  <$> filter (λ b, Bom.Item b = Sched.Item p
                                                   ∧ Bom.sItem b = r.1)
                                             df_bom))
                    <$> filter (λ p, TODAY <= Sched.ProdDate p
                                     <= TODAY + HORIZON_DAYS) df_sched))
         (rows (run TODAY df_sched df_bom)).
Proof.
  destruct (decide (make_records df_sched df_bom = [])) as [Hnil|Hne].
  { unfold run. rewrite Hnil. constructor. }
  rewrite run_rows by done. apply Forall_fmap, Forall_forall.
  intros c _. cbn [fst snd].
  set (f := λ p, Sched.Qty p
                 * Zsum (Bom.bomValue
                         <$> filter (λ b, Bom.Item b = Sched.Item p
                                          ∧ Bom.sItem b = c) df_bom)).
  transitivity
    (Zsum ((λ d, Zsum (f <$> filter (λ p, Sched.ProdDate p = d) df_sched))
           <$> all_days TODAY)).
  - f_equal. apply list_fmap_ext. intros _ d _. unfold demand_spec.
    rewrite Zsum_bind. f_equal. apply list_fmap_ext. intros _ p _.
    rewrite bind_singleton. unfold f.
    rewrite <- Zsum_scale, <- list_fmap_compose. done.
  - rewrite (Zsum_by_day Sched.ProdDate f) by apply NoDup_all_days.
    f_equal. f_equal. apply list_filter_iff. intros p.
    apply elem_of_all_days.
Qed.

End ExplosionMore.

(** ** The calendar of [datetime.date] *)

Module DatetimeFacts.
Import Datetime.

Lemma is_leap_spec (y : Z) :
  is_leap y = true ↔ y mod 4 = 0 ∧ (y mod 100 ≠ 0 ∨ y mod 400 = 0).
Proof.
  unfold is_leap.
  rewrite andb_true_iff, orb_true_iff, negb_true_iff, !Z.eqb_eq, Z.eqb_neq.
  done.
Qed.

Lemma days_before_year_split (y : Z) :
  ∃ a b c e, y - 1 = 400 * a + 100 * b + 4 * c + e ∧
    0 <= b < 4 ∧ 0 <= c < 25 ∧ 0 <= e < 4 ∧
    days_before_year y = 146097 * a + 36524 * b + 1461 * c + 365 * e ∧
    (is_leap y = true ↔ e = 3 ∧ (c ≠ 24 ∨ b = 3)).
Proof.
  exists ((y - 1) / 400), ((y - 1) mod 400 / 100), ((y - 1) mod 100 / 4),
         ((y - 1) mod 4).
  rewrite is_leap_spec. unfold days_before_year. cbv zeta.
  Z.div_mod_to_equations. lia.
Qed.

Lemma month_cases (m : Z) : 1 <= m <= 12 →
  m = 1 ∨ m = 2 ∨ m = 3 ∨ m = 4 ∨ m = 5 ∨ m = 6 ∨ m = 7 ∨ m = 8 ∨ m = 9 ∨
  m = 10 ∨ m = 11 ∨ m = 12.
Proof. lia. Qed.

Lemma divmod_unique (n d q r : Z) :
  0 <= r < d → n = d * q + r → n / d = q ∧ n mod d = r.
Proof.
  intros Hr ->. split.
  - symmetry. by apply (Z.div_unique_pos _ d q r).
  - symmetry. by apply (Z.mod_unique_pos _ d q r).
Qed.

Lemma ord2ymd_ymd2ord (y m d : Z) :
  1 <= m <= 12 → 1 <= d <= days_in_month y m →
  ord2ymd (ymd2ord y m d) = (y, m, d).
Proof.
  intros Hm Hd.
  destruct (days_before_year_split y)
    as (a & b & c & e & Hy & Hb & Hc & He & Hdby & Hleap).
  assert (Hlb : (e =? 3) && (negb (c =? 24) || (b =? 3)) = is_leap y).
  { apply Bool.eq_iff_eq_true.
    rewrite Hleap, andb_true_iff, orb_true_iff, negb_true_iff, !Z.eqb_eq,
      Z.eqb_neq. done. }
  unfold ymd2ord. rewrite Hdby.
  set (r := days_before_month y m + d - 1).
  assert (Hr : 0 <= r < 365 + (if is_leap y then 1 else 0) ∧
               (r = 365 → m = 12 ∧ d = 31)).
  { unfold r, days_before_month, days_in_month in *.
    destruct (is_leap y);
      destruct (month_cases m Hm)
        as [->|[->|[->|[->|[->|[->|[->|[->|[->|[->|[->| ->]]]]]]]]]]];
      cbn in *; lia. }
  destruct Hr as [Hr Hlast].
  unfold ord2ymd. cbv zeta. unfold DI400Y, DI100Y, DI4Y.
  replace (146097 * a + 36524 * b + 1461 * c + 365 * e
           + days_before_month y m + d - 1)
    with (146097 * a + (36524 * b + 1461 * c + 365 * e + r))
    by (unfold r; lia).
  destruct (decide (r = 365)) as [Hr365|Hr365].
  - destruct (Hlast Hr365) as [-> ->].
    assert (is_leap y = true) as Hl by (destruct (is_leap y); [done|lia]).
    apply Hleap in Hl as [-> Hcb]. rewrite Hr365.
    destruct (decide (c = 24)) as [->|Hc24].
    + assert (b = 3) as -> by lia.
      destruct (divmod_unique (146097 * a + (36524 * 3 + 1461 * 24 + 365 * 3 + 365))
                  146097 a 146096) as [-> ->]; [lia..|].
      change (146096 / 36524) with 4. change (146096 mod 36524) with 0.
      change (0 mod 1461) with 0. change (0 / 1461) with 0.
      change (0 / 365) with 0.
      cbn. f_equal. f_equal. lia.
    + destruct (divmod_unique (146097 * a + (36524 * b + 1461 * c + 365 * 3 + 365))
                  146097 a (36524 * b + 1461 * c + 1460)) as [-> ->]; [lia..|].
      destruct (divmod_unique (36524 * b + 1461 * c + 1460)
                  36524 b (1461 * c + 1460)) as [-> ->]; [lia..|].
      destruct (divmod_unique (1461 * c + 1460) 1461 c 1460) as [-> ->];
        [lia..|].
      change (1460 / 365) with 4.
      cbn. f_equal. f_equal. lia.
  - assert (0 <= r < 365) as Hr' by (destruct (is_leap y); lia).
    destruct (divmod_unique (146097 * a + (36524 * b + 1461 * c + 365 * e + r))
                146097 a (36524 * b + 1461 * c + 365 * e + r)) as [-> ->];
      [lia..|].
    destruct (divmod_unique (36524 * b + 1461 * c + 365 * e + r)
                36524 b (1461 * c + 365 * e + r)) as [-> ->]; [lia..|].
    destruct (divmod_unique (1461 * c + 365 * e + r) 1461 c (365 * e + r))
      as [-> ->]; [lia..|].
    destruct (divmod_unique (365 * e + r) 365 e r) as [-> ->]; [lia..|].
    rewrite Hlb.
    assert ((e =? 4) = false) as -> by lia.
    assert ((b =? 4) = false) as -> by lia. cbn [orb].
    rewrite Z.shiftr_div_pow2 by lia. change (2 ^ 5) with 32.
    assert (Hq : ∃ q, (r + 50) / 32 = q ∧ 32 * q <= r + 50 < 32 * q + 32).
    { eexists. split; [done|]. Z.div_mod_to_equations. lia. }
    destruct Hq as (q & -> & Hq).
    assert (Hqm : q = m ∨ q = m + 1).
    { unfold r, days_before_month, days_in_month in *.
      destruct (is_leap y);
        destruct (month_cases m Hm)
          as [->|[->|[->|[->|[->|[->|[->|[->|[->|[->|[->| ->]]]]]]]]]]];
        cbn in *; lia. }
    replace (400 * a + 1 + 100 * b + 4 * c + e) with y by lia.
    replace (a * 400 + 1 + b * 100 + c * 4 + e) with y by lia.
    unfold r, days_before_month, days_in_month in *.
    destruct (is_leap y);
      destruct (month_cases m Hm)
        as [->|[->|[->|[->|[->|[->|[->|[->|[->|[->|[->| ->]]]]]]]]]]];
      destruct Hqm as [Hq'|Hq']; vm_compute in Hq'; subst q; cbn in *;
      repeat match goal with
             | |- context [Z.pos ?p - 1] =>
               let v := eval vm_compute in (Z.pos p - 1) in
               change (Z.pos p - 1) with v
             end;
      cbn;
      repeat (match goal with
              | |- context [?u <? ?v] => destruct (Z.ltb_spec u v)
              | |- context [?u =? ?v] => destruct (Z.eqb_spec u v)
              end; cbn [andb orb negb]);
      try lia; f_equal; lia.
Qed.

Ltac norm_lit :=
  repeat match goal with
         | |- context [Z.pos ?p + 1] =>
           let v := eval vm_compute in (Z.pos p + 1) in
           change (Z.pos p + 1) with v
         | |- context [Z.pos ?p - 1] =>
           let v := eval vm_compute in (Z.pos p - 1) in
           change (Z.pos p - 1) with v
         end.

Lemma days_before_year_succ (y : Z) :
  days_before_year (y + 1)
  = days_before_year y + 365 + (if is_leap y then 1 else 0).
Proof.
  pose proof (is_leap_spec y) as Hl. unfold days_before_year. cbv zeta.
  replace (y + 1 - 1) with y by lia.
  destruct (is_leap y).
  - destruct (proj1 Hl eq_refl) as [H4 H100]. Z.div_mod_to_equations. lia.
  - assert (¬ (y mod 4 = 0 ∧ (y mod 100 ≠ 0 ∨ y mod 400 = 0))) as Hn
      by (intros H; by apply Hl in H).
    Z.div_mod_to_equations. lia.
Qed.

Lemma days_before_year_mono (y y' : Z) :
  y <= y' → days_before_year y <= days_before_year y'.
Proof.
  intros H. unfold days_before_year. cbv zeta. Z.div_mod_to_equations. lia.
Qed.

Lemma days_in_month_bounds (y m : Z) :
  1 <= m <= 12 → 28 <= days_in_month y m <= 31.
Proof.
  intros Hm. unfold days_in_month.
  destruct (is_leap y);
    destruct (month_cases m Hm)
      as [->|[->|[->|[->|[->|[->|[->|[->|[->|[->|[->| ->]]]]]]]]]]];
    cbn; lia.
Qed.

(** The day before the first of the next month is the last day of the
    month. *)
Lemma ymd2ord_next_month (y m : Z) :
  1 <= m <= 12 →
  (if m =? 12 then ymd2ord (y + 1) 1 1 else ymd2ord y (m + 1) 1) - 1
  = ymd2ord y m (days_in_month y m).
Proof.
  intros Hm. unfold ymd2ord.
  destruct (Z.eqb_spec m 12) as [->|Hne].
  - rewrite days_before_year_succ.
    unfold days_before_month, days_in_month. destruct (is_leap y); cbn; lia.
  - unfold days_before_month, days_in_month.
    destruct (is_leap y);
      destruct (month_cases m Hm)
        as [->|[->|[->|[->|[->|[->|[->|[->|[->|[->|[->| ->]]]]]]]]]]];
      norm_lit; cbn; lia.
Qed.

Lemma ymd2ord_bounds (y m d : Z) :
  1 <= y <= 9999 → 1 <= m <= 12 → 1 <= d <= days_in_month y m →
  1 <= ymd2ord y m d <= MAXORDINAL.
Proof.
  intros Hy Hm Hd.
  pose proof (days_before_year_mono 1 y ltac:(lia)) as H1.
  pose proof (days_before_year_mono (y + 1) 10000 ltac:(lia)) as H2.
  rewrite days_before_year_succ in H2.
  change (days_before_year 1) with 0 in H1.
  change (days_before_year 10000) with 3652059 in H2.
  unfold MAXORDINAL, ymd2ord.
  unfold days_before_month, days_in_month in *.
  destruct (is_leap y);
    destruct (month_cases m Hm)
      as [->|[->|[->|[->|[->|[->|[->|[->|[->|[->|[->| ->]]]]]]]]]]];
    cbn in *; lia.
Qed.

Lemma date_inr (y m d o : Z) :
  date y m d = inr o ↔
  1 <= y <= 9999 ∧ 1 <= m <= 12 ∧ 1 <= d <= days_in_month y m ∧
  o = ymd2ord y m d.
Proof.
  unfold date, C_int. split.
  - destruct (negb _); [done|].
    destruct (_ && _) eqn:Hv; [|done]. intros [= <-].
    rewrite !andb_true_iff, !Z.leb_le in Hv. lia.
  - intros (Hy & Hm & Hd & ->).
    pose proof (days_in_month_bounds y m Hm).
    assert ((- 2 ^ 31 <=? y) && (y <=? 2 ^ 31 - 1)
            && ((- 2 ^ 31 <=? m) && (m <=? 2 ^ 31 - 1))
            && ((- 2 ^ 31 <=? d) && (d <=? 2 ^ 31 - 1)) = true) as ->
      by (rewrite !andb_true_iff, !Z.leb_le; lia).
    assert ((1 <=? y) && (y <=? 9999) && (1 <=? m) && (m <=? 12)
            && (1 <=? d) && (d <=? days_in_month y m) = true) as ->
      by (rewrite !andb_true_iff, !Z.leb_le; lia).
    done.
Qed.

Lemma date_inl (y m d : Z) :
  ¬ (1 <= y <= 9999 ∧ 1 <= m <= 12 ∧ 1 <= d <= days_in_month y m) →
  ∃ e, date y m d = inl e.
Proof.
  intros Hn. destruct (date y m d) as [e|o] eqn:Hd; [by exists e|].
  apply date_inr in Hd. tauto.
Qed.

(** In range no argument overflows a C [int], so the only error is
    [ValueError]. *)
Lemma date_ValueError (y m d : Z) :
  - 2 ^ 31 <= y < 2 ^ 31 → - 2 ^ 31 <= m < 2 ^ 31 → - 2 ^ 31 <= d < 2 ^ 31 →
  ∀ e, date y m d = inl e → e = ValueError.
Proof.
  intros Hy Hm Hd e. unfold date, C_int.
  assert ((- 2 ^ 31 <=? y) && (y <=? 2 ^ 31 - 1)
          && ((- 2 ^ 31 <=? m) && (m <=? 2 ^ 31 - 1))
          && ((- 2 ^ 31 <=? d) && (d <=? 2 ^ 31 - 1)) = true) as ->
    by (rewrite !andb_true_iff, !Z.leb_le; lia).
  cbn [negb]. destruct (_ && _); [done|]. by intros [= <-].
Qed.

Lemma date_OverflowError (y m d : Z) :
  d < - 2 ^ 31 → date y m d = inl OverflowError.
Proof.
  intros Hd. unfold date, C_int.
  assert ((- 2 ^ 31 <=? d) = false) as -> by lia.
  by rewrite !andb_false_r.
Qed.

Lemma sub_days_1 (y m : Z) :
  1 <= y <= 9999 → 1 <= m <= 12 →
  sub_days (ymd2ord y m (days_in_month y m) + 1) 1
  = inr (ymd2ord y m (days_in_month y m)).
Proof.
  intros Hy Hm. pose proof (days_in_month_bounds y m Hm).
  pose proof (ymd2ord_bounds y m (days_in_month y m) Hy Hm ltac:(lia)).
  unfold sub_days.
  replace (ymd2ord y m (days_in_month y m) + 1 - 1)
    with (ymd2ord y m (days_in_month y m)) by lia.
  assert ((1 <=? ymd2ord y m (days_in_month y m)) = true) as -> by lia.
  assert ((ymd2ord y m (days_in_month y m) <=? MAXORDINAL) = true) as ->
    by lia.
  done.
Qed.

Lemma day_last (y m : Z) :
  1 <= m <= 12 → day (ymd2ord y m (days_in_month y m)) = days_in_month y m.
Proof.
  intros Hm. pose proof (days_in_month_bounds y m Hm).
  unfold day. by rewrite ord2ymd_ymd2ord by lia.
Qed.

End DatetimeFacts.

(** ** Month utilities *)

Module MonthUtilFacts.
Import Datetime DatetimeFacts MonthUtil.

(** The first day of the month after a valid month other than December
    9999, and the day before it. *)
Lemma next_month_first_ok (y m : Z) :
  1 <= y <= 9999 → 1 <= m <= 12 → ¬ (y = 9999 ∧ m = 12) →
  (if m =? 12 then date (y + 1) 1 1 else date y (m + 1) 1)
  = inr (ymd2ord y m (days_in_month y m) + 1).
Proof.
  intros Hy Hm Hne. pose proof (ymd2ord_next_month y m Hm) as Hnext.
  destruct (Z.eqb_spec m 12) as [->|Hm12].
  - pose proof (days_in_month_bounds (y + 1) 1 ltac:(lia)).
    apply date_inr. repeat split; lia.
  - pose proof (days_in_month_bounds y (m + 1) ltac:(lia)).
    apply date_inr. repeat split; lia.
Qed.

Lemma get_month_last_day_ok (y m : Z) :
  1 <= y <= 9999 → 1 <= m <= 12 → ¬ (y = 9999 ∧ m = 12) →
  get_month_last_day y m = inr (days_in_month y m).
Proof.
  intros Hy Hm Hne. unfold get_month_last_day.
  rewrite next_month_first_ok by done. cbn [ebind].
  rewrite sub_days_1 by done. cbn [ebind]. by rewrite day_last.
Qed.

Lemma get_month_last_day_month_0 (y : Z) :
  2 <= y <= 9999 → get_month_last_day y 0 = inr 31.
Proof.
  intros Hy. unfold get_month_last_day.
  change (0 =? 12) with false. cbn iota. change (0 + 1) with 1.
  pose proof (ymd2ord_next_month (y - 1) 12 ltac:(lia)) as Hnext.
  change (12 =? 12) with true in Hnext. cbn iota in Hnext.
  replace (y - 1 + 1) with y in Hnext by lia.
  pose proof (days_in_month_bounds y 1 ltac:(lia)).
  assert (date y 1 1 = inr (ymd2ord (y - 1) 12 (days_in_month (y - 1) 12) + 1))
    as -> by (apply date_inr; repeat split; lia).
  cbn [ebind]. rewrite sub_days_1 by lia. cbn [ebind].
  by rewrite day_last.
Qed.

Lemma get_month_last_day_raises (y m : Z) :
  ¬ (1 <= y <= 9999 ∧ 1 <= m <= 12 ∧ ¬ (y = 9999 ∧ m = 12)) →
  ¬ (2 <= y <= 9999 ∧ m = 0) →
  ∃ e, get_month_last_day y m = inl e.
Proof.
  intros H1 H2. unfold get_month_last_day.
  destruct (Z.eqb_spec m 12) as [->|Hm12].
  - destruct (decide (y = 0)) as [->|Hy0].
    + exists OverflowError. done.
    + destruct (date_inl (y + 1) 1 1) as [e ->]; [lia|]. by exists e.
  - destruct (decide (y = 1 ∧ m = 0)) as [[-> ->]|Hy1].
    + exists OverflowError. done.
    + destruct (date_inl y (m + 1) 1) as [e ->]; [lia|]. by exists e.
Qed.

(** X21: [get_month_last_day] returns a number exactly in two cases: for
    a month 1..12 of a year 1..9999 other than December 9999 it is the
    number of days of that month; for month 0 of a year 2..9999 it is 31.
    In every other case, December 9999 included, it raises. *)
Theorem get_month_last_day_spec (y m L : Z) :
  get_month_last_day y m = inr L ↔
  (1 <= y <= 9999 ∧ 1 <= m <= 12 ∧ ¬ (y = 9999 ∧ m = 12) ∧
   L = days_in_month y m) ∨
  (2 <= y <= 9999 ∧ m = 0 ∧ L = 31).
Proof.
  split.
  - intros HL.
    destruct (decide (1 <= y <= 9999 ∧ 1 <= m <= 12 ∧ ¬ (y = 9999 ∧ m = 12)))
      as [(Hy & Hm & Hne)|H1].
    { rewrite get_month_last_day_ok in HL by done. injection HL as <-.
      left. done. }
    destruct (decide (2 <= y <= 9999 ∧ m = 0)) as [[Hy ->]|H2].
    { rewrite get_month_last_day_month_0 in HL by done. injection HL as <-.
      right. done. }
    destruct (get_month_last_day_raises y m H1 H2) as [e He]. congruence.
  - intros [(Hy & Hm & Hne & ->)|(Hy & -> & ->)].
    + by apply get_month_last_day_ok.
    + by apply get_month_last_day_month_0.
Qed.

Section UtilityFacts.
Variable int : string → option Z.

Lemma get_month_last_day_inr_range (y m L : Z) :
  get_month_last_day y m = inr L →
  1 <= y <= 9999 ∧ 0 <= m <= 12 ∧ 28 <= L <= 31 ∧
  (1 <= m → month_ok y m ∧ L = days_in_month y m).
Proof.
  intros [(Hy & Hm & Hne & ->)|(Hy & -> & ->)]%get_month_last_day_spec.
  - pose proof (days_in_month_bounds y m Hm). unfold month_ok.
    repeat split; lia.
  - repeat split; lia.
Qed.

(** X22: once the year-month and the day column are read as numbers,
    [ym_day_to_date_safe] returns a date exactly when the day exists in that
    month (never a date that does not exist), and, in spite of its name,
    raises exactly when [get_month_last_day] raises or the day does not fit
    a C [int]. *)
Theorem ym_day_to_date_safe_spec (ym daycol : string) (y m d : Z) :
  split_ym int ym = Some (y, m) →
  int (replace "計" "" daycol) = Some d →
  (∀ o, ym_day_to_date_safe int ym daycol = inr (Some o) ↔
        month_ok y m ∧ 1 <= d <= days_in_month y m ∧ o = ymd2ord y m d) ∧
  ((∃ e, ym_day_to_date_safe int ym daycol = inl e) ↔
   (∃ e, get_month_last_day y m = inl e) ∨ d < - 2 ^ 31).
Proof.
  intros Hym Hday. unfold ym_day_to_date_safe. rewrite Hym, Hday.
  destruct (get_month_last_day y m) as [e|L] eqn:HL; cbn [ebind].
  { split.
    - intros o. split; [done|]. intros ((Hy & Hm & Hne) & _).
      rewrite get_month_last_day_ok in HL by done. done.
    - split; eauto. }
  apply get_month_last_day_inr_range in HL as (Hy & Hm & HLb & HLm).
  destruct (Z.ltb_spec L d) as [Hlt|Hge].
  { split.
    - intros o. split; [done|]. intros (Hok & Hd & _).
      destruct HLm as [_ ->]; [unfold month_ok in Hok; lia|]. lia.
    - split; [by intros [e ?]|]. intros [[e ?]|Hd]; [done|lia]. }
  destruct (decide (d < - 2 ^ 31)) as [Hd|Hd].
  { rewrite date_OverflowError by done. split.
    - intros o. split; [done|]. intros (_ & ? & _). lia.
    - split; eauto. }
  destruct (date y m d) as [e|o'] eqn:Hdate.
  - assert (e = ValueError) as ->
      by (apply (date_ValueError y m d); [lia..|done]).
    split.
    + intros o. split; [done|]. intros (Hok & Hdr & _).
      assert (date y m d = inr (ymd2ord y m d)) as Heq
        by (apply date_inr; unfold month_ok in Hok; tauto).
      congruence.
    + split; [by intros [e ?]|]. intros [[e ?]|?]; [done|lia].
  - apply date_inr in Hdate as (Hy' & Hm' & Hd' & ->). split.
    + intros o. split.
      * intros [= <-]. destruct HLm as [Hok _]; [lia|]. done.
      * by intros (_ & _ & ->).
    + split; [by intros [e ?]|]. intros [[e ?]|?]; [done|lia].
Qed.

Lemma month_range_inr (ym : string) (a b : Z) :
  month_range int ym = inr (a, b) ↔
  ∃ y m, split_ym int ym = Some (y, m) ∧ month_ok y m ∧
         a = ymd2ord y m 1 ∧ b = ymd2ord y m (days_in_month y m).
Proof.
  unfold month_range. destruct (split_ym int ym) as [[y m]|]; cycle 1.
  { split; [done|]. by intros (? & ? & ? & _). }
  split.
  - destruct (date y m 1) as [e|f] eqn:Hf; [done|]. cbn [ebind].
    apply date_inr in Hf as (Hy & Hm & _ & ->).
    destruct (decide (y = 9999 ∧ m = 12)) as [[-> ->]|Hne]; [done|].
    rewrite next_month_first_ok by done. cbn [ebind].
    rewrite sub_days_1 by done. cbn [ebind]. intros [= <- <-].
    exists y, m. done.
  - intros (y' & m' & [= <- <-] & (Hy & Hm & Hne) & -> & ->).
    pose proof (days_in_month_bounds y m Hm).
    assert (date y m 1 = inr (ymd2ord y m 1)) as ->
      by (apply date_inr; repeat split; lia).
    cbn [ebind]. rewrite next_month_first_ok by done. cbn [ebind].
    by rewrite sub_days_1 by done.
Qed.

(** X23: for a target range that is not empty [month_overlaps_target] is
    true exactly when the string reads as a year and a month, other than
    December 9999, and some day of that month lies in the range. *)
Theorem month_overlaps_target_spec (ym : string) (ts te : Z) :
  ts <= te →
  (month_overlaps_target int ym ts te = true ↔
   ∃ y m, split_ym int ym = Some (y, m) ∧ ¬ (y = 9999 ∧ m = 12) ∧
          ∃ d o, date y m d = inr o ∧ ts <= o <= te).
Proof.
  intros Hts. unfold month_overlaps_target. split.
  - destruct (month_range int ym) as [e|[a b]] eqn:Hr; [done|].
    apply month_range_inr in Hr as (y & m & Hym & (Hy & Hm & Hne) & -> & ->).
    rewrite negb_true_iff, orb_false_iff, !Z.ltb_ge.
    intros [H1 H2]. exists y, m. split_and!; [done..|].
    pose proof (days_in_month_bounds y m Hm).
    exists (Z.max ts (ymd2ord y m 1) - ymd2ord y m 1 + 1),
           (Z.max ts (ymd2ord y m 1)).
    split; [|lia]. apply date_inr. unfold ymd2ord in *. repeat split; lia.
  - intros (y & m & Hym & Hne & d & o & Hd & Ho).
    apply date_inr in Hd as (Hy & Hm & Hd & ->).
    assert (month_range int ym
            = inr (ymd2ord y m 1, ymd2ord y m (days_in_month y m))) as ->.
    { apply month_range_inr. exists y, m. unfold month_ok. done. }
    rewrite negb_true_iff, orb_false_iff, !Z.ltb_ge.
    unfold ymd2ord in *. lia.
Qed.

(** X24: for a year-month that passes [month_overlaps_target], as every
    row of [run] that reaches it does, [ym_day_to_date_safe] does not raise
    when the day number fits a C [int]. *)
Theorem overlapping_month_is_safe (ym daycol : string) (ts te : Z) :
  month_overlaps_target int ym ts te = true →
  (∀ d, int (replace "計" "" daycol) = Some d → - 2 ^ 31 <= d) →
  ∃ r, ym_day_to_date_safe int ym daycol = inr r.
Proof.
  unfold month_overlaps_target.
  destruct (month_range int ym) as [e|[a b]] eqn:Hr; [done|]. intros _ Hd.
  apply month_range_inr in Hr as (y & m & Hym & (Hy & Hm & Hne) & _).
  destruct (int (replace "計" "" daycol)) as [d|] eqn:Hday; cycle 1.
  { unfold ym_day_to_date_safe. rewrite Hym, Hday. eauto. }
  destruct (ym_day_to_date_safe int ym daycol) as [e|r] eqn:Hres; [|eauto].
  exfalso.
  destruct (ym_day_to_date_safe_spec ym daycol y m d Hym Hday) as [_ Hraise].
  destruct (proj1 Hraise (ex_intro _ e Hres)) as [[e' He']|Hlt].
  - rewrite get_month_last_day_ok in He' by done. done.
  - specialize (Hd d eq_refl). lia.
Qed.

(** X25: the month filter of [run] loses nothing: a year-month and day
    column whose date lies in the target range passes
    [month_overlaps_target]. *)
Theorem date_in_target_overlaps (ym daycol : string) (ts te o : Z) :
  ym_day_to_date_safe int ym daycol = inr (Some o) →
  ts <= o <= te →
  month_overlaps_target int ym ts te = true.
Proof.
  intros Hres Ho.
  destruct (split_ym int ym) as [[y m]|] eqn:Hym; cycle 1.
  { unfold ym_day_to_date_safe in Hres. by rewrite Hym in Hres. }
  destruct (int (replace "計" "" daycol)) as [d|] eqn:Hday; cycle 1.
  { unfold ym_day_to_date_safe in Hres. by rewrite Hym, Hday in Hres. }
  destruct (ym_day_to_date_safe_spec ym daycol y m d Hym Hday) as [Hdate _].
  apply Hdate in Hres as ((Hy & Hm & Hne) & Hd & ->).
  apply month_overlaps_target_spec; [lia|].
  exists y, m. split_and!; [done..|].
  exists d, (ymd2ord y m d). split; [|done]. by apply date_inr.
Qed.

End UtilityFacts.

Lemma ym_day_to_date_safe_spec_witness :
  (∀ o, ym_day_to_date_safe int_decimal "2024/02" "計29" = inr (Some o) ↔
        month_ok 2024 2 ∧ 1 <= 29 <= days_in_month 2024 2 ∧
        o = ymd2ord 2024 2 29) ∧
  ((∃ e, ym_day_to_date_safe int_decimal "2024/02" "計29" = inl e) ↔
   (∃ e, get_month_last_day 2024 2 = inl e) ∨ 29 < - 2 ^ 31).
Proof.
  apply (ym_day_to_date_safe_spec int_decimal "2024/02" "計29" 2024 2 29).
  - vm_compute. reflexivity.
  - vm_compute. reflexivity.
Defined.

Lemma month_overlaps_target_spec_witness :
  month_overlaps_target int_decimal "2024/02" 738905 738945 = true ↔
  ∃ y m, split_ym int_decimal "2024/02" = Some (y, m) ∧
         ¬ (y = 9999 ∧ m = 12) ∧
         ∃ d o, date y m d = inr o ∧ 738905 <= o <= 738945.
Proof.
  apply (month_overlaps_target_spec int_decimal "2024/02" 738905 738945).
  lia.
Defined.

Lemma overlapping_month_is_safe_witness :
  ∃ r, ym_day_to_date_safe int_decimal "2024/02" "計30" = inr r.
Proof.
  apply (overlapping_month_is_safe int_decimal "2024/02" "計30"
           738905 738965).
  - vm_compute. reflexivity.
  - intros d Hd. vm_compute in Hd. injection Hd as <-. lia.
Defined.

Lemma date_in_target_overlaps_witness :
  month_overlaps_target int_decimal "2024/02" 738905 738965 = true.
Proof.
  apply (date_in_target_overlaps int_decimal "2024/02" "計29"
           738905 738965 738945).
  - vm_compute. reflexivity.
  - lia.
Defined.

End MonthUtilFacts.

(** ** Date columns of the demand file *)

Module RequirementsFacts.
Import Py PyFacts Shortage ShortageProofs CalendarProofs Requirements.

Lemma insert_by_date_perm (x : Z * string) (l : list (Z * string)) :
  insert_by_date x l ≡ₚ x :: l.
Proof.
  induction l as [|y r IH]; [done|]. cbn [insert_by_date].
  case_decide; [done|]. rewrite IH. apply Permutation_swap.
Qed.

Lemma sort_by_date_perm (l : list (Z * string)) : sort_by_date l ≡ₚ l.
Proof.
  induction l as [|x l IH]; [done|]. cbn [sort_by_date foldr].
  fold (sort_by_date l). by rewrite insert_by_date_perm, IH.
Qed.

Lemma insert_by_date_sorted (x : Z * string) (l : list (Z * string)) :
  StronglySorted Z.le (fst <$> l) →
  StronglySorted Z.le (fst <$> insert_by_date x l).
Proof.
  induction l as [|y r IH]; intros Hs.
  - cbn. repeat constructor.
  - cbn [insert_by_date]. rewrite fmap_cons in Hs.
    apply StronglySorted_inv in Hs as [Hr Hy].
    case_decide as Hxy.
    + rewrite !fmap_cons. constructor; [by constructor|].
      constructor; [done|]. eapply Forall_impl; [exact Hy|]. intros z Hz.
      cbn in *. lia.
    + rewrite fmap_cons. constructor; [by apply IH|].
      rewrite insert_by_date_perm, fmap_cons. constructor; [lia|done].
Qed.

Lemma sort_by_date_sorted (l : list (Z * string)) :
  StronglySorted Z.le (fst <$> sort_by_date l).
Proof.
  induction l as [|x l IH]; [constructor|]. cbn [sort_by_date foldr].
  by apply insert_by_date_sorted.
Qed.

Lemma insert_by_date_stable (d : Z) (x : Z * string) (l : list (Z * string)) :
  filter (λ p, p.1 = d) (insert_by_date x l) = filter (λ p, p.1 = d) (x :: l).
Proof.
  induction l as [|y r IH]; [done|]. cbn [insert_by_date].
  case_decide as Hxy; [done|].
  rewrite filter_cons, IH, !filter_cons.
  destruct (decide (y.1 = d)), (decide (x.1 = d)); try done. lia.
Qed.

Lemma sort_by_date_stable (d : Z) (l : list (Z * string)) :
  filter (λ p, p.1 = d) (sort_by_date l) = filter (λ p, p.1 = d) l.
Proof.
  induction l as [|x l IH]; [done|]. cbn [sort_by_date foldr].
  fold (sort_by_date l). by rewrite insert_by_date_stable, !filter_cons, IH.
Qed.

Lemma zip_fst_snd {A B} (l : list (A * B)) : zip (fst <$> l) (snd <$> l) = l.
Proof. induction l as [|[a b] l IH]; [done|]. cbn. by rewrite IH. Qed.

Section DateColumnFacts.
Variable parse_date_col : string → option Z.

Lemma elem_of_date_pairs (columns : list string) (item : string)
    (d : Z) (c : string) :
  (d, c) ∈ date_pairs parse_date_col columns item ↔
  c ∈ columns ∧ c ≠ item ∧ c ≠ "MITM_N"%string ∧ parse_date_col c = Some d.
Proof.
  unfold date_pairs. rewrite list_elem_of_omap. split.
  - intros (c' & Hc & Hp). case_decide as Hskip; [done|].
    destruct (parse_date_col c') as [d'|] eqn:Hd; [|done].
    cbn in Hp. injection Hp as <- <-. tauto.
  - intros (Hc & H1 & H2 & Hd). exists c. split; [done|].
    rewrite decide_False by tauto. by rewrite Hd.
Qed.

Lemma elem_of_with_MITM_N (columns : list string) (c : string) :
  c ≠ "MITM_N"%string → c ∈ with_MITM_N columns ↔ c ∈ columns.
Proof.
  intros Hc. unfold with_MITM_N. case_decide; [done|].
  rewrite elem_of_app, list_elem_of_singleton. tauto.
Qed.

Lemma date_pairs_columns (columns : list string) (item : string)
    (d : Z) (c : string) :
  (d, c) ∈ date_pairs parse_date_col (with_MITM_N columns) item ↔
  c ∈ columns ∧ c ≠ item ∧ c ≠ "MITM_N"%string ∧ parse_date_col c = Some d.
Proof.
  rewrite elem_of_date_pairs. split.
  - intros (Hc & ? & ? & ?). by rewrite elem_of_with_MITM_N in Hc.
  - intros (Hc & ? & ? & ?). by rewrite elem_of_with_MITM_N.
Qed.

(** What [load_child_requirements] returns when it returns. *)
Lemma load_child_requirements_dates_some (columns : list string)
    (date_cols : list Z) (date_colnames : list string) :
  load_child_requirements_dates parse_date_col columns
  = Some (date_cols, date_colnames) →
  ∃ item, item_col columns = Some item ∧
    date_cols ≠ [] ∧ length date_cols = length date_colnames ∧
    StronglySorted Z.le date_cols ∧
    (∀ d c, (d, c) ∈ zip date_cols date_colnames ↔
            c ∈ columns ∧ c ≠ item ∧ c ≠ "MITM_N"%string ∧
            parse_date_col c = Some d) ∧
    zip date_cols date_colnames
      ≡ₚ date_pairs parse_date_col (with_MITM_N columns) item ∧
    (∀ d, filter (λ p, p.1 = d) (zip date_cols date_colnames)
          = filter (λ p, p.1 = d)
                   (date_pairs parse_date_col (with_MITM_N columns) item)).
Proof.
  unfold load_child_requirements_dates.
  destruct (item_col columns) as [item|] eqn:Hitem; [|done]. cbn.
  set (pairs := date_pairs parse_date_col (with_MITM_N columns) item).
  intros Hload. exists item. split; [done|].
  assert (pairs ≠ [] ∧ date_cols = fst <$> sort_by_date pairs ∧
          date_colnames = snd <$> sort_by_date pairs) as (Hne & -> & ->).
  { destruct pairs; [done|]. by injection Hload as <- <-. }
  clear Hload. rewrite zip_fst_snd, !length_fmap.
  split_and!; [|done|apply sort_by_date_sorted| |apply sort_by_date_perm
               |intros d; apply sort_by_date_stable].
  - intros Hnil. apply fmap_nil_inv in Hnil.
    apply Hne, Permutation_nil_r. by rewrite <- sort_by_date_perm, Hnil.
  - intros d c. rewrite sort_by_date_perm. apply date_pairs_columns.
Qed.

(** X27: once the file is read, [load_child_requirements] raises while it
    collects the date columns exactly when the file has no column, or no
    column besides the item column and MITM_N whose name reads as a date.
    Otherwise the dates are ascending, there is at least one, each date
    stands beside the name of a column that reads as that date, every such
    column is there, as often as in the file, and columns of one date keep
    the order of the file. *)
Theorem load_child_requirements_dates_spec (columns : list string) :
  (load_child_requirements_dates parse_date_col columns = None ↔
   columns = [] ∨
   ∃ item, item_col columns = Some item ∧
           ∀ c, c ∈ columns → c = item ∨ c = "MITM_N"%string ∨
                              parse_date_col c = None) ∧
  (∀ date_cols date_colnames,
     load_child_requirements_dates parse_date_col columns
     = Some (date_cols, date_colnames) →
     ∃ item, item_col columns = Some item ∧
       date_cols ≠ [] ∧ length date_cols = length date_colnames ∧
       StronglySorted Z.le date_cols ∧
       (∀ d c, (d, c) ∈ zip date_cols date_colnames ↔
               c ∈ columns ∧ c ≠ item ∧ c ≠ "MITM_N"%string ∧
               parse_date_col c = Some d) ∧
       zip date_cols date_colnames
         ≡ₚ date_pairs parse_date_col (with_MITM_N columns) item ∧
       (∀ d, filter (λ p, p.1 = d) (zip date_cols date_colnames)
             = filter (λ p, p.1 = d)
                      (date_pairs parse_date_col (with_MITM_N columns) item))).
Proof.
  split; [|apply load_child_requirements_dates_some].
  unfold load_child_requirements_dates.
  destruct (item_col columns) as [item|] eqn:Hitem; cbn; cycle 1.
  { split; [|done]. intros _. left. unfold item_col in Hitem.
    destruct (list_find _ cand_cols) as [[??]|]; [done|].
    by apply head_None in Hitem. }
  pose proof (date_pairs_columns columns item) as Hin.
  destruct (date_pairs parse_date_col (with_MITM_N columns) item)
    as [|[d0 c0] ps].
  - split; [|done]. intros _. right. exists item. split; [done|].
    intros c Hc.
    destruct (decide (c = item)) as [|H1]; [tauto|].
    destruct (decide (c = "MITM_N"%string)) as [|H2]; [tauto|].
    destruct (parse_date_col c) as [d|] eqn:Hd; [|tauto].
    exfalso. apply (elem_of_nil (d, c)). by apply Hin.
  - split; [done|]. intros [->|(item' & [= <-] & Hall)]; [done|].
    exfalso.
    destruct (proj1 (Hin d0 c0) ltac:(left)) as (Hc & H1 & H2 & Hd).
    destruct (Hall c0 Hc) as [?|[?|?]]; congruence.
Qed.

(** X28: with the date columns as [load_child_requirements] returns them,
    the shortage date of [compute_shortage] is the date of one of them, and
    no column dated before it shows a shortfall: it is the earliest date on
    which the cumulative demand reaches the available quantity. *)
Theorem shortage_date_is_earliest (columns : list string)
    (date_cols : list Z) (date_colnames : list string)
    (req_row : gmap string Z) (inv sd : Z) :
  load_child_requirements_dates parse_date_col columns
  = Some (date_cols, date_colnames) →
  (compute_shortage req_row inv date_colnames date_cols).1 = Some sd →
  sd ∈ date_cols ∧
  ∀ j d, date_cols !! j = Some d → d < sd →
         0 < inv - cum_through (daily_demand req_row date_colnames date_cols) j.
Proof.
  intros Hload Hsd.
  destruct (load_child_requirements_dates_some columns _ _ Hload)
    as (_ & _ & _ & Hlen & Hsorted & _).
  unfold compute_shortage, daily_demand in *. cbn [fst snd] in Hsd.
  set (l := zip date_cols date_colnames) in *.
  destruct (shortage_fold_date req_row inv l 0) as (HS & _).
  apply HS in Hsd as (k & Hk & _ & Hfirst & Hdk).
  assert (Hfst : fst <$> dem_of req_row l = date_cols).
  { unfold dem_of, l. rewrite <- list_fmap_compose.
    by apply fst_zip; lia. }
  assert (Hk' : date_cols !! k = Some sd).
  { by rewrite <- Hfst, list_lookup_fmap. }
  split; [by eapply list_elem_of_lookup_2|].
  intros j d Hj Hd. destruct (decide (j < k)%nat) as [Hjk|Hjk].
  - specialize (Hfirst j Hjk). lia.
  - pose proof (sorted_lookup_le date_cols k j sd d Hsorted ltac:(lia) Hk' Hj).
    lia.
Qed.

End DateColumnFacts.

Lemma shortage_date_is_earliest_witness :
  let date_cols := [739260; 739261] in
  let date_colnames := ["2025-01-09"; "2025-01-10"]%string in
  let req_row : gmap string Z :=
    {[ "2025-01-09"%string := 3; "2025-01-10"%string := 4 ]} in
  739261 ∈ date_cols ∧
  ∀ j d, date_cols !! j = Some d → d < 739261 →
         0 < 5 - cum_through (daily_demand req_row date_colnames date_cols) j.
Proof.
  apply (shortage_date_is_earliest parse_iso_date
           ["sItem"; "2025-01-10"; "2025-01-09"]%string
           [739260; 739261] ["2025-01-09"; "2025-01-10"]%string
           {[ "2025-01-09"%string := 3; "2025-01-10"%string := 4 ]}
           5 739261).
  - vm_compute. reflexivity.
  - vm_compute. reflexivity.
Defined.

End RequirementsFacts.

(** ** Keys rendered and read back *)

Module CanonMore.
Import Canon CanonProofs.

Lemma of_uint_acc_value (u : Decimal.uint) (p : positive) :
  Z.pos (Pos.of_uint_acc u p)
  = Z.pos p * 10 ^ Z.of_nat (Decimal.nb_digits u) + Z.of_N (Pos.of_uint u).
Proof.
  revert p. induction u as [|u IH|u IH|u IH|u IH|u IH|u IH|u IH|u IH|u IH|u IH];
    intros p; cbn [Pos.of_uint_acc Pos.of_uint Decimal.nb_digits];
    [cbn; lia|..];
    rewrite Nat2Z.inj_succ, Z.pow_succ_r by lia; cbn [Z.of_N];
    rewrite !IH, ?Pos2Z.inj_add, ?Pos2Z.inj_mul; ring.
Qed.

Lemma of_uint_value (u : Decimal.uint) (k : positive) :
  Z.pos (Pos.of_uint_acc u k)
  = Z.pos k * 10 ^ Z.of_nat (Decimal.nb_digits u) + Z.of_uint u.
Proof. apply of_uint_acc_value. Qed.

(** Reading the digits of a decimal numeral. *)
Lemma read_digits_uint (u : Decimal.uint) (rest : list ascii) (acc : Z)
    (cnt : nat) :
  read_digits (list_ascii_of_string (NilEmpty.string_of_uint u) ++ rest)
              acc cnt
  = read_digits rest
      (acc * 10 ^ Z.of_nat (Decimal.nb_digits u) + Z.of_uint u)
      (cnt + Decimal.nb_digits u).
Proof.
  revert acc cnt.
  induction u as [|u IH|u IH|u IH|u IH|u IH|u IH|u IH|u IH|u IH|u IH];
    intros acc cnt;
    [cbn; f_equal; lia|..];
    cbn [NilEmpty.string_of_uint list_ascii_of_string app read_digits
         Decimal.nb_digits];
    change (digit_of "0") with (Some 0); change (digit_of "1") with (Some 1);
    change (digit_of "2") with (Some 2); change (digit_of "3") with (Some 3);
    change (digit_of "4") with (Some 4); change (digit_of "5") with (Some 5);
    change (digit_of "6") with (Some 6); change (digit_of "7") with (Some 7);
    change (digit_of "8") with (Some 8); change (digit_of "9") with (Some 9);
    cbn iota; rewrite IH; unfold Z.of_uint;
    cbn [Pos.of_uint Z.of_N]; rewrite ?of_uint_acc_value;
    rewrite Nat2Z.inj_succ, Z.pow_succ_r by lia;
    (f_equal; [ring|lia]).
Qed.

Lemma uint_chars_head (u : Decimal.uint) :
  u ≠ Decimal.Nil →
  ∃ c r, list_ascii_of_string (NilEmpty.string_of_uint u) = c :: r ∧
         is_space c = false ∧ Ascii.eqb c "-" = false ∧
         Ascii.eqb c "+" = false.
Proof.
  intros Hu. destruct u; [done|..];
    cbn [NilEmpty.string_of_uint list_ascii_of_string];
    eexists _, _; (split; [reflexivity|]); by vm_compute.
Qed.

Lemma nb_digits_pos (u : Decimal.uint) :
  u ≠ Decimal.Nil → (0 < Decimal.nb_digits u)%nat.
Proof. intros Hu. destruct u; [done|..]; cbn; lia. Qed.

(** Reading back a rendered numeral. *)
Lemma parse_number_uint (u : Decimal.uint) (neg : bool) :
  u ≠ Decimal.Nil →
  parse_number ((if neg then "-" else "") ++ NilEmpty.string_of_uint u)
  = Some (inject_Z (if neg then - Z.of_uint u else Z.of_uint u)).
Proof.
  intros Hu.
  destruct (uint_chars_head u Hu) as (c & r & Hcr & Hsp & Hminus & Hplus).
  assert (Hread : read_digits (c :: r) 0 0
                  = (Z.of_uint u, Decimal.nb_digits u, [])).
  { rewrite <- Hcr.
    rewrite <- (app_nil_r (list_ascii_of_string _)), read_digits_uint.
    cbn [read_digits Nat.add]. do 2 f_equal. }
  pose proof (nb_digits_pos u Hu) as Hn.
  unfold parse_number.
  assert (Hs0 : read_sign (skip_spaces (list_ascii_of_string
                  ((if neg then "-" else "") ++ NilEmpty.string_of_uint u)))
                = (neg, c :: r)).
  { destruct neg.
    - change (list_ascii_of_string ("-" ++ NilEmpty.string_of_uint u))
        with ("-"%char
              :: list_ascii_of_string (NilEmpty.string_of_uint u)).
      rewrite Hcr. cbn [skip_spaces]. change (is_space "-") with false. cbn iota.
      cbn [read_sign]. change (Ascii.eqb "-" "-") with true. done.
    - change ("" ++ NilEmpty.string_of_uint u)%string
        with (NilEmpty.string_of_uint u).
      rewrite Hcr. cbn [skip_spaces]. rewrite Hsp.
      cbn [read_sign]. by rewrite Hminus, Hplus. }
  rewrite Hs0, Hread. cbn beta iota zeta.
  destruct (decide ((Decimal.nb_digits u + 0)%nat = 0%nat)) as [|_]; [lia|].
  cbn [read_exponent forallb]. unfold scale10.
  rewrite decide_True by lia.
  replace (0 - Z.of_nat 0) with 0 by lia.
  rewrite Z.pow_0_r, Z.mul_1_r. by destruct neg.
Qed.

Lemma Z_of_uint_to_uint (p : positive) : Z.of_uint (Pos.to_uint p) = Z.pos p.
Proof. unfold Z.of_uint. by rewrite DecimalPos.Unsigned.of_to. Qed.

(** What [to_numeric] reads from a rendered integer is that integer. *)
Lemma parse_number_astype_str (z : Z) :
  parse_number (astype_str z) = Some (inject_Z z).
Proof.
  unfold astype_str. destruct z as [|p|p]; cbn [Z.to_int].
  - by vm_compute.
  - pose proof (DecimalPos.Unsigned.to_uint_nonnil p) as Hnil.
    pose proof (parse_number_uint (Pos.to_uint p) false Hnil) as H.
    cbn [append] in H. rewrite Z_of_uint_to_uint in H.
    cbn [NilZero.string_of_int]. unfold NilZero.string_of_uint.
    by destruct (Pos.to_uint p).
  - pose proof (DecimalPos.Unsigned.to_uint_nonnil p) as Hnil.
    pose proof (parse_number_uint (Pos.to_uint p) true Hnil) as H.
    cbn [append] in H. rewrite Z_of_uint_to_uint in H.
    cbn [NilZero.string_of_int]. unfold NilZero.string_of_uint.
    by destruct (Pos.to_uint p).
Qed.

Lemma astype_int_inject_Z (z : Z) : in_int64 z → astype_int (inject_Z z) = z.
Proof.
  intros Hz. unfold astype_int, truncate. cbn [inject_Z Qnum Qden].
  rewrite Z.quot_1_r. by rewrite decide_True.
Qed.

Lemma astype_str_inj (z1 z2 : Z) : astype_str z1 = astype_str z2 → z1 = z2.
Proof.
  intros H. apply (f_equal parse_number) in H.
  rewrite !parse_number_astype_str in H. by injection H.
Qed.

(** X29: the key [to_int_str] renders reads back, through
    [pd.to_numeric], as the integer it shows; so canonicalising a key once
    more gives the same key. *)
Theorem to_int_str1_idempotent (c : cell) :
  to_numeric (CStr (to_int_str1 c))
  = Some (inject_Z (astype_int (fillna (inject_Z (-1)) (to_numeric c)))) ∧
  to_int_str1 (CStr (to_int_str1 c)) = to_int_str1 c.
Proof.
  assert (H : to_numeric (CStr (to_int_str1 c))
              = Some (inject_Z (astype_int (fillna (inject_Z (-1))
                                                   (to_numeric c)))))
    by apply parse_number_astype_str.
  split; [done|].
  unfold to_int_str1 at 1. rewrite H.
  change (fillna (inject_Z (-1)) (Some ?q)) with q.
  by rewrite astype_int_inject_Z by apply astype_int_range.
Qed.

(** X30: among numbers a [float64] holds whose integer part is in the
    range of [int64], two get the same key exactly when their integer parts
    are equal, and one gets the key of the unparsable values exactly when
    its integer part is -1. A number beyond the range gets the key of
    [-2^63], so all such numbers share one key. *)
Theorem to_int_str1_eq_iff :
  (∀ c1 c2 q1 q2,
     to_numeric c1 = Some q1 → to_numeric c2 = Some q2 →
     float64 q1 → float64 q2 →
     in_int64 (integer_part q1) → in_int64 (integer_part q2) →
     (to_int_str1 c1 = to_int_str1 c2 ↔ integer_part q1 = integer_part q2)) ∧
  (∀ c q, to_numeric c = Some q → float64 q → in_int64 (integer_part q) →
          (to_int_str1 c = sentinel ↔ integer_part q = -1)) ∧
  (∀ c q, to_numeric c = Some q → float64 q → ¬ in_int64 (integer_part q) →
          to_int_str1 c = "-9223372036854775808"%string).
Proof.
  split_and!.
  - intros c1 c2 q1 q2 H1 H2 _ _ Hr1 Hr2.
    rewrite (to_int_str1_parsed c1 q1), (to_int_str1_parsed c2 q2) by done.
    split; [apply astype_str_inj|by intros ->].
  - intros c q H _ Hr. rewrite (to_int_str1_parsed c q) by done.
    change sentinel with (astype_str (-1)).
    split; [apply astype_str_inj|by intros ->].
  - intros c q H _ Hr. rewrite (to_int_str1_cast c q H).
    by rewrite decide_False.
Qed.

(** When the checked function returns, it returns what [to_int_str] gives
    and no element spells an infinity. *)
Lemma to_int_str_checked_Some (s : list cell) (ks : list string) :
  to_int_str_checked s = Some ks ↔
  ks = to_int_str s ∧ ∀ c, c ∈ s → non_finite c = false.
Proof.
  unfold to_int_str_checked.
  destruct (existsb non_finite s) eqn:He.
  - split; [done|]. intros [_ Hall].
    apply existsb_exists in He as (c & Hc & Hnf).
    apply list_elem_of_In in Hc. by rewrite (Hall c Hc) in Hnf.
  - split.
    + intros [= <-]. split; [done|]. intros c Hc.
      destruct (non_finite c) eqn:Hnf; [|done].
      assert (existsb non_finite s = true) as Hex; [|congruence].
      apply existsb_exists. exists c. by rewrite <- list_elem_of_In.
    + by intros [-> _].
Qed.

Example to_int_str_checked_samples :
  to_int_str_checked [CStr "inf"; CInt 10] = None ∧
  to_int_str_checked [CStr "-Infinity"] = None ∧
  to_int_str_checked [CStr "abc"; CFloat (21 # 2)]
  = Some ["-1"; "10"]%string.
Proof. by vm_compute. Qed.

End CanonMore.
